(** * MULTI-PDF-READER-BACKEND: the batch ingestion pipeline

    A shallow embedding of [src/services/pdfProcessor.js] and
    [src/controllers/pdfController.js], and the properties the specification
    states about them.

    Conventions of the embedding.
    - A JavaScript string is a [string]: the UTF-8 bytes of its text, so an
      ASCII character is one [ascii].  [JSString.toLowerCase] maps the ASCII
      letters and is used where the result is compared with [.pdf] or
      [.zip], which no other character is mapped into; the classifier, whose
      keywords a character outside ASCII can be mapped into, uses the case
      mapping of the runtime.
    - A JavaScript number is a [float] (IEEE 754 binary64, the kernel's
      primitive floats), so arithmetic rounds as it does in the program.
    - Code that can throw lives in the [Res] monad; [try_catch] is the
      [try { } catch (error) { }] statement.
    - The collaborators the code calls (the document store behind [Invoice],
      the generative service, the PDF text extractor, the archive reader) are
      parameters of the functions that call them. *)

From Stdlib Require Import ZArith Bool Lia Ascii String DecimalString Floats.
From stdpp Require Import base option list strings gmap.

Set Warnings "-inexact-float,-register-all".
#[local] Arguments String.append !_ _ / : simpl nomatch.

(** ** JavaScript strings *)

Module JSString.

Definition is_upper (c : ascii) : bool :=
  let n := nat_of_ascii c in (65 <=? n)%nat && (n <=? 90)%nat.

Definition is_lower (c : ascii) : bool :=
  let n := nat_of_ascii c in (97 <=? n)%nat && (n <=? 122)%nat.

Definition lower_char (c : ascii) : ascii :=
  if is_upper c then ascii_of_nat (nat_of_ascii c + 32) else c.

Definition upper_char (c : ascii) : ascii :=
  if is_lower c then ascii_of_nat (nat_of_ascii c - 32) else c.

(** [s.toLowerCase()] for a text of ASCII characters: the letters A to Z
    become small, every other byte stays.  On any other text the case
    mapping is the runtime's, [String_toLowerCase] of [JSValue.Builtins]. *)
Fixpoint toLowerCase (s : string) : string :=
  match s with
  | EmptyString => EmptyString
  | String c s' => String (lower_char c) (toLowerCase s')
  end.

(** The characters of ASCII, and the texts made of them. *)
Definition is_ascii_char (c : ascii) : bool :=
  match c with Ascii _ _ _ _ _ _ _ b7 => negb b7 end.

Fixpoint ascii_only (s : string) : bool :=
  match s with
  | EmptyString => true
  | String c s' => is_ascii_char c && ascii_only s'
  end.

(** [s.startsWith(p)] *)
Fixpoint startsWith (p s : string) : bool :=
  match p, s with
  | EmptyString, _ => true
  | String a p', String b s' => Ascii.eqb a b && startsWith p' s'
  | String _ _, EmptyString => false
  end.

(** [s.includes(needle)] *)
Fixpoint includes (s needle : string) : bool :=
  startsWith needle s ||
  match s with
  | EmptyString => false
  | String _ s' => includes s' needle
  end.

(** [s] has [needle] as a substring. *)
Definition substring_of (needle s : string) : Prop :=
  ∃ pre post, s = pre +:+ needle +:+ post.

(** [s] has a substring that is [needle] up to the case of letters. *)
Definition ci_substring_of (needle s : string) : Prop :=
  ∃ pre mid post,
    s = pre +:+ mid +:+ post ∧ toLowerCase mid = toLowerCase needle.

End JSString.

(** ** Exceptions *)

Module JSError.

(** A thrown [Error] object: its [name] and its [message]. *)
Record Error := mkError { err_name : string; message : string }.

(** A computation that returns a value or throws. *)
Inductive Res (A : Type) : Type :=
| Ok (a : A)
| Throw (e : Error).
Arguments Ok {A} a.
Arguments Throw {A} e.

Definition bind {A B} (m : Res A) (f : A → Res B) : Res B :=
  match m with
  | Ok a => f a
  | Throw e => Throw e
  end.

(** [try { body } catch (error) { handler }] *)
Definition try_catch {A} (body : Res A) (handler : Error → Res A) : Res A :=
  match body with
  | Ok a => Ok a
  | Throw e => handler e
  end.

Definition returns {A} (m : Res A) : bool :=
  match m with Ok _ => true | Throw _ => false end.

End JSError.

Export JSError.

(** [x ← m; k] runs [m] and, unless it throws, goes on with [k]. *)
#[global] Instance Res_bind : MBind Res := λ A B f m, JSError.bind m f.
#[global] Instance Res_ret : MRet Res := λ A a, Ok a.

(** ** Regular expressions

    [RegExp] is a built-in of the language.  The code is embedded over any
    engine that offers the interface [RegExpEngine]; [MiniRegExp] below is an
    executable engine for the pattern syntax that the program's own patterns
    use, on which the examples of this file are evaluated. *)

Module RegExp.

(** A [RegExp] object: its [source] and whether the [i] and [g] flags are
    set. *)
Record RegExp := mkRegExp {
  source : string;
  ignoreCase : bool;
  global : bool
}.

(** The array a successful match returns: where it starts, how many code
    units it spans, and the captures ([None] for a group that did not
    take part); capture 0 is the whole match. *)
Record MatchResult := mkMatch {
  index : nat;
  matched_length : nat;
  captures : list (option string)
}.

Class RegExpEngine := {
  (** [Some detail] when [new RegExp(source)] throws a [SyntaxError]. *)
  syntax_error : string → option string;
  (** [re.exec(s)] started at [lastIndex]. *)
  exec_at : RegExp → string → nat → option MatchResult
}.

Section Operations.
Context `{RegExpEngine}.

(** [new RegExp(source, flags)] with flags [i]. *)
Definition RegExp_new_i (src : string) : Res RegExp :=
  match syntax_error src with
  | Some detail =>
      Throw (mkError "SyntaxError"
               ("Invalid regular expression: /" +:+ src +:+ "/i: " +:+ detail))
  | None => Ok (mkRegExp src true false)
  end.

(** [re.test(s)], for a [re] without the [g] flag. *)
Definition test (re : RegExp) (s : string) : bool :=
  bool_decide (is_Some (exec_at re s 0)).

(** [s.match(re)], for a [re] without the [g] flag. *)
Definition match_ (s : string) (re : RegExp) : option MatchResult :=
  exec_at re s 0.

(** [m[group]] of a match array; [None] is [undefined]. *)
Definition group (m : MatchResult) (g : nat) : option string :=
  mjoin (captures m !! g).
End Operations.

End RegExp.

(** ** An executable regular-expression engine

    A backtracking matcher in the style of the language specification
    (continuations, leftmost match, greedy and lazy quantifiers, captures),
    and a parser for the pattern syntax: literals, [.], [^], [$], groups,
    alternation, character classes, the escapes [\d \w \s] and their
    negations, and the quantifiers [* + ? {n} {n,} {n,m}] with their lazy
    forms.  Look-around, back-references and word boundaries are outside its
    fragment.  A character outside ASCII is the sequence of its UTF-8 bytes and
    a pattern reads it as one atom. *)

Module MiniRegExp.
Import JSString.

Inductive escape_class := Digit | Word | Space.

Inductive citem :=
| IRange (lo hi : ascii)
| IEsc (negated : bool) (k : escape_class).

Record cset := mkCset { cs_negated : bool; cs_items : list citem }.

Inductive re :=
| Eps
| Chr (cs : cset)
| Cat (a b : re)
| Alt (a b : re)
| Rep (a : re) (lo : nat) (hi : option nat) (greedy : bool)
| Grp (i : nat) (a : re)
| Bol
| Eol.

Definition code (c : ascii) : nat := nat_of_ascii c.

Definition in_range (lo hi c : ascii) : bool :=
  (code lo <=? code c)%nat && (code c <=? code hi)%nat.

Definition is_digit (c : ascii) : bool := in_range "0" "9" c.

Definition in_escape (k : escape_class) (c : ascii) : bool :=
  match k with
  | Digit => is_digit c
  | Word => is_digit c || is_lower c || is_upper c || Ascii.eqb c "_"
  | Space => in_range "009" "013" c || Ascii.eqb c " "
  end.

Definition item_match (ic : bool) (c : ascii) (it : citem) : bool :=
  match it with
  | IRange lo hi =>
      in_range lo hi c ||
      (ic && (in_range lo hi (lower_char c) || in_range lo hi (upper_char c)))
  | IEsc neg k => xorb neg (in_escape k c)
  end.

Definition cset_match (ic : bool) (cs : cset) (c : ascii) : bool :=
  xorb (cs_negated cs) (existsb (item_match ic c) (cs_items cs)).

Definition lit (c : ascii) : re := Chr (mkCset false [IRange c c]).
(** [.]: any character but a line terminator. *)
Definition dot : re :=
  Chr (mkCset true [IRange "010" "010"; IRange "013" "013"]).

Fixpoint re_size (r : re) : nat :=
  match r with
  | Cat a b | Alt a b => S (re_size a + re_size b)
  | Rep a _ _ _ | Grp _ a => S (re_size a)
  | _ => 1
  end.

Fixpoint groups_in (r : re) : list nat :=
  match r with
  | Cat a b | Alt a b => groups_in a ++ groups_in b
  | Rep a _ _ _ => groups_in a
  | Grp i a => i :: groups_in a
  | _ => []
  end.

(** *** Matching *)

Definition caps := list (nat * (nat * nat)).

Inductive outcome :=
| NoMatch
| Matched (endpos : nat) (c : caps)
| OutOfFuel.

Definition cont := nat → list ascii → caps → outcome.

Definition clear_groups (gs : list nat) (c : caps) : caps :=
  filter (λ b, b.1 ∉ gs) c.

Definition or_else (o : outcome) (alt : unit → outcome) : outcome :=
  match o with
  | NoMatch => alt ()
  | _ => o
  end.

Fixpoint m (fuel : nat) (ic : bool) (r : re)
    (pos : nat) (rest : list ascii) (c : caps) (k : cont) : outcome :=
  match fuel with
  | O => OutOfFuel
  | S f =>
      match r with
      | Eps => k pos rest c
      | Chr cs =>
          match rest with
          | x :: rest' =>
              if cset_match ic cs x then k (S pos) rest' c else NoMatch
          | [] => NoMatch
          end
      | Cat a b => m f ic a pos rest c (λ p r' c', m f ic b p r' c' k)
      | Alt a b =>
          or_else (m f ic a pos rest c k) (λ _, m f ic b pos rest c k)
      | Grp i a =>
          m f ic a pos rest c (λ p r' c', k p r' ((i, (pos, p)) :: c'))
      | Bol => if (pos =? 0)%nat then k pos rest c else NoMatch
      | Eol => match rest with [] => k pos rest c | _ => NoMatch end
      | Rep a lo hi greedy =>
          let more (_ : unit) :=
            match hi with
            | Some O => NoMatch
            | _ =>
                m f ic a pos rest (clear_groups (groups_in a) c)
                  (λ p r' c',
                    if (lo =? 0)%nat && (p =? pos)%nat then NoMatch
                    else m f ic (Rep a (pred lo) (pred <$> hi) greedy) p r' c' k)
            end in
          if (0 <? lo)%nat then more ()
          else if greedy then or_else (more ()) (λ _, k pos rest c)
          else or_else (k pos rest c) more
      end
  end.

Definition match_fuel (r : re) (s : list ascii) : nat :=
  (length s + 2) * (re_size r + 2).

(** The leftmost match at or after [start], tried at [n] start positions. *)
Fixpoint search (n : nat) (ic : bool) (r : re) (whole : list ascii)
    (start : nat) : option (nat * outcome) :=
  match n with
  | O => None
  | S n' =>
      match m (match_fuel r whole) ic r start (drop start whole) []
              (λ p _ c, Matched p c) with
      | NoMatch =>
          if (start <? length whole)%nat then search n' ic r whole (S start)
          else None
      | o => Some (start, o)
      end
  end.

Definition slice (whole : list ascii) (b e : nat) : string :=
  string_of_list_ascii (take (e - b) (drop b whole)).

Fixpoint capture_of (whole : list ascii) (c : caps) (i : nat) : option string :=
  match c with
  | [] => None
  | (j, (b, e)) :: c' =>
      if (j =? i)%nat then Some (slice whole b e) else capture_of whole c' i
  end.

(** *** Parsing a pattern *)

Inductive presult (A : Type) : Type :=
| POk (a : A)
| PErr (detail : string)
| PUnsupported.
Arguments POk {A} a.
Arguments PErr {A} detail.
Arguments PUnsupported {A}.

Inductive class_atom :=
| CAChar (c : ascii)
| CAEsc (negated : bool) (k : escape_class).

(** The character or class that [\c] stands for; [in_class] tells whether
    it is read inside [[ ]]. *)
Definition escape_atom (in_class : bool) (c : ascii) : presult class_atom :=
  match c with
  | "d" => POk (CAEsc false Digit)
  | "D" => POk (CAEsc true Digit)
  | "w" => POk (CAEsc false Word)
  | "W" => POk (CAEsc true Word)
  | "s" => POk (CAEsc false Space)
  | "S" => POk (CAEsc true Space)
  | "t" => POk (CAChar "009")
  | "n" => POk (CAChar "010")
  | "v" => POk (CAChar "011")
  | "f" => POk (CAChar "012")
  | "r" => POk (CAChar "013")
  | "0" => POk (CAChar "000")
  | "b" => if in_class then POk (CAChar "008") else PUnsupported
  | "B" | "x" | "u" | "c" | "k" | "p" | "P" => PUnsupported
  | _ =>
      if is_digit c || (128 <=? code c)%nat then PUnsupported
      else POk (CAChar c)
  end%char.

Definition read_class_atom (cs : list ascii)
    : presult (class_atom * list ascii) :=
  match cs with
  | [] => PErr "Unterminated character class"
  | "\"%char :: [] => PErr "\ at end of pattern"
  | "\"%char :: c :: rest =>
      match escape_atom true c with
      | POk a => POk (a, rest)
      | PErr d => PErr d
      | PUnsupported => PUnsupported
      end
  | c :: rest =>
      if (128 <=? code c)%nat then PUnsupported else POk (CAChar c, rest)
  end.

Definition item_of_atom (a : class_atom) : citem :=
  match a with
  | CAChar c => IRange c c
  | CAEsc n k => IEsc n k
  end.

(** The rest of a class, after [[] or [[^]. *)
Fixpoint parse_class (fuel : nat) (cs : list ascii) (neg : bool)
    (items_rev : list citem) : presult (cset * list ascii) :=
  match fuel with
  | O => PUnsupported
  | S f =>
      match cs with
      | "]"%char :: rest => POk (mkCset neg (rev items_rev), rest)
      | _ =>
          match read_class_atom cs with
          | POk (CAChar lo, "-"%char :: c2 :: rest2) =>
              if Ascii.eqb c2 "]" then
                parse_class f ("-"%char :: c2 :: rest2) neg (IRange lo lo :: items_rev)
              else
                match read_class_atom (c2 :: rest2) with
                | POk (CAChar hi, rest3) =>
                    if (code hi <? code lo)%nat
                    then PErr "Range out of order in character class"
                    else parse_class f rest3 neg (IRange lo hi :: items_rev)
                | POk (CAEsc n k, rest3) =>
                    parse_class f rest3 neg
                      (IEsc n k :: IRange "-" "-" :: IRange lo lo :: items_rev)
                | PErr d => PErr d
                | PUnsupported => PUnsupported
                end
          | POk (a, rest) => parse_class f rest neg (item_of_atom a :: items_rev)
          | PErr d => PErr d
          | PUnsupported => PUnsupported
          end
      end
  end.

Fixpoint take_digits (cs : list ascii) : list ascii * list ascii :=
  match cs with
  | c :: rest =>
      if is_digit c then
        let '(ds, rest') := take_digits rest in (c :: ds, rest')
      else ([], cs)
  | [] => ([], [])
  end.

Definition number_of (ds : list ascii) : nat :=
  fold_left (λ acc d, 10 * acc + (code d - 48)) ds 0.

(** [{n}], [{n,}] or [{n,m}], read after the brace; [None] when the text
    is not a quantifier, and the brace is then a literal. *)
Definition parse_braces (cs : list ascii)
    : option (nat * option nat * list ascii) :=
  match take_digits cs with
  | ([], _) => None
  | (ds, "}"%char :: rest) => Some (number_of ds, Some (number_of ds), rest)
  | (ds, ","%char :: "}"%char :: rest) => Some (number_of ds, None, rest)
  | (ds, ","%char :: rest) =>
      match take_digits rest with
      | ([], _) => None
      | (ds2, "}"%char :: rest2) =>
          Some (number_of ds, Some (number_of ds2), rest2)
      | _ => None
      end
  | _ => None
  end.

(** A group or the whole pattern being read: the alternatives that are
    complete, the terms of the current one (both latest first), and the
    number of the group when it captures. *)
Record frame := mkFrame {
  f_alts : list re;
  f_seq : list re;
  f_cap : option nat
}.

Definition seq_re (terms_rev : list re) : re :=
  match terms_rev with
  | [] => Eps
  | t :: ts => fold_left (λ acc x, Cat x acc) ts t
  end.

Definition close_frame (fr : frame) : re :=
  fold_left (λ acc x, Alt x acc) (f_alts fr) (seq_re (f_seq fr)).

Definition push_term (t : re) (fr : frame) : frame :=
  mkFrame (f_alts fr) (t :: f_seq fr) (f_cap fr).

Definition quantify (lo : nat) (hi : option nat) (greedy : bool)
    (fr : frame) : frame :=
  match f_seq fr with
  | t :: ts => mkFrame (f_alts fr) (Rep t lo hi greedy :: ts) (f_cap fr)
  | [] => fr
  end.

Fixpoint span_continuation (cs : list ascii) : list ascii * list ascii :=
  match cs with
  | c :: rest =>
      if (128 <=? code c)%nat && (code c <? 192)%nat then
        let '(bs, rest') := span_continuation rest in (c :: bs, rest')
      else ([], cs)
  | [] => ([], [])
  end.

Inductive parsed :=
| Parsed (r : re) (ngroups : nat)
| SyntaxErr (detail : string)
| Unsupported.

(** [q] tells whether the last term read can take a quantifier. *)
Fixpoint parse_loop (fuel : nat) (cs : list ascii) (cur : frame)
    (stack : list frame) (ng : nat) (q : bool) : parsed :=
  match fuel with
  | O => Unsupported
  | S f =>
      let quantifier lo hi rest :=
        if q then
          match rest with
          | "?"%char :: rest' =>
              parse_loop f rest' (quantify lo hi false cur) stack ng false
          | _ => parse_loop f rest (quantify lo hi true cur) stack ng false
          end
        else SyntaxErr "Nothing to repeat" in
      match cs with
      | [] =>
          match stack with
          | [] => Parsed (close_frame cur) ng
          | _ :: _ => SyntaxErr "Unterminated group"
          end
      | "("%char :: "?"%char :: ":"%char :: rest =>
          parse_loop f rest (mkFrame [] [] None) (cur :: stack) ng false
      | "("%char :: "?"%char :: _ => Unsupported
      | "("%char :: rest =>
          parse_loop f rest (mkFrame [] [] (Some (S ng))) (cur :: stack) (S ng) false
      | ")"%char :: rest =>
          match stack with
          | [] => SyntaxErr "Unmatched ')'"
          | parent :: stack' =>
              let body := close_frame cur in
              let atom := match f_cap cur with
                          | Some i => Grp i body
                          | None => body
                          end in
              parse_loop f rest (push_term atom parent) stack' ng true
          end
      | "|"%char :: rest =>
          parse_loop f rest
            (mkFrame (seq_re (f_seq cur) :: f_alts cur) [] (f_cap cur))
            stack ng false
      | "*"%char :: rest => quantifier 0 None rest
      | "+"%char :: rest => quantifier 1 None rest
      | "?"%char :: rest => quantifier 0 (Some 1) rest
      | "{"%char :: rest =>
          match parse_braces rest with
          | Some (lo, hi, rest') =>
              if match hi with Some h => (h <? lo)%nat | None => false end
              then SyntaxErr "numbers out of order in {} quantifier"
              else quantifier lo hi rest'
          | None => parse_loop f rest (push_term (lit "{") cur) stack ng true
          end
      | "["%char :: "^"%char :: rest =>
          match parse_class (S (length rest)) rest true [] with
          | POk (cs', rest') =>
              parse_loop f rest' (push_term (Chr cs') cur) stack ng true
          | PErr d => SyntaxErr d
          | PUnsupported => Unsupported
          end
      | "["%char :: rest =>
          match parse_class (S (length rest)) rest false [] with
          | POk (cs', rest') =>
              parse_loop f rest' (push_term (Chr cs') cur) stack ng true
          | PErr d => SyntaxErr d
          | PUnsupported => Unsupported
          end
      | "\"%char :: [] => SyntaxErr "\ at end of pattern"
      | "\"%char :: c :: rest =>
          match escape_atom false c with
          | POk a =>
              parse_loop f rest
                (push_term (Chr (mkCset false [item_of_atom a])) cur) stack ng true
          | PErr d => SyntaxErr d
          | PUnsupported => Unsupported
          end
      | "^"%char :: rest => parse_loop f rest (push_term Bol cur) stack ng false
      | "$"%char :: rest => parse_loop f rest (push_term Eol cur) stack ng false
      | "."%char :: rest => parse_loop f rest (push_term dot cur) stack ng true
      | c :: rest =>
          if (192 <=? code c)%nat then
            let '(bs, rest') := span_continuation rest in
            parse_loop f rest'
              (push_term (fold_left (λ acc b, Cat acc (lit b)) bs (lit c)) cur)
              stack ng true
          else parse_loop f rest (push_term (lit c) cur) stack ng true
      end
  end.

Definition parse (src : string) : parsed :=
  let cs := list_ascii_of_string src in
  parse_loop (S (length cs)) cs (mkFrame [] [] None) [] 0 false.

(** *** The engine *)

Definition exec (re : RegExp.RegExp) (s : string) (lastIndex : nat)
    : option RegExp.MatchResult :=
  match parse (RegExp.source re) with
  | Parsed r ng =>
      let whole := list_ascii_of_string s in
      if (length whole <? lastIndex)%nat then None
      else
        match search (S (length whole - lastIndex)) (RegExp.ignoreCase re)
                r whole lastIndex with
        | Some (start, Matched e c) =>
            Some (RegExp.mkMatch start (e - start)
                    (Some (slice whole start e)
                       :: map (capture_of whole c) (seq 1 ng)))
        | _ => None
        end
  | _ => None
  end.

#[export] Instance engine : RegExp.RegExpEngine := {|
  RegExp.syntax_error src :=
    match parse src with SyntaxErr d => Some d | _ => None end;
  RegExp.exec_at := exec
|}.

End MiniRegExp.

(** ** The document store behind the [Invoice] model *)

Module Store.
Import RegExp.

(** The fields of an [Invoice] document that the controller reads and
    writes (models/Invoice.js). *)
Record Invoice := mkInvoice {
  fileName : string;
  filePath : option string;
  fileHash : option string;
  platform : string;
  status : string
}.

#[export] Instance Invoice_eq_dec : EqDecision Invoice.
Proof. solve_decision. Defined.

(** The filters the controller passes to [Invoice.findOne]. *)
Inductive Query :=
| ByFileHash (h : string)           (* { fileHash } *)
| ByFileName (n : string)           (* { fileName: originalName } *)
| ByFileNameRegex (re : RegExp).   (* { fileName: { $regex: re } } *)

Section Documents.
Context `{RegExpEngine}.

Definition satisfies (q : Query) (d : Invoice) : bool :=
  match q with
  | ByFileHash h => bool_decide (fileHash d = Some h)
  | ByFileName n => bool_decide (fileName d = n)
  | ByFileNameRegex re => test re (fileName d)
  end.

(** [findOne] over a collection that holds [docs]: the first document
    that satisfies the filter. *)
Definition findOne_in (docs : list Invoice) (q : Query) : option Invoice :=
  find (satisfies q) docs.
End Documents.

End Store.

(** ** PdfController: duplicate detection *)

Module DuplicateDetector.
Import JSString RegExp Store.

(** [name.replace(/\.[^/.]+$/, "")]: the name without its last extension.
    The pattern matches at the first dot that is followed, up to the end,
    by one or more characters none of which is a slash or a dot. *)
Fixpoint is_extension (s : string) : bool :=
  match s with
  | EmptyString => false
  | String c s' =>
      negb (Ascii.eqb c "/") && negb (Ascii.eqb c ".") &&
      match s' with
      | EmptyString => true
      | _ => is_extension s'
      end
  end.

Fixpoint removeExtension (name : string) : string :=
  match name with
  | EmptyString => EmptyString
  | String c s' =>
      if Ascii.eqb c "." && is_extension s' then EmptyString
      else String c (removeExtension s')
  end.

(** What [checkForDuplicates] resolves to. *)
Record Verdict := mkVerdict {
  isDuplicate : bool;
  reason : option string;
  existingFile : option Invoice;
  duplicateType : option string;
  error : option string
}.

Definition duplicate (why : string) (existing : Invoice) (type : string) : Verdict :=
  mkVerdict true (Some why) (Some existing) (Some type) None.

(** [{ isDuplicate: false }] *)
Definition not_duplicate : Verdict := mkVerdict false None None None None.

(** [{ isDuplicate: false, error: error.message }] *)
Definition failed_open (e : Error) : Verdict :=
  mkVerdict false None None None (Some (message e)).

(** The patterns of the third and the fourth lookup. *)
Definition similar_name_pattern (originalName : string) : string :=
  "^" +:+ removeExtension originalName +:+ "\.[^/.]+$".
Definition case_insensitive_pattern (originalName : string) : string :=
  "^" +:+ originalName +:+ "$".

Section CheckForDuplicates.
Context `{RegExpEngine}.
(** [calculateFileHash]: the MD5 digest of the file at a path, or the
    read error of the stream. *)
Variable calculateFileHash : string → Res string.
(** [Invoice.findOne]: the document found, if any, or a storage error. *)
Variable findOne : Query → Res (option Invoice).

(** The body of the [try] block, pdfController.js lines 134-185. *)
Definition checkForDuplicates_body (filePath originalName : string)
    : Res Verdict :=
  fileHash ← calculateFileHash filePath;
  existingByHash ← findOne (ByFileHash fileHash);
  match existingByHash with
  | Some existing =>
      Ok (duplicate
            ("File content already exists (" +:+ fileName existing +:+ ")")
            existing "content")
  | None =>
  existingByExactName ← findOne (ByFileName originalName);
  match existingByExactName with
  | Some existing =>
      Ok (duplicate "File with exact same name already exists"
            existing "filename")
  | None =>
  re ← RegExp_new_i (similar_name_pattern originalName);
  existingByNameWithoutExt ← findOne (ByFileNameRegex re);
  match existingByNameWithoutExt with
  | Some existing =>
      Ok (duplicate
            ("File with similar name already exists ("
               +:+ fileName existing +:+ ")")
            existing "similar_name")
  | None =>
  re' ← RegExp_new_i (case_insensitive_pattern originalName);
  existingByName ← findOne (ByFileNameRegex re');
  match existingByName with
  | Some existing =>
      Ok (duplicate "File with same name (case-insensitive) already exists"
            existing "case_insensitive")
  | None => Ok not_duplicate
  end end end end.

(** [checkForDuplicates(filePath, originalName)], lines 132-190. *)
Definition checkForDuplicates (filePath originalName : string) : Res Verdict :=
  try_catch (checkForDuplicates_body filePath originalName)
    (λ error, Ok (failed_open error)).

(** A lookup that the check reaches raises [e]: after the digest is
    computed, each lookup is reached when those before it found nothing (and
    its pattern, if it has one, is a valid regular expression). *)
Definition lookup_raises (originalName digest : string) (e : Error) : Prop :=
  findOne (ByFileHash digest) = Throw e ∨
  (findOne (ByFileHash digest) = Ok None ∧
   (findOne (ByFileName originalName) = Throw e ∨
    (findOne (ByFileName originalName) = Ok None ∧
     ∃ re, RegExp_new_i (similar_name_pattern originalName) = Ok re ∧
       (findOne (ByFileNameRegex re) = Throw e ∨
        (findOne (ByFileNameRegex re) = Ok None ∧
         ∃ re', RegExp_new_i (case_insensitive_pattern originalName) = Ok re' ∧
           findOne (ByFileNameRegex re') = Throw e))))).

End CheckForDuplicates.

(** *** The verdict as the specification words it *)

(** A stored name whose stem is [stem], with any extension. *)
Definition has_stem (stem stored : string) : bool :=
  bool_decide (removeExtension stored = stem) && negb (bool_decide (stored = stem)).

Definition spec_duplicateType (docs : list Invoice) (digest name : string)
    : option string :=
  if existsb (λ d, bool_decide (fileHash d = Some digest)) docs
  then Some "content"
  else if existsb (λ d, bool_decide (fileName d = name)) docs
  then Some "filename"
  else if existsb (λ d, has_stem (removeExtension name) (fileName d)) docs
  then Some "similar_name"
  else if existsb (λ d, bool_decide (toLowerCase (fileName d) = toLowerCase name)) docs
  then Some "case_insensitive"
  else None.

(** *** The verdict as the four lookups decide it *)

Section Lookups.
Context `{RegExpEngine}.

Definition similar_name_hit (name : string) (d : Invoice) : bool :=
  test (mkRegExp (similar_name_pattern name) true false) (fileName d).
Definition case_insensitive_hit (name : string) (d : Invoice) : bool :=
  test (mkRegExp (case_insensitive_pattern name) true false) (fileName d).

Definition lookup_duplicateType (docs : list Invoice) (digest name : string)
    : option string :=
  if existsb (λ d, bool_decide (fileHash d = Some digest)) docs
  then Some "content"
  else if existsb (λ d, bool_decide (fileName d = name)) docs
  then Some "filename"
  else if existsb (similar_name_hit name) docs
  then Some "similar_name"
  else if existsb (case_insensitive_hit name) docs
  then Some "case_insensitive"
  else None.
End Lookups.

End DuplicateDetector.


(** ** Sample data for the duplicate detector *)

Module DuplicateSamples.
Import RegExp Store DuplicateDetector.

Definition stored_invoice : Invoice :=
  mkInvoice "Invoice.PDF" (Some "/srv/uploads/4821-Invoice.PDF")
    (Some "0cc175b9c0f1b6a831c399e269772661") "google_ads" "completed".

Definition stored_readme : Invoice :=
  mkInvoice "march-2024.pdf" (Some "/srv/uploads/17-march-2024.pdf")
    (Some "92eb5ffee6ae2fec3ad71c777531578f") "meta_ads" "completed".

Definition sample_docs : list Invoice := [stored_invoice; stored_readme].

(** The digest of the candidate: no stored file has it. *)
Definition candidate_digest : string := "4a8a08f09d37b73795649038408b5f33".
Definition sample_hash (filePath : string) : Res string := Ok candidate_digest.

(** A store whose name lookups time out. *)
Definition timeout_error : Error :=
  mkError "MongoNetworkTimeoutError" "connection timed out".
Definition flaky_findOne (q : Query) : Res (option Invoice) :=
  match q with
  | ByFileHash _ => Ok None
  | _ => Throw timeout_error
  end.

(** A stream that cannot be read. *)
Definition unreadable (filePath : string) : Res string :=
  Throw (mkError "Error" ("ENOENT: no such file or directory, open '" +:+ filePath +:+ "'")).

(** The name without its extension, as the engine computes the [replace]. *)
Definition removeExtension_by_engine (name : string) : string :=
  match MiniRegExp.exec (mkRegExp "\.[^/.]+$" false false) name 0 with
  | Some mr => String.substring 0 (index mr) name
  | None => name
  end.

End DuplicateSamples.

(** ** JavaScript numbers *)

Module JSNumber.
Import JSString.

(** [isNaN(x)] for a number [x]. *)
Definition isNaN (x : float) : bool := PrimFloat.is_nan x.

(** A number is truthy unless it is [0], [-0] or [NaN]. *)
Definition truthy_number (x : float) : bool :=
  negb (PrimFloat.is_zero x || PrimFloat.is_nan x).

(** The double nearest to [n * 10^e10], with the sign [neg]: the value of a
    decimal numeral, correctly rounded. *)
Definition of_decimal (neg : bool) (n : Z) (e10 : Z) : float :=
  match n with
  | Zpos p =>
      if (0 <=? e10)%Z then
        SF2Prim (binary_normalize prec emax
                   (if neg then Zneg p * 10 ^ e10 else Zpos p * 10 ^ e10)%Z 0 neg)
      else
        SF2Prim (SFdiv prec emax (S754_finite neg p 0)
                   (S754_finite false (Z.to_pos (10 ^ (- e10))) 0))
  | _ => if neg then (-0)%float else 0%float
  end.

(** [parseFloat(x.toFixed(2))]: [x] rounded to two decimals.  [toFixed(2)]
    writes the integer [n] nearest to [|x| * 100] (the larger one on a tie)
    with two decimals and the sign of [x]; for [|x| >= 1e21], and for the
    infinities, it writes the number itself, which [parseFloat] reads back. *)
Definition round2 (x : float) : float :=
  match Prim2SF x with
  | S754_nan => nan
  | S754_infinity _ => x
  | S754_zero _ => 0%float
  | S754_finite s m e =>
      if (1e21 <=? abs x)%float then x
      else
        let n := if (0 <=? e)%Z then (Zpos m * 2 ^ e * 100)%Z
                 else ((2 * Zpos m * 100 + 2 ^ (- e)) / 2 ^ (- e + 1))%Z in
        of_decimal s n (-2)
  end.

(** *** Reading numbers from strings *)

Definition is_digit (c : ascii) : bool :=
  (48 <=? nat_of_ascii c)%nat && (nat_of_ascii c <=? 57)%nat.

(** White space that [parseFloat], [parseInt] and [trim] skip. *)
Definition is_space (c : ascii) : bool :=
  let n := nat_of_ascii c in
  ((9 <=? n)%nat && (n <=? 13)%nat) || (n =? 32)%nat.

Fixpoint skip_spaces (cs : list ascii) : list ascii :=
  match cs with
  | c :: rest => if is_space c then skip_spaces rest else cs
  | [] => []
  end.

Fixpoint take_digits (cs : list ascii) : list ascii * list ascii :=
  match cs with
  | c :: rest =>
      if is_digit c then
        let '(ds, rest') := take_digits rest in (c :: ds, rest')
      else ([], cs)
  | [] => ([], [])
  end.

Definition digits_value (ds : list ascii) : Z :=
  fold_left (λ acc d, 10 * acc + (Z.of_nat (nat_of_ascii d) - 48))%Z ds 0%Z.

(** The sign in front of a numeral and the text after it. *)
Definition read_sign (cs : list ascii) : bool * list ascii :=
  match cs with
  | "-"%char :: rest => (true, rest)
  | "+"%char :: rest => (false, rest)
  | _ => (false, cs)
  end.

(** The exponent part [e[+-]digits] when the text starts with one. *)
Definition read_exponent (cs : list ascii) : Z :=
  match cs with
  | c :: rest =>
      if Ascii.eqb c "e" || Ascii.eqb c "E" then
        let '(neg, rest') := read_sign rest in
        match take_digits rest' with
        | ([], _) => 0%Z
        | (ds, _) => if neg then (- digits_value ds)%Z else digits_value ds
        end
      else 0%Z
  | [] => 0%Z
  end.

(** [parseFloat(s)]: the longest prefix of [s], white space skipped, that is
    a decimal numeral; [NaN] when there is none. *)
Definition parseFloat (s : string) : float :=
  let '(neg, cs) := read_sign (skip_spaces (list_ascii_of_string s)) in
  if startsWith "Infinity" (string_of_list_ascii cs) then
    if neg then neg_infinity else infinity
  else
    let '(int_part, rest) := take_digits cs in
    let '(frac_part, rest') :=
      match rest with
      | "."%char :: after => take_digits after
      | _ => ([], rest)
      end in
    match (int_part ++ frac_part)%list with
    | [] => nan
    | ds =>
        of_decimal neg (digits_value ds)
          (read_exponent rest' - Z.of_nat (length frac_part))
    end.

(** [parseInt(s)] with no radix, for a text that does not start with [0x]:
    the leading decimal digits. *)
Definition parseInt (s : string) : float :=
  let '(neg, cs) := read_sign (skip_spaces (list_ascii_of_string s)) in
  match take_digits cs with
  | ([], _) => nan
  | (ds, _) => of_decimal neg (digits_value ds) 0
  end.

(** [s.trim()] *)
Definition trim (s : string) : string :=
  string_of_list_ascii
    (rev (skip_spaces (rev (skip_spaces (list_ascii_of_string s))))).

(** [s.replace(/,/g, "")] *)
Fixpoint remove_commas (s : string) : string :=
  match s with
  | EmptyString => EmptyString
  | String c s' =>
      if Ascii.eqb c "," then remove_commas s' else String c (remove_commas s')
  end.

End JSNumber.

(** ** JavaScript values *)

Module JSValue.
Import JSString JSNumber.

(** The values that extracted data is made of.  An object is the list of its
    properties, in the order they were set. *)
Inductive Value :=
| VUndefined
| VNull
| VBool (b : bool)
| VNum (x : float)
| VStr (s : string)
| VDate (t : float)          (* a [Date]; its time value is [NaN] when invalid *)
| VArr (items : list Value)
| VObj (props : list (string * Value)).

Definition truthy (v : Value) : bool :=
  match v with
  | VUndefined | VNull => false
  | VBool b => b
  | VNum x => truthy_number x
  | VStr s => negb (bool_decide (s = EmptyString))
  | VDate _ | VArr _ | VObj _ => true
  end.

(** [a || b] and [a && b] *)
Definition or_ (a b : Value) : Value := if truthy a then a else b.
Definition and_ (a b : Value) : Value := if truthy a then b else a.

Fixpoint lookup_prop (props : list (string * Value)) (k : string) : Value :=
  match props with
  | [] => VUndefined
  | (k', v) :: rest => if bool_decide (k' = k) then v else lookup_prop rest k
  end.

(** [v.k] for a [v] that is not [null] or [undefined] (none of the names the
    program reads is a built-in property). *)
Definition prop (v : Value) (k : string) : Value :=
  match v with
  | VObj props => lookup_prop props k
  | _ => VUndefined
  end.

(** [v.k], which throws a [TypeError] on [null] and [undefined]. *)
Definition get (v : Value) (k : string) : Res Value :=
  match v with
  | VUndefined =>
      Throw (mkError "TypeError"
               ("Cannot read properties of undefined (reading '" +:+ k +:+ "')"))
  | VNull =>
      Throw (mkError "TypeError"
               ("Cannot read properties of null (reading '" +:+ k +:+ "')"))
  | _ => Ok (prop v k)
  end.

Fixpoint update_prop (props : list (string * Value)) (k : string) (x : Value)
    : list (string * Value) :=
  match props with
  | [] => [(k, x)]
  | (k', v) :: rest =>
      if bool_decide (k' = k) then (k', x) :: rest
      else (k', v) :: update_prop rest k x
  end.

(** [v.k = x] on an object [v]. *)
Definition set (v : Value) (k : string) (x : Value) : Value :=
  match v with
  | VObj props => VObj (update_prop props k x)
  | _ => v
  end.

Definition isArray (v : Value) : bool :=
  match v with VArr _ => true | _ => false end.

Definition is_number (v : Value) : bool :=
  match v with VNum _ => true | _ => false end.

Definition is_date (v : Value) : bool :=
  match v with VDate _ => true | _ => false end.

Definition is_string (v : Value) : bool :=
  match v with VStr _ => true | _ => false end.

(** The conversions and parsers of the language that the embedding does not
    spell out. *)
Class Builtins := {
  (** [String(v)] *)
  ToString : Value → string;
  (** [Number(s)] for a string [s] *)
  StringToNumber : string → float;
  (** [Date.parse(v)]: a time value, or [NaN] *)
  Date_parse : Value → float;
  (** the time value of [new Date(v)] *)
  Date_new : Value → float;
  (** a string is parsed by [new Date] as it is by [Date.parse] *)
  Date_new_string : ∀ s, Date_new (VStr s) = Date_parse (VStr s);
  (** [JSON.parse(s)], which throws a [SyntaxError] *)
  JSON_parse : string → Res Value;
  (** [s.toLowerCase()], the case mapping of Unicode, on the UTF-8 bytes of
      the text *)
  String_toLowerCase : string → string;
  (** a text of ASCII characters is mapped as [toLowerCase] maps it *)
  String_toLowerCase_ascii :
    ∀ s, ascii_only s = true → String_toLowerCase s = toLowerCase s;
  (** ASCII characters are mapped in place, whatever stands around them *)
  String_toLowerCase_ascii_part :
    ∀ pre mid post, ascii_only mid = true →
      ∃ pre' post',
        String_toLowerCase (pre +:+ mid +:+ post)
        = pre' +:+ toLowerCase mid +:+ post'
}.

Section Conversions.
Context `{Builtins}.

(** [Number(v)] *)
Definition ToNumber (v : Value) : float :=
  match v with
  | VUndefined => nan
  | VNull => 0%float
  | VBool b => if b then 1%float else 0%float
  | VNum x => x
  | VStr s => StringToNumber s
  | VDate t => t
  | VArr _ | VObj _ => StringToNumber (ToString v)
  end.

(** [parseFloat(v)]: the argument is turned into a string first.  A number
    reads back from its own string, [-0] as [0]; the words [undefined],
    [null], [true] and [false] start with no numeral. *)
Definition parseFloat_value (v : Value) : float :=
  match v with
  | VNum x => if PrimFloat.is_zero x then 0%float else x
  | VStr s => parseFloat s
  | VUndefined | VNull | VBool _ => nan
  | VDate _ | VArr _ | VObj _ => parseFloat (ToString v)
  end.

(** [a - b] and [a / b] *)
Definition js_sub (a b : Value) : Value := VNum (ToNumber a - ToNumber b).
Definition js_div (a b : Value) : Value := VNum (ToNumber a / ToNumber b).

(** [a + b]: concatenation as soon as an operand is a string or an object. *)
Definition concatenates (v : Value) : bool :=
  match v with
  | VStr _ | VDate _ | VArr _ | VObj _ => true
  | _ => false
  end.
Definition js_add (a b : Value) : Value :=
  if concatenates a || concatenates b then VStr (ToString a +:+ ToString b)
  else VNum (ToNumber a + ToNumber b).

End Conversions.

End JSValue.
(** ** PdfProcessor: platform classification *)

Module PlatformClassifier.
Import JSString JSValue.

(** The platform tags of the [Invoice] schema's [platform] enumeration. *)
Definition platform_tags : list string :=
  ["google_ads"; "meta_ads"; "facebook_ads"; "instagram_ads"; "other"].

Section Classifier.
Context `{Builtins}.

(** [detectPlatform(text)], pdfProcessor.js lines 74-90. *)
Definition detectPlatform (text : string) : string :=
  let lowercaseText := String_toLowerCase text in
  if includes lowercaseText "google ads" || includes lowercaseText "google invoice"
  then "google_ads"
  else if includes lowercaseText "meta" &&
          (includes lowercaseText "ads" || includes lowercaseText "advertising")
  then "meta_ads"
  else if includes lowercaseText "facebook ads" then "facebook_ads"
  else if includes lowercaseText "instagram ads" then "instagram_ads"
  else "other".

(** A keyword matches a text whatever the case of its letters: it is part of
    the text once the text is put in lower case. *)
Definition mentions (keyword text : string) : Prop :=
  substring_of keyword (String_toLowerCase text).

(** The rules of the classifier as the specification words them. *)
Definition google_rule (text : string) : Prop :=
  mentions "google ads" text ∨ mentions "google invoice" text.
Definition meta_rule (text : string) : Prop :=
  mentions "meta" text ∧ (mentions "ads" text ∨ mentions "advertising" text).
Definition facebook_rule (text : string) : Prop := mentions "facebook ads" text.
Definition instagram_rule (text : string) : Prop := mentions "instagram ads" text.

Definition google_test (text : string) : bool :=
  includes (String_toLowerCase text) "google ads" ||
  includes (String_toLowerCase text) "google invoice".
Definition meta_test (text : string) : bool :=
  includes (String_toLowerCase text) "meta" &&
  (includes (String_toLowerCase text) "ads" ||
   includes (String_toLowerCase text) "advertising").

End Classifier.

End PlatformClassifier.


(** ** PdfProcessor: field extraction *)

Module PdfProcessor.
Import JSString JSNumber JSValue RegExp.

(** What the generative service answers: the [content] and the [text] of the
    message. *)
Record Response := mkResponse { content : string; text : string }.

(** A pattern literal [/source/i]. *)
Definition re_i (src : string) : RegExp := mkRegExp src true false.

(** The pattern of [extractCampaigns], with the flags [gi]. *)
Definition campaign_regex : RegExp :=
  mkRegExp "(.*?)\s+(\d+)\s+Clicks\s+₹?([\d,]+\.\d{2})" true true.

(** [undefined.trim()] and the like. *)
Definition undefined_method (name : string) : Error :=
  mkError "TypeError"
    ("Cannot read properties of undefined (reading '" +:+ name +:+ "')").

Section Extraction.
Context `{RegExpEngine} `{Builtins}.
(** [this.llm.invoke(messages)]: the messages are made from the platform's
    prompt and the text. *)
Variable llm_invoke : string → string → Res Response.

(** [toNumber(val)], lines 295-298. *)
Definition toNumber (val : Value) : Value :=
  let num := parseFloat_value val in
  if negb (isNaN num) then VNum num else VNull.

(** [extractPattern(text, regex, group)], lines 272-275. *)
Definition extractPattern (text : string) (regex : RegExp) (g : nat) : Res Value :=
  match match_ text regex with
  | Some mr =>
      match group mr g with
      | Some s => Ok (VStr (trim s))
      | None => Throw (undefined_method "trim")
      end
  | None => Ok VNull
  end.

(** [extractMonetaryValue(text, regex, group)], lines 277-284. *)
Definition extractMonetaryValue (text : string) (regex : RegExp) (g : nat)
    : Res Value :=
  match match_ text regex with
  | Some mr =>
      match group mr g with
      | Some s =>
          let value := parseFloat (remove_commas s) in
          Ok (if negb (isNaN value) then VNum value else VNull)
      | None => Throw (undefined_method "replace")
      end
  | None => Ok VNull
  end.

(** [extractNumericValue(text, regex)], lines 286-293. *)
Definition extractNumericValue (text : string) (regex : RegExp) : Res Value :=
  match match_ text regex with
  | Some mr =>
      match group mr 1 with
      | Some s =>
          let value := parseInt (remove_commas s) in
          Ok (if negb (isNaN value) then VNum value else VNull)
      | None => Throw (undefined_method "replace")
      end
  | None => Ok VNull
  end.

(** The object that one match of the campaign pattern gives, lines 259-267. *)
Definition campaign_of_match (mr : MatchResult) : Res Value :=
  match group mr 1 with
  | None => Throw (undefined_method "trim")
  | Some m1 =>
      let campaignName := trim m1 in
      (* parseInt(undefined) is NaN *)
      let clicks := match group mr 2 with
                    | Some m2 => parseInt m2
                    | None => nan
                    end in
      match group mr 3 with
      | None => Throw (undefined_method "replace")
      | Some m3 =>
          let amount := parseFloat (remove_commas m3) in
          Ok (VObj [("campaignName", VStr campaignName);
                    ("clicks", VNum clicks);
                    ("amount", VNum amount);
                    ("cpc", if (0 <? clicks)%float
                            then VNum (round2 (amount / clicks)) else VNull)])
      end
  end.

(** The loop of [extractCampaigns]: [regex.exec(text)] from [lastIndex], until
    it finds nothing.  A match of the campaign pattern is never empty (it
    spans white space, digits and the word Clicks), so [lastIndex] advances;
    with an engine that finds such matches, [fuel] = the length of the text
    + 1 is never used up ([ProcessorFacts.extractCampaigns_fuel]). *)
Fixpoint extractCampaigns_loop (fuel : nat) (text : string) (lastIndex : nat)
    (campaigns : list Value) : Res (list Value) :=
  match fuel with
  | O => Ok campaigns
  | S f =>
      match exec_at campaign_regex text lastIndex with
      | None => Ok campaigns
      | Some mr =>
          campaign ← campaign_of_match mr;
          extractCampaigns_loop f text (index mr + matched_length mr)
            (campaigns ++ [campaign])
      end
  end.

(** [extractCampaigns(text)], lines 254-270. *)
Definition extractCampaigns (text : string) : Res (list Value) :=
  extractCampaigns_loop (S (String.length text)) text 0 [].

(** [basicExtraction(text, platform)], lines 230-252. *)
Definition basicExtraction (text platform : string) : Res Value :=
  if bool_decide (platform = "google_ads") then
    invoiceNumber ← extractPattern text (re_i "Invoice number[:\s]+(\d{6,})") 1;
    invoiceDate ← extractPattern text (re_i "(\d{1,2}\s+\w+\s+20\d{2})") 1;
    accountId ← extractPattern text (re_i "Account ID[:\s]+([\d-]+)") 1;
    accountName ← extractPattern text (re_i "Account:\s+([^\n]+)") 1;
    location ← extractPattern text (re_i "Bill to\s+([\s\S]*?)India") 1;
    subtotal ← extractMonetaryValue text
                 (re_i "Subtotal in INR\s+₹?([\d,]+\.\d{2})") 1;
    taxAmount ← extractMonetaryValue text
                  (re_i "(Integrated GST.*?|IGST.*?)\s+₹?([\d,]+\.\d{2})") 2;
    totalAmount ← extractMonetaryValue text
                    (re_i "Total in INR\s+₹?([\d,]+\.\d{2})") 1;
    campaigns ← extractCampaigns text;
    Ok (VObj [("invoiceNumber", invoiceNumber);
              ("invoiceDate", invoiceDate);
              ("accountId", accountId);
              ("accountName", accountName);
              ("location", location);
              ("subtotal", subtotal);
              ("taxAmount", taxAmount);
              ("totalAmount", totalAmount);
              ("currency", VStr "INR");
              ("campaigns", VArr campaigns)])
  else
    invoiceNumber ← extractPattern text
                      (re_i "invoice\s*(?:number|#)?\s*:?\s*(\w+)") 1;
    totalAmount ← extractMonetaryValue text
                    (re_i "total\s*(?:amount|cost)?\s*:?\s*₹?([\d,]+\.?\d*)") 1;
    clicks ← extractNumericValue text (re_i "clicks?\s*:?\s*([\d,]+)");
    impressions ← extractNumericValue text (re_i "impressions?\s*:?\s*([\d,]+)");
    Ok (VObj [("invoiceNumber", invoiceNumber);
              ("totalAmount", totalAmount);
              ("clicks", clicks);
              ("impressions", impressions)]).

(** [(d && !isNaN(Date.parse(d))) ? new Date(d) : null] *)
Definition validDate (d : Value) : Value :=
  if truthy d && negb (isNaN (Date_parse d)) then VDate (Date_new d) else VNull.

(** The body of the [forEach] over [data.campaigns], lines 202-218. *)
Definition formatCampaign (platform : string) (c : Value) : Res Value :=
  campaignName ← get c "campaignName";
  rawAmount ← get c "amount";
  let amount := toNumber rawAmount in
  let campaign := VObj [("campaignName", or_ campaignName VNull);
                        ("amount", amount)] in
  campaign ←
    (if bool_decide (platform = "google_ads") then
       rawClicks ← get c "clicks";
       let clicks := toNumber rawClicks in
       let campaign := set campaign "clicks" clicks in
       Ok (set campaign "cpc"
             (if truthy (and_ clicks amount)
              then VNum (round2 (ToNumber amount / ToNumber clicks))
              else VNull))
     else Ok campaign);
  if bool_decide (platform = "meta_ads") then
    rawImpressions ← get c "impressions";
    Ok (set campaign "impressions" (toNumber rawImpressions))
  else Ok campaign.

Fixpoint formatCampaigns (platform : string) (items : list Value)
    : Res (list Value) :=
  match items with
  | [] => Ok []
  | c :: rest =>
      campaign ← formatCampaign platform c;
      campaigns ← formatCampaigns platform rest;
      Ok (campaign :: campaigns)
  end.

(** [validateAndFormatData(data, platform, text)], lines 175-228. *)
Definition validateAndFormatData (data : Value) (platform text : string)
    : Res Value :=
  invoiceNumber ← get data "invoiceNumber";
  invoiceDate ← get data "invoiceDate";
  accountId ← get data "accountId";
  accountName ← get data "accountName";
  location ← get data "location";
  billingPeriod ← get data "billingPeriod";
  let period :=
    if truthy billingPeriod then
      [("billingPeriod",
        VObj [("startDate", validDate (prop billingPeriod "startDate"));
              ("endDate", validDate (prop billingPeriod "endDate"))])]
    else [] in
  subtotal ← get data "subtotal";
  taxAmount ← get data "taxAmount";
  totalAmount ← get data "totalAmount";
  currency ← get data "currency";
  rawCampaigns ← get data "campaigns";
  campaigns ←
    match rawCampaigns with
    | VArr (c :: items) => formatCampaigns platform (c :: items)
    | _ =>
        if bool_decide (platform = "google_ads") then extractCampaigns text
        else Ok []
    end;
  Ok (VObj ([("invoiceNumber", or_ invoiceNumber VNull);
             ("invoiceDate", validDate invoiceDate);
             ("accountId", or_ accountId VNull);
             ("accountName", or_ accountName VNull);
             ("location", or_ location VNull)]
            ++ period ++
            [("subtotal", toNumber subtotal);
             ("taxAmount", toNumber taxAmount);
             ("totalAmount", toNumber totalAmount);
             ("currency", or_ currency (VStr "INR"));
             ("campaigns", VArr campaigns)])).

(** [response.content || response.text || "{}"] *)
Definition response_json (response : Response) : string :=
  if negb (bool_decide (content response = EmptyString)) then content response
  else if negb (bool_decide (text response = EmptyString)) then text response
  else "{}".

(** [extractInvoiceData(text, platform)], lines 92-113. *)
Definition extractInvoiceData (text platform : string) : Res Value :=
  try_catch
    (response ← llm_invoke platform text;
     extractedData ←
       try_catch (JSON_parse (response_json response))
         (λ _, basicExtraction text platform);
     validateAndFormatData extractedData platform text)
    (λ error, basicExtraction text platform).

End Extraction.

End PdfProcessor.

(** ** PdfController: reconciling the derived amounts *)

Module PostProcess.
Import JSNumber JSValue.

Section PostProcess.
Context `{Builtins}.

(** [parseFloat(v.toFixed(2))]; only a number has [toFixed]. *)
Definition toFixed2_parsed (v : Value) : Res Value :=
  match v with
  | VNum x => Ok (VNum (round2 x))
  | _ => Throw (mkError "TypeError" "toFixed is not a function")
  end.

(** Lines 535-537: [if (!data.subtotal && data.totalAmount && data.taxAmount)]
    [data.subtotal = parseFloat((data.totalAmount - data.taxAmount).toFixed(2))]. *)
Definition deriveSubtotal (data : Value) : Res Value :=
  if negb (truthy (prop data "subtotal")) && truthy (prop data "totalAmount")
     && truthy (prop data "taxAmount")
  then
    subtotal ← toFixed2_parsed (js_sub (prop data "totalAmount") (prop data "taxAmount"));
    Ok (set data "subtotal" subtotal)
  else Ok data.

(** Lines 539-541: [if (!data.totalAmount && data.subtotal && data.taxAmount)]
    [data.totalAmount = parseFloat((data.subtotal + data.taxAmount).toFixed(2))]. *)
Definition deriveTotal (data : Value) : Res Value :=
  if negb (truthy (prop data "totalAmount")) && truthy (prop data "subtotal")
     && truthy (prop data "taxAmount")
  then
    total ← toFixed2_parsed (js_add (prop data "subtotal") (prop data "taxAmount"));
    Ok (set data "totalAmount" total)
  else Ok data.

(** [data.campaigns.reduce((sum, c) => sum + (c.amount || 0), 0)] *)
Fixpoint sumOfAmounts (campaigns : list Value) (sum : Value) : Res Value :=
  match campaigns with
  | [] => Ok sum
  | c :: rest =>
      amount ← get c "amount";
      sumOfAmounts rest (js_add sum (or_ amount (VNum 0)))
  end.

(** [v === 0] *)
Definition is_zero_number (v : Value) : bool :=
  match v with
  | VNum x => PrimFloat.is_zero x
  | _ => false
  end.

(** Lines 543-545: [if ((!data.subtotal || data.subtotal === 0) &&]
    [Array.isArray(data.campaigns) && data.campaigns.length > 0)]. *)
Definition subtotalFromCampaigns (data : Value) : Res Value :=
  if negb (truthy (prop data "subtotal")) || is_zero_number (prop data "subtotal")
  then
    match prop data "campaigns" with
    | VArr (c :: items) =>
        subtotal ← sumOfAmounts (c :: items) (VNum 0);
        Ok (set data "subtotal" subtotal)
    | _ => Ok data
    end
  else Ok data.

(** The post-processing of one item's extracted data, lines 532-547. *)
Definition postProcess (data : Value) : Res Value :=
  data ← deriveSubtotal data;
  data ← deriveTotal data;
  subtotalFromCampaigns data.

End PostProcess.

(** *** The first derivation as the specification words it

    The subtotal is absent when it is [null] or missing; an amount is present
    when the field holds a number. *)
Definition spec_deriveSubtotal (data : Value) : Value :=
  match prop data "subtotal", prop data "totalAmount", prop data "taxAmount" with
  | (VNull | VUndefined), VNum total, VNum tax =>
      set data "subtotal" (VNum (round2 (total - tax)))
  | _, _, _ => data
  end.

End PostProcess.

(** ** Sample built-ins and inputs for the extractor *)

Module ProcessorSamples.
Import JSString JSNumber JSValue RegExp PdfProcessor.

(** The time value of a date written [YYYY-MM-DD]; [NaN] for any other text
    (the examples parse no other date that is valid). *)
Definition days_from_civil (y m d : Z) : Z :=
  let y' := if (m <=? 2)%Z then (y - 1)%Z else y in
  let era := (y' / 400)%Z in
  let yoe := (y' - era * 400)%Z in
  let mp := ((m + 9) mod 12)%Z in
  let doy := ((153 * mp + 2) / 5 + d - 1)%Z in
  let doe := (yoe * 365 + yoe / 4 - yoe / 100 + doy)%Z in
  (era * 146097 + doe - 719468)%Z.

Definition iso_time_value (s : string) : float :=
  match list_ascii_of_string s with
  | [y1; y2; y3; y4; "-"; m1; m2; "-"; d1; d2]%char =>
      if forallb is_digit [y1; y2; y3; y4; m1; m2; d1; d2] then
        let y := digits_value [y1; y2; y3; y4] in
        let m := digits_value [m1; m2] in
        let d := digits_value [d1; d2] in
        if ((1 <=? m) && (m <=? 12) && (1 <=? d) && (d <=? 31))%Z then
          let ms := (days_from_civil y m d * 86400000)%Z in
          of_decimal (ms <? 0)%Z (Z.abs ms) 0
        else nan
      else nan
  | _ => nan
  end.

Fixpoint sample_ToString (v : Value) : string :=
  match v with
  | VUndefined => "undefined"
  | VNull => "null"
  | VBool b => if b then "true" else "false"
  | VNum x => if isNaN x then "NaN" else "0"
  | VStr s => s
  | VDate _ => "Invalid Date"
  | VArr [] => EmptyString
  | VArr (x :: _) => sample_ToString x
  | VObj _ => "[object Object]"
  end.

Definition sample_JSON_parse (s : string) : Res Value :=
  if bool_decide (s = "{}") then Ok (VObj [])
  else if bool_decide (s = "null") then Ok VNull
  else Throw (mkError "SyntaxError" "Unexpected token in JSON at position 0").

(** A case mapping for texts of ASCII characters and the Kelvin sign
    (U+212A, the bytes E2 84 AA), which Unicode maps to the letter k. *)
Definition is_kelvin_sign (a b c : ascii) : bool :=
  Ascii.eqb a (ascii_of_nat 226) && Ascii.eqb b (ascii_of_nat 132)
  && Ascii.eqb c (ascii_of_nat 170).

Fixpoint sample_toLowerCase (s : string) : string :=
  match s with
  | EmptyString => EmptyString
  | String a s1 =>
      match s1 with
      | String b (String c s3) =>
          if is_kelvin_sign a b c then String "k" (sample_toLowerCase s3)
          else String (lower_char a) (sample_toLowerCase s1)
      | _ => String (lower_char a) (sample_toLowerCase s1)
      end
  end.

Lemma is_kelvin_sign_ascii (a b c : ascii) :
  is_ascii_char a = true ∨ is_ascii_char b = true ∨ is_ascii_char c = true →
  is_kelvin_sign a b c = false.
Proof.
  unfold is_kelvin_sign.
  destruct (Ascii.eqb_spec a (ascii_of_nat 226)) as [->|]; [|done].
  destruct (Ascii.eqb_spec b (ascii_of_nat 132)) as [->|]; [|done].
  destruct (Ascii.eqb_spec c (ascii_of_nat 170)) as [->|]; [|done].
  intros [?|[?|?]]; discriminate.
Qed.

Lemma sample_toLowerCase_head (a : ascii) (s : string) :
  is_ascii_char a = true →
  sample_toLowerCase (String a s) = String (lower_char a) (sample_toLowerCase s).
Proof.
  intros Ha. destruct s as [|b [|c s]]; try done.
  cbn [sample_toLowerCase]. rewrite is_kelvin_sign_ascii by by left. done.
Qed.

Lemma sample_toLowerCase_ascii_app (mid post : string) :
  ascii_only mid = true →
  sample_toLowerCase (mid +:+ post) = toLowerCase mid +:+ sample_toLowerCase post.
Proof.
  induction mid as [|a mid IH]; [done|]. intros [Ha Hmid]%andb_true_iff.
  change (String a mid +:+ post) with (String a (mid +:+ post)).
  rewrite sample_toLowerCase_head by done. simpl. by rewrite IH.
Qed.

Lemma sample_toLowerCase_ascii (s : string) :
  ascii_only s = true → sample_toLowerCase s = toLowerCase s.
Proof.
  induction s as [|a s IH]; [done|]. intros [Ha Hs]%andb_true_iff.
  rewrite sample_toLowerCase_head by done. simpl. by rewrite IH.
Qed.

Lemma sample_toLowerCase_before (n : nat) (pre : string) (m : ascii) (rest : string) :
  String.length pre ≤ n → is_ascii_char m = true →
  ∃ pre', sample_toLowerCase (pre +:+ String m rest)
          = pre' +:+ sample_toLowerCase (String m rest).
Proof.
  revert pre. induction n as [|n IH]; intros pre Hn Hm.
  { destruct pre; [by exists EmptyString | simpl in Hn; lia]. }
  destruct pre as [|a [|b [|c pre]]].
  - by exists EmptyString.
  - exists (String (lower_char a) EmptyString).
    change (String a EmptyString +:+ String m rest) with (String a (String m rest)).
    destruct rest as [|c rest]; [done|].
    cbn [sample_toLowerCase]. rewrite is_kelvin_sign_ascii by (right; by left). done.
  - destruct (IH (String b EmptyString)) as [pre' Hpre']; [simpl in *; lia|done|].
    exists (String (lower_char a) pre').
    change (String a (String b EmptyString) +:+ String m rest)
      with (String a (String b (String m rest))).
    change (String b EmptyString +:+ String m rest)
      with (String b (String m rest)) in Hpre'.
    cbn [sample_toLowerCase] in *.
    rewrite is_kelvin_sign_ascii by (right; by right).
    simpl. f_equal. exact Hpre'.
  - change (String a (String b (String c pre)) +:+ String m rest)
      with (String a (String b (String c (pre +:+ String m rest)))).
    cbn [sample_toLowerCase].
    destruct (is_kelvin_sign a b c).
    + destruct (IH pre) as [pre' Hpre']; [simpl in *; lia|done|].
      exists (String "k" pre'). simpl. f_equal. exact Hpre'.
    + destruct (IH (String b (String c pre))) as [pre' Hpre'];
        [simpl in *; lia|done|].
      exists (String (lower_char a) pre'). simpl. f_equal. exact Hpre'.
Qed.

Lemma sample_toLowerCase_ascii_part (pre mid post : string) :
  ascii_only mid = true →
  ∃ pre' post',
    sample_toLowerCase (pre +:+ mid +:+ post) = pre' +:+ toLowerCase mid +:+ post'.
Proof.
  intros Hmid. destruct mid as [|m mid].
  - by exists EmptyString, (sample_toLowerCase (pre +:+ post)).
  - apply andb_true_iff in Hmid as [Hm Hmid].
    destruct (sample_toLowerCase_before (String.length pre) pre m (mid +:+ post))
      as [pre' Hpre']; [done..|].
    exists pre', (sample_toLowerCase post).
    change (String m mid +:+ post) with (String m (mid +:+ post)).
    rewrite Hpre'. f_equal.
    change (String m (mid +:+ post)) with (String m mid +:+ post).
    apply sample_toLowerCase_ascii_app. simpl. by rewrite Hm.
Qed.

(** Built-ins that cover the values of the examples. *)
#[export] Instance sample_builtins : Builtins := {|
  ToString := sample_ToString;
  StringToNumber := parseFloat;
  Date_parse v := match v with VStr s => iso_time_value s | _ => nan end;
  Date_new v := match v with
                | VStr s => iso_time_value s
                | VNum x => x
                | _ => nan
                end;
  Date_new_string s := eq_refl;
  JSON_parse := sample_JSON_parse;
  String_toLowerCase := sample_toLowerCase;
  String_toLowerCase_ascii := sample_toLowerCase_ascii;
  String_toLowerCase_ascii_part := sample_toLowerCase_ascii_part
|}.

(** A text whose only capital letter is the Kelvin sign. *)
Definition kelvin_sign : string :=
  String (ascii_of_nat 226) (String (ascii_of_nat 132)
    (String (ascii_of_nat 170) EmptyString)).
Definition facebook_kelvin_text : string :=
  "Receipt of your Faceboo" +:+ kelvin_sign +:+ " Ads account".

(** The text of an invoice whose date line names no month. *)
Definition undated_invoice_text : string :=
  "Google Ads" +:+ String "010"
  ("Invoice number: 5123456789" +:+ String "010"
  ("31 Foo 2024" +:+ String "010"
  ("Account: Acme Retail" +:+ String "010"
  ("Brand search 12 Clicks ₹120.00" +:+ String "010"
  ("Total in INR ₹1,234.56" +:+ String "010" EmptyString))))).

(** A service call that fails: a timeout, a quota error, no network. *)
Definition failing_llm (platform text : string) : Res Response :=
  Throw (mkError "Error" "Request timed out.").

(** A service that answers with prose, which is not JSON. *)
Definition chatty_llm (platform text : string) : Res Response :=
  Ok (mkResponse "I could not find an invoice in this text." EmptyString).

(** A campaign with a negative click count, as the service may write it. *)
Definition negative_clicks_campaign : Value :=
  VObj [("campaignName", VStr "Brand search");
        ("clicks", VNum (-5));
        ("cpc", VNum 2);
        ("amount", VNum 10)].

(** An invoice on which no tax is charged and whose subtotal is missing. *)
Definition untaxed_data : Value :=
  VObj [("invoiceNumber", VStr "5123456789");
        ("subtotal", VNull);
        ("taxAmount", VNum 0);
        ("totalAmount", VNum 1000);
        ("currency", VStr "INR");
        ("campaigns", VArr [])].

Definition taxed_data : Value :=
  VObj [("invoiceNumber", VStr "5123456789");
        ("subtotal", VNull);
        ("taxAmount", VNum 180);
        ("totalAmount", VNum 1000);
        ("currency", VStr "INR");
        ("campaigns", VArr [])].

End ProcessorSamples.

(** ** Paths and the file system *)

Module Path.
Import JSString.

Definition not_slash (c : ascii) : bool := negb (Ascii.eqb c "/").
Definition not_dot (c : ascii) : bool := negb (Ascii.eqb c ".").

Fixpoint drop_while (f : ascii → bool) (cs : list ascii) : list ascii :=
  match cs with
  | c :: rest => if f c then drop_while f rest else cs
  | [] => []
  end.

Fixpoint take_while (f : ascii → bool) (cs : list ascii) : list ascii :=
  match cs with
  | c :: rest => if f c then c :: take_while f rest else []
  | [] => []
  end.

(** The last portion of a path, trailing slashes ignored, read from its
    end. *)
Definition last_portion_rev (p : string) : list ascii :=
  take_while not_slash (drop_while (λ c, Ascii.eqb c "/") (rev (list_ascii_of_string p))).

(** [path.basename(p)] *)
Definition basename (p : string) : string :=
  string_of_list_ascii (rev (last_portion_rev p)).

(** [path.extname(p)]: from the last dot of the last portion to its end;
    empty when the portion has no dot, when its only dot is its first
    character, and for the portion [..]. *)
Definition extname (p : string) : string :=
  let portion := last_portion_rev p in
  let ext := take_while not_dot portion in
  match drop_while not_dot portion with
  | [] => EmptyString                       (* no dot *)
  | _ :: [] => EmptyString                  (* the dot starts the portion *)
  | _ :: _ =>
      if bool_decide (portion = ["."; "."]%char) then EmptyString
      else string_of_list_ascii (rev (ext ++ ["."%char]))
  end.

(** [path.dirname(p)], for a path with a directory part. *)
Definition dirname (p : string) : string :=
  string_of_list_ascii
    (rev (drop_while (λ c, Ascii.eqb c "/")
            (drop_while not_slash
               (drop_while (λ c, Ascii.eqb c "/") (rev (list_ascii_of_string p)))))).

(** [path.join(dir, name)] for a plain name. *)
Definition join (dir name : string) : string := dir +:+ "/" +:+ name.

End Path.

Module FileSystem.

(** The files that exist, by path. *)
Definition FS := gset string.

(** [fs.existsSync(p)] *)
Definition existsSync (fs : FS) (p : string) : bool := bool_decide (p ∈ fs).

(** [fs.unlinkSync(p)]: removes the file, or throws when there is none. *)
Definition unlinkSync (fs : FS) (p : string) : Res unit * FS :=
  if bool_decide (p ∈ fs) then (Ok (), fs ∖ {[p]})
  else (Throw (mkError "Error"
                 ("ENOENT: no such file or directory, unlink '" +:+ p +:+ "'")),
        fs).

End FileSystem.

(** ** PdfController: expanding archives *)

Module ArchiveExpander.
Import JSString JSValue Path FileSystem.

(** An entry of an archive as the reader lists it: its path in the archive,
    its type ([File] or [Directory]), its size, and whether its stream can be
    written out ([Some error] when it cannot). *)
Record Entry := mkEntry {
  entry_path : string;
  entry_type : string;
  uncompressedSize : nat;
  stream_error : option Error
}.

(** What [extractPdfsFromZip] returns for one entry. *)
Record Extracted := mkExtracted {
  ex_path : string;
  ex_originalName : string;
  ex_size : nat
}.

(** An uploaded file. *)
Record File := mkFile {
  path : string;
  originalname : string;
  mimetype : string;
  size : nat;
  isTemporary : bool
}.

(** Decimal digits of a number, for the random prefix of a stored name. *)
Definition digits (n : nat) : string :=
  NilZero.string_of_uint (Nat.to_uint n).

(** The condition of line 201. *)
Definition is_pdf_entry (e : Entry) : bool :=
  bool_decide (entry_type e = "File") &&
  bool_decide (toLowerCase (extname (entry_path e)) = ".pdf").

Section Expansion.
(** [unzipper.Open.file(p)]: the entries of the archive, or the error of an
    archive that cannot be read. *)
Variable zip_open : string → Res (list Entry).
(** [Math.floor(Math.random() * 10000)], by the number of draws so far. *)
Variable random : nat → nat.

(** The loop over [directory.files], lines 200-218; [draws] counts the
    random prefixes drawn. *)
Fixpoint extractEntries (entries : list Entry) (uploadDir : string)
    (draws : nat) (extractedFiles : list Extracted) (fs : FS)
    : Res (list Extracted) * FS * nat :=
  match entries with
  | [] => (Ok extractedFiles, fs, draws)
  | e :: rest =>
      if is_pdf_entry e then
        let fileName := basename (entry_path e) in
        let extractedPath :=
          join uploadDir (digits (random draws) +:+ "-" +:+ fileName) in
        (* the write stream creates the file, then the entry is piped in *)
        let fs := fs ∪ {[extractedPath]} in
        match stream_error e with
        | Some err => (Throw err, fs, S draws)
        | None =>
            extractEntries rest uploadDir (S draws)
              (extractedFiles ++ [mkExtracted extractedPath fileName (uncompressedSize e)])
              fs
        end
      else extractEntries rest uploadDir draws extractedFiles fs
  end.

(** [extractPdfsFromZip(zipFilePath)], lines 193-228. *)
Definition extractPdfsFromZip (zipFilePath : string) (draws : nat) (fs : FS)
    : Res (list Extracted) * FS * nat :=
  let uploadDir := dirname zipFilePath in
  match zip_open zipFilePath with
  | Throw err => (Throw err, fs, draws)
  | Ok entries =>
      match extractEntries entries uploadDir draws [] fs with
      | (Throw err, fs, draws) => (Throw err, fs, draws)
      | (Ok extractedFiles, fs, draws) =>
          (* Delete the original ZIP file *)
          match unlinkSync fs zipFilePath with
          | (Throw err, fs) => (Throw err, fs, draws)
          | (Ok _, fs) => (Ok extractedFiles, fs, draws)
          end
      end
  end.

(** Lines 274-279. *)
Definition isZipFile (file : File) : bool :=
  let fileExtension := toLowerCase (extname (originalname file)) in
  bool_decide (fileExtension = ".zip") ||
  bool_decide (mimetype file = "application/zip") ||
  bool_decide (mimetype file = "application/x-zip-compressed") ||
  bool_decide (mimetype file = "application/x-zip") ||
  (bool_decide (mimetype file = "application/octet-stream") &&
   bool_decide (fileExtension = ".zip")).

(** The entry that a failed expansion adds to [results], lines 330-334. *)
Definition zip_failure (file : File) (error : Error) : Value :=
  VObj [("fileName", VStr (originalname file));
        ("status", VStr "error");
        ("error", VStr ("Failed to extract ZIP file: " +:+ message error))].

(** What the first loop of [uploadPdfs] has built so far. *)
Record Expansion := mkExpansion {
  allFiles : list File;
  results : list Value;
  files_on_disk : FS;
  draws : nat
}.

(** One archive, lines 282-345: expand it and remove it, or, when the
    expansion throws, remove it and record the failure. *)
Definition expandArchive (file : File) (x : Expansion) : Expansion :=
  match extractPdfsFromZip (path file) (draws x) (files_on_disk x) with
  | (Ok extractedPdfs, fs, draws) =>
      let allFiles :=
        allFiles x ++
        map (λ pdf, mkFile (ex_path pdf) (ex_originalName pdf)
                      "application/pdf" (ex_size pdf) true) extractedPdfs in
      (* Clean up the original ZIP file *)
      let fs := if existsSync fs (path file)
                then (unlinkSync fs (path file)).2 else fs in
      mkExpansion allFiles (results x) fs draws
  | (Throw error, fs, draws) =>
      (* Clean up the ZIP file if extraction failed *)
      let fs := if existsSync fs (path file)
                then (unlinkSync fs (path file)).2 else fs in
      mkExpansion (allFiles x) (results x ++ [zip_failure file error]) fs draws
  end.

(** The first loop of [uploadPdfs], lines 271-352, for a run that is not
    cancelled while it expands. *)
Definition expandFile (x : Expansion) (file : File) : Expansion :=
  if isZipFile file then expandArchive file x
  else mkExpansion (allFiles x ++ [mkFile (path file) (originalname file)
                                     (mimetype file) (size file) true])
         (results x) (files_on_disk x) (draws x).

Definition expandArchives (files : list File) (fs : FS) : Expansion :=
  fold_left expandFile files (mkExpansion [] [] fs 0).

End Expansion.

End ArchiveExpander.

(** ** PdfController: the batch coordinator

    [uploadPdfs] after the archives are expanded, as a machine that takes one
    step per event of the event loop.  Between two [await]s the program runs
    without interruption, so a step runs the code from one [await] to the
    next.  The work of an item (duplicate check, text extraction, field
    extraction, storage) is summed up in the outcome with which it
    settles. *)

Module BatchCoordinator.
Import JSValue ArchiveExpander PostProcess.

(** Line 239. *)
Definition batchSize : nat := 15.

(** [global.uploadStates[uploadId]] *)
Record UploadState := mkUploadState {
  isPaused : bool;
  isCancelled : bool;
  state_processedCount : nat;
  state_totalFiles : nat
}.

(** [global.uploadStates[uploadId]?.isCancelled] and [?.isPaused]: false
    once the state is deleted. *)
Definition cancelled (st : option UploadState) : bool :=
  match st with Some u => isCancelled u | None => false end.
Definition paused (st : option UploadState) : bool :=
  match st with Some u => isPaused u | None => false end.

(** How the processing of an item ends: it is a duplicate, it is processed
    and stored, or one of its stages throws. *)
Inductive ItemOutcome :=
| Duplicate (reason : string) (existingFile : Value)
| Completed (platform : string) (extractedData : Value) (pdfUrl : string)
| Failed (error : Error).

(** An item of the window in flight: in its own pause loop, being processed,
    or settled with its entry of [batchResults]. *)
Inductive ItemState :=
| Sleeping
| Processing
| Settled (r : Value).

Definition error_value (e : Error) : Value :=
  VObj [("name", VStr (err_name e)); ("message", VStr (message e))].

(** The entries of [Promise.allSettled]. *)
Definition fulfilled (value : Value) : Value :=
  VObj [("status", VStr "fulfilled"); ("value", value)].
Definition rejected (e : Error) : Value :=
  VObj [("status", VStr "rejected"); ("reason", error_value e)].

(** [v === s] for a string [s] *)
Definition is_str (v : Value) (s : string) : bool :=
  match v with VStr s' => bool_decide (s' = s) | _ => false end.

(** What [io.emit] sends (the percentage of a progress event is left out). *)
Inductive Notification :=
| Progress (fileName : string) (status : string)
| TotalCount (totalFiles : nat)
| Complete (successful failed duplicates totalFiles : nat)
| SignalCancelled
| SignalPaused
| SignalResumed.

(** What the request ends with. *)
Inductive HttpResponse :=
| Json (successful failed duplicates : nat)
       (duplicateFiles : list Value) (results : list Value)
| Status (code : nat) (error : string).

(** Where the coordinator stands: about to test the loop condition, asleep
    in its pause loop, waiting for the window to settle, asleep between two
    windows, done with a response, or stopped by an exception that nothing
    catches. *)
Inductive PC :=
| LoopHead
| PauseLoop
| AwaitingWindow
| BetweenWindows
| Responded (r : HttpResponse)
| Unhandled (e : Error).

Record Run := mkRun {
  allFiles : list File;
  totalFiles : nat;
  i : nat;
  results : list Value;
  duplicates : list Value;
  processedCount : nat;
  uploadState : option UploadState;
  pc : PC;
  window : list (File * ItemState);
  log : list Notification
}.

Definition with_pc (s : Run) (p : PC) : Run :=
  mkRun (allFiles s) (totalFiles s) (i s) (results s) (duplicates s)
    (processedCount s) (uploadState s) p (window s) (log s).

Definition emit (s : Run) (n : Notification) : Run :=
  mkRun (allFiles s) (totalFiles s) (i s) (results s) (duplicates s)
    (processedCount s) (uploadState s) (pc s) (window s) (log s ++ [n]).

Definition with_window (s : Run) (w : list (File * ItemState)) : Run :=
  mkRun (allFiles s) (totalFiles s) (i s) (results s) (duplicates s)
    (processedCount s) (uploadState s) (pc s) w (log s).

(** [processedCount++; global.uploadStates[uploadId].processedCount = processedCount] *)
Definition count_processed (s : Run) : Run :=
  mkRun (allFiles s) (totalFiles s) (i s) (results s) (duplicates s)
    (S (processedCount s))
    ((λ u, mkUploadState (isPaused u) (isCancelled u) (S (processedCount s))
             (state_totalFiles u)) <$> uploadState s)
    (pc s) (window s) (log s).

Definition missing_state : Error :=
  mkError "TypeError" "Cannot set properties of undefined (setting 'processedCount')".

(** *** The items of a window *)

(** The [catch] block of an item, lines 494-521. *)
Definition item_fails (s : Run) (file : File) (e : Error) : Run * ItemState :=
  match uploadState s with
  | Some _ =>
      (emit (count_processed s) (Progress (originalname file) "error"),
       Settled (rejected e))
  | None => (count_processed s, Settled (rejected missing_state))
  end.

(** Lines 396-408: the notification, then the item waits for its work. *)
Definition item_begins (s : Run) (file : File) : Run * ItemState :=
  (emit s (Progress (originalname file) "processing"), Processing).

(** An item from the start of its callback to its first [await], lines
    382-408. *)
Definition item_starts (s : Run) (file : File) : Run * ItemState :=
  if cancelled (uploadState s) then
    item_fails s file (mkError "Error" "Upload cancelled")
  else if paused (uploadState s) && negb (cancelled (uploadState s)) then
    (s, Sleeping)
  else item_begins s file.

(** An item whose timer fires in its pause loop, lines 388-394. *)
Definition item_wakes (s : Run) (file : File) : Run * ItemState :=
  if paused (uploadState s) && negb (cancelled (uploadState s)) then (s, Sleeping)
  else if cancelled (uploadState s) then
    item_fails s file (mkError "Error" "Upload cancelled")
  else item_begins s file.

(** An item whose work ends, lines 410-521. *)
Definition item_settles (s : Run) (file : File) (o : ItemOutcome)
    : Run * ItemState :=
  match o with
  | Failed e => item_fails s file e
  | Duplicate reason existingFile =>
      match uploadState s with
      | Some _ =>
          (emit (count_processed s) (Progress (originalname file) "duplicate"),
           Settled (fulfilled
                      (VObj [("fileName", VStr (originalname file));
                             ("status", VStr "duplicate");
                             ("reason", VStr reason);
                             ("existingFile", existingFile)])))
      | None => item_fails (count_processed s) file missing_state
      end
  | Completed platform extractedData pdfUrl =>
      match uploadState s with
      | Some _ =>
          (emit (count_processed s) (Progress (originalname file) "completed"),
           Settled (fulfilled
                      (VObj [("fileName", VStr (originalname file));
                             ("platform", VStr platform);
                             ("extractedData", extractedData);
                             ("status", VStr "completed");
                             ("pdfUrl", VStr pdfUrl)])))
      | None => item_fails (count_processed s) file missing_state
      end
  end.

Definition set_item (s : Run) (k : nat) (file : File) (it : ItemState) : Run :=
  with_window s (<[k := (file, it)]> (window s)).

(** *** The summary *)

Definition is_fulfilled (r : Value) : bool := is_str (prop r "status") "fulfilled".
Definition is_rejected (r : Value) : bool := is_str (prop r "status") "rejected".
Definition is_duplicate (r : Value) : bool :=
  is_str (prop (prop r "value") "status") "duplicate".

(** Line 560 and line 561. *)
Definition count_successful (results : list Value) : nat :=
  length (List.filter (λ r, is_fulfilled r && negb (is_duplicate r)) results).
Definition count_failed (results : list Value) : nat :=
  length (List.filter is_rejected results).

(** Lines 586-590: [r.status === 'fulfilled' ? r.value : { error: r.reason.message }]. *)
Definition response_entry (r : Value) : Res Value :=
  if is_fulfilled r then Ok (prop r "value")
  else
    message ← get (prop r "reason") "message";
    Ok (VObj [("error", message)]).

Fixpoint response_entries (results : list Value) : Res (list Value) :=
  match results with
  | [] => Ok []
  | r :: rest =>
      entry ← response_entry r;
      entries ← response_entries rest;
      Ok (entry :: entries)
  end.

(** The [catch] of [uploadPdfs], lines 593-611: it reads [uploadId], a
    constant of the [try] block, and so throws in its turn. *)
Definition outer_catch (s : Run) (error : Error) : Run :=
  with_pc s (Unhandled (mkError "ReferenceError" "uploadId is not defined")).

(** Lines 560-591. *)
Definition summary (s : Run) : Run :=
  let successful := count_successful (results s) in
  let failed := count_failed (results s) in
  let duplicateCount := length (duplicates s) in
  (* delete global.uploadStates[uploadId] *)
  let s := mkRun (allFiles s) (totalFiles s) (i s) (results s) (duplicates s)
             (processedCount s) None (pc s) (window s) (log s) in
  let s := emit s (Complete successful failed duplicateCount (totalFiles s)) in
  match response_entries (results s) with
  | Ok entries =>
      with_pc s (Responded (Json successful failed duplicateCount (duplicates s) entries))
  | Throw error => outer_catch s error
  end.

(** *** The loop over the windows *)

Section Coordinator.
Context `{Builtins}.

(** The body of [batchResults.forEach], lines 527-550: the entry as it is
    left in [batchResults], and the value pushed to [duplicates] if any. *)
Definition process_result (r : Value) : Res (Value * list Value) :=
  if is_fulfilled r then
    if is_duplicate r then Ok (r, [prop r "value"])
    else if truthy (prop (prop r "value") "extractedData") then
      data ← postProcess (prop (prop r "value") "extractedData");
      Ok (set r "value" (set (prop r "value") "extractedData" data), [])
    else Ok (r, [])
  else Ok (r, []).

Fixpoint process_results (batchResults : list Value)
    : Res (list Value * list Value) :=
  match batchResults with
  | [] => Ok ([], [])
  | r :: rest =>
      '(r', dups) ← process_result r;
      '(rest', dups') ← process_results rest;
      Ok (r' :: rest', dups ++ dups')
  end.

Definition settled_entry (it : File * ItemState) : option Value :=
  match it.2 with Settled r => Some r | _ => None end.

(** The entries of the window when every item has settled. *)
Definition batchResults_of (w : list (File * ItemState)) : option (list Value) :=
  mapM settled_entry w.

(** The items of a window start one after the other, lines 379-381. *)
Fixpoint start_items (s : Run) (batch : list File) : Run :=
  match batch with
  | [] => s
  | file :: rest =>
      let '(s, it) := item_starts s file in
      start_items (with_window s (window s ++ [(file, it)])) rest
  end.

(** Lines 379-524: the window is cut out and its items are started; the
    coordinator then waits for all of them to settle. *)
Definition dispatch (s : Run) : Run :=
  let batch := take batchSize (drop (i s) (allFiles s)) in
  with_pc (start_items (with_window s []) batch) AwaitingWindow.

(** Line 377. *)
Definition after_pause (s : Run) : Run :=
  if cancelled (uploadState s) then summary s else dispatch s.

(** Lines 373-375: one test of the pause loop. *)
Definition pause_check (s : Run) : Run :=
  if paused (uploadState s) && negb (cancelled (uploadState s))
  then with_pc s PauseLoop
  else after_pause s.

(** Line 371: the loop condition. *)
Definition enter_loop (s : Run) : Run :=
  if (i s <? length (allFiles s))%nat && negb (cancelled (uploadState s))
  then pause_check s
  else summary s.

(** [i += batchSize], then the loop condition. *)
Definition next_window (s : Run) : Run :=
  enter_loop
    (mkRun (allFiles s) (totalFiles s) (i s + batchSize) (results s) (duplicates s)
       (processedCount s) (uploadState s) (pc s) (window s) (log s)).

(** Lines 524-557, once every item of the window has settled. *)
Definition window_done (s : Run) (batchResults : list Value) : Run :=
  match process_results batchResults with
  | Throw error => outer_catch s error
  | Ok (batchResults, dups) =>
      let s := mkRun (allFiles s) (totalFiles s) (i s)
                 (results s ++ batchResults) (duplicates s ++ dups)
                 (processedCount s) (uploadState s) (pc s) [] (log s) in
      if (i s + batchSize <? length (allFiles s))%nat
         && negb (cancelled (uploadState s))
      then with_pc s BetweenWindows
      else next_window s
  end.

(** *** Events *)

Inductive Event :=
| Timer                                   (* the coordinator is resumed *)
| ItemTimer (k : nat)                     (* the pause timer of item [k] fires *)
| ItemSettles (k : nat) (o : ItemOutcome) (* the work of item [k] ends *)
| CancelRequest                           (* [cancelUpload] for this run *)
| PauseRequest                            (* [pauseUpload] *)
| ResumeRequest.                          (* [resumeUpload] *)

Definition set_flags (s : Run) (f : UploadState → UploadState) (n : Notification)
    : Run :=
  match uploadState s with
  | Some u =>
      emit (mkRun (allFiles s) (totalFiles s) (i s) (results s) (duplicates s)
              (processedCount s) (Some (f u)) (pc s) (window s) (log s)) n
  | None => s
  end.

Definition step (s : Run) (ev : Event) : Run :=
  match ev with
  | Timer =>
      match pc s with
      | LoopHead => enter_loop s
      | PauseLoop => pause_check s
      | AwaitingWindow =>
          match batchResults_of (window s) with
          | Some batchResults => window_done s batchResults
          | None => s
          end
      | BetweenWindows => next_window s
      | Responded _ | Unhandled _ => s
      end
  | ItemTimer k =>
      match window s !! k with
      | Some (file, Sleeping) =>
          let '(s, it) := item_wakes s file in set_item s k file it
      | _ => s
      end
  | ItemSettles k o =>
      match window s !! k with
      | Some (file, Processing) =>
          let '(s, it) := item_settles s file o in set_item s k file it
      | _ => s
      end
  | CancelRequest =>
      set_flags s (λ u, mkUploadState (isPaused u) true
                          (state_processedCount u) (state_totalFiles u))
        SignalCancelled
  | PauseRequest =>
      set_flags s (λ u, mkUploadState true (isCancelled u)
                          (state_processedCount u) (state_totalFiles u))
        SignalPaused
  | ResumeRequest =>
      set_flags s (λ u, mkUploadState false (isCancelled u)
                          (state_processedCount u) (state_totalFiles u))
        SignalResumed
  end.

Definition run (s : Run) (events : list Event) : Run := fold_left step events s.

(** Lines 354-371: the run as the expansion of the archives leaves it, with
    the flags that the requests received meanwhile have set. *)
Definition start_run (x : Expansion) (flags : UploadState) : Run :=
  let s := mkRun (ArchiveExpander.allFiles x) (length (ArchiveExpander.allFiles x)) 0
             (ArchiveExpander.results x) [] 0
             (Some (mkUploadState (isPaused flags) (isCancelled flags) 0
                      (length (ArchiveExpander.allFiles x))))
             LoopHead [] [] in
  match ArchiveExpander.allFiles x with
  | [] => with_pc s (Responded (Status 400 "No PDF files found in uploaded files"))
  | _ :: _ => emit s (TotalCount (length (ArchiveExpander.allFiles x)))
  end.

(** The number of items that started their work. *)
Definition is_processing_notice (n : Notification) : bool :=
  match n with
  | Progress _ status => bool_decide (status = "processing")
  | _ => false
  end.
Definition started (s : Run) : nat :=
  length (List.filter is_processing_notice (log s)).

End Coordinator.

End BatchCoordinator.

(** ** The work of one item

    What an item of a window does between its first notification and the
    moment it settles: the duplicate check, then, for a file that is not a
    duplicate, [processPdf] and the move to permanent storage. *)

Module ItemPipeline.
Import JSString JSValue RegExp Store DuplicateDetector PlatformClassifier.
Import PdfProcessor FileSystem ArchiveExpander BatchCoordinator.

(** The document that [processPdf] saves, as it stands at a [save]. *)
Record InvoiceDoc := mkInvoiceDoc {
  doc_fileName : string;
  doc_filePath : string;
  doc_platform : string;
  doc_status : string;
  doc_rawText : option string;
  doc_extractedData : option Value;
  doc_errorMessage : option string
}.

Definition invoice_value (d : Invoice) : Value :=
  VObj [("fileName", VStr (fileName d));
        ("filePath", from_option VStr VUndefined (filePath d));
        ("fileHash", from_option VStr VUndefined (fileHash d));
        ("platform", VStr (platform d));
        ("status", VStr (status d))].

(** [fs.renameSync(from, to)] *)
Definition renameSync (fs : FS) (from to : string) : Res unit * FS :=
  if bool_decide (from ∈ fs) then (Ok (), (fs ∖ {[from]}) ∪ {[to]})
  else (Throw (mkError "Error"
                 ("ENOENT: no such file or directory, rename '" +:+ from +:+ "'")),
        fs).

Section ItemWork.
Context `{RegExpEngine} `{Builtins}.
Variable calculateFileHash : string → Res string.
Variable findOne : Query → Res (option Invoice).
(** [invoice.save()] *)
Variable save : InvoiceDoc → Res unit.
(** [fs.readFile] followed by [pdfParse]: the text of the PDF at a path. *)
Variable readText : string → Res string.
Variable llm_invoke : string → string → Res Response.
(** [Invoice.updateOne({ fileName }, { $set: { filePath, fileHash } })] *)
Variable updateOne : string → string → string → Res unit.
(** The random prefix of the final name, [protocol://host], and the
    directory of the permanent files. *)
Variable random : nat.
Variable origin : string.
Variable uploadsDir : string.

(** The [catch] of [processPdf], lines 62-70: the document as it stands is
    marked [failed] and saved, and the error is thrown on (or the error of
    this last [save], when it fails too). *)
Definition processPdf_fails {A} (invoice : InvoiceDoc) (error : Error) : Res A :=
  _ ← save (mkInvoiceDoc (doc_fileName invoice) (doc_filePath invoice)
              (doc_platform invoice) "failed" (doc_rawText invoice)
              (doc_extractedData invoice) (Some (message error)));
  Throw error.

(** [processPdf(file)], pdfProcessor.js lines 22-72; the platform and the
    extracted data are what its result carries besides the file name and the
    status [completed]. *)
Definition processPdf (file : File) : Res (string * Value) :=
  let invoice := mkInvoiceDoc (originalname file) (path file) "other"
                   "processing" None None None in
  match save invoice with
  | Throw error => processPdf_fails invoice error
  | Ok _ =>
  match readText (path file) with
  | Throw error => processPdf_fails invoice error
  | Ok textContent =>
  let invoice := mkInvoiceDoc (originalname file) (path file) "other"
                   "processing" (Some textContent) None None in
  match save invoice with
  | Throw error => processPdf_fails invoice error
  | Ok _ =>
  let platform := detectPlatform textContent in
  let invoice := mkInvoiceDoc (originalname file) (path file) platform
                   "processing" (Some textContent) None None in
  match extractInvoiceData llm_invoke textContent platform with
  | Throw error => processPdf_fails invoice error
  | Ok extractedData =>
  let invoice := mkInvoiceDoc (originalname file) (path file) platform
                   "completed" (Some textContent) (Some extractedData) None in
  match save invoice with
  | Throw error => processPdf_fails invoice error
  | Ok _ => Ok (platform, extractedData)
  end end end end end.

(** The cleanup of the item's [catch], lines 496-503. *)
Definition cleanup (fs : FS) (file : File) : FS :=
  if existsSync fs (path file) then (unlinkSync fs (path file)).2 else fs.

(** Lines 439-493: the stages of a file that is not a duplicate. *)
Definition ingest (file : File) (fs : FS) : ItemOutcome * FS :=
  match (fileHash ← calculateFileHash (path file);
         result ← processPdf file;
         Ok (fileHash, result)) with
  | Throw error => (Failed error, cleanup fs file)
  | Ok (fileHash, (platform, extractedData)) =>
      let finalFileName := digits random +:+ "-" +:+ originalname file in
      let finalPath := Path.join uploadsDir finalFileName in
      match renameSync fs (path file) finalPath with
      | (Throw error, fs) => (Failed error, cleanup fs file)
      | (Ok _, fs) =>
          match updateOne (originalname file) finalPath fileHash with
          | Throw error => (Failed error, cleanup fs file)
          | Ok _ =>
              (Completed platform extractedData
                 (origin +:+ "/uploads/" +:+ finalFileName), fs)
          end
      end
  end.

(** Lines 407-493: the duplicate check decides between discarding the file
    and ingesting it. *)
Definition item_work (file : File) (fs : FS) : ItemOutcome * FS :=
  match checkForDuplicates calculateFileHash findOne (path file) (originalname file) with
  | Throw error => (Failed error, cleanup fs file)
  | Ok duplicateCheck =>
      if isDuplicate duplicateCheck then
        (Duplicate (default EmptyString (reason duplicateCheck))
           (from_option invoice_value VUndefined (existingFile duplicateCheck)),
         cleanup fs file)
      else ingest file fs
  end.

End ItemWork.

End ItemPipeline.

(** ** Sample batches *)

Module BatchSamples.
Import JSValue FileSystem ArchiveExpander BatchCoordinator ProcessorSamples.
Import ItemPipeline.

Definition broken_zip : File :=
  mkFile "/srv/uploads/4711-march.zip" "march.zip" "application/zip" 2048 false.

Definition single_pdf : File :=
  mkFile "/srv/uploads/812-invoice.pdf" "invoice.pdf" "application/pdf" 1024 false.

Definition mixed_zip : File :=
  mkFile "/srv/uploads/93-april.zip" "april.zip" "application/octet-stream" 4096 false.

(** A reader that cannot open the first archive and lists five entries in
    the second. *)
Definition sample_zip_open (zipFilePath : string) : Res (list Entry) :=
  if bool_decide (zipFilePath = "/srv/uploads/93-april.zip") then
    Ok [mkEntry "a.pdf" "File" 100 None;
        mkEntry "docs/B.PDF" "File" 200 None;
        mkEntry "notes.txt" "File" 10 None;
        mkEntry "scans/" "Directory" 0 None;
        mkEntry "scans/c.Pdf" "File" 300 None]
  else Throw (mkError "Error" "FILE_ENDED").

Definition sample_random (n : nat) : nat := 100 + n.

Definition sample_disk : FS :=
  {[ "/srv/uploads/4711-march.zip"; "/srv/uploads/812-invoice.pdf";
     "/srv/uploads/93-april.zip" ]}.

Definition no_flags : UploadState := mkUploadState false false 0 0.

Definition processed_fine : ItemOutcome :=
  Completed "google_ads" taxed_data "http://localhost:3000/uploads/55-invoice.pdf".

(** A batch of one archive that cannot be read and one PDF. *)
Definition broken_batch : Expansion :=
  expandArchives sample_zip_open sample_random [broken_zip; single_pdf] sample_disk.

(** Sixteen PDFs: a window of fifteen and a window of one. *)
Definition sixteen_pdfs : list File :=
  map (λ n, mkFile ("/srv/uploads/" +:+ digits n +:+ "-invoice.pdf")
              ("invoice-" +:+ digits n +:+ ".pdf") "application/pdf" 1024 true)
    (seq 1 16).

Definition sixteen : Expansion := mkExpansion sixteen_pdfs [] ∅ 0.

Definition settle_window (n : nat) : list Event :=
  map (λ k, ItemSettles k processed_fine) (seq 0 n).

(** Collaborators that succeed: the store saves, the PDF reads as the sample
    invoice. *)
Definition sample_save (d : InvoiceDoc) : Res unit := Ok ().
Definition sample_readText (p : string) : Res string := Ok undated_invoice_text.
Definition sample_updateOne (fileName filePath fileHash : string) : Res unit := Ok ().

End BatchSamples.

(** ** PdfController: the upload filter

    The [fileFilter] that [multer] is configured with, pdfController.js
    lines 33-44. *)

Module UploadFilter.
Import JSString Path ArchiveExpander.

Definition allowedMimeTypes : list string :=
  ["application/pdf"; "application/zip"; "application/x-zip-compressed";
   "application/octet-stream"].

Definition allowedExtensions : list string := [".pdf"; ".zip"].

(** [fileFilter(req, file, cb)], lines 33-44: [cb(null, true)], or
    [cb(new Error(...))]. *)
Definition fileFilter (file : File) : Res bool :=
  let fileExtension := toLowerCase (extname (originalname file)) in
  if bool_decide (mimetype file ∈ allowedMimeTypes)
     || bool_decide (fileExtension ∈ allowedExtensions)
  then Ok true
  else Throw (mkError "Error"
                ("Only PDF and ZIP files are allowed. Received: "
                   +:+ mimetype file +:+ " (" +:+ fileExtension +:+ ")")).

End UploadFilter.

(** ** PdfController: finding a stored file again

    [resolveFilePath], pdfController.js lines 51-109, over POSIX paths. *)

Module PathJoin.
Import JSString Path.

(** The portions of a path between its slashes. *)
Fixpoint segments_from (cs cur : list ascii) : list string :=
  match cs with
  | [] => [string_of_list_ascii (rev cur)]
  | c :: rest =>
      if Ascii.eqb c "/" then string_of_list_ascii (rev cur) :: segments_from rest []
      else segments_from rest (c :: cur)
  end.

Definition segments (p : string) : list string :=
  segments_from (list_ascii_of_string p) [].

(** One step of [normalizeString]: the portions kept so far, the last one
    first, and the next portion. *)
Definition push_segment (allowAboveRoot : bool) (res : list string) (seg : string)
    : list string :=
  if bool_decide (seg = EmptyString) || bool_decide (seg = ".") then res
  else if bool_decide (seg = "..") then
    match res with
    | last :: before =>
        if bool_decide (last = "..") then ".." :: res else before
    | [] => if allowAboveRoot then [".."] else []
    end
  else seg :: res.

Fixpoint join_with_slash (portions : list string) : string :=
  match portions with
  | [] => EmptyString
  | [p] => p
  | p :: rest => p +:+ "/" +:+ join_with_slash rest
  end.

Definition endsWith_slash (p : string) : bool :=
  match rev (list_ascii_of_string p) with
  | c :: _ => Ascii.eqb c "/"
  | [] => false
  end.

(** [path.isAbsolute(p)] *)
Definition isAbsolute (p : string) : bool := startsWith "/" p.

(** [path.normalize(p)] *)
Definition normalize (p : string) : string :=
  if bool_decide (p = EmptyString) then "."
  else
    let absolute := isAbsolute p in
    let trailingSeparator := endsWith_slash p in
    let kept :=
      join_with_slash (rev (fold_left (push_segment (negb absolute)) (segments p) [])) in
    if bool_decide (kept = EmptyString) then
      if absolute then "/" else if trailingSeparator then "./" else "."
    else
      let kept := if trailingSeparator then kept +:+ "/" else kept in
      if absolute then "/" +:+ kept else kept.

(** [path.join(a, b)]: the arguments that are not empty, joined by a slash
    and normalised. *)
Definition join (a b : string) : string :=
  if bool_decide (a = EmptyString) then
    if bool_decide (b = EmptyString) then "." else normalize b
  else if bool_decide (b = EmptyString) then normalize a
  else normalize (a +:+ "/" +:+ b).

End PathJoin.

Module FileResolver.
Import JSString Path FileSystem DuplicateDetector.

Section Resolve.
(** The paths that exist, and [fs.readdirSync]: the entries of a directory,
    in the order the system lists them, or the error of a directory that
    cannot be read. *)
Variable fs : FS.
Variable readdirSync : string → Res (list string).
(** [path.join(__dirname, '..', 'uploads')] *)
Variable uploadsDir : string.

(** [files.find(pred)] inside [try { } catch { }]: nothing when the directory
    cannot be read. *)
Definition find_in_uploads (pred : string → bool) : option string :=
  match readdirSync uploadsDir with
  | Ok files => find pred files
  | Throw _ => None
  end.

(** [resolveFilePath(filePath)]; [None] is [null], and the [filePath] of a
    document that has none is [None]. *)
Definition resolveFilePath (filePath : option string) : option string :=
  match filePath with
  | None => None
  | Some filePath =>
  if bool_decide (filePath = EmptyString) then None
  else if PathJoin.isAbsolute filePath && existsSync fs filePath then Some filePath
  else
    let fileName := basename filePath in
    let resolvedPath := PathJoin.join uploadsDir fileName in
    if existsSync fs resolvedPath then Some resolvedPath
    else
      match find_in_uploads (λ file, includes file (removeExtension fileName)) with
      | Some matchingFile => Some (PathJoin.join uploadsDir matchingFile)
      | None =>
          if includes filePath "/var/www/"
             || includes filePath "MULTI-PDF-READER-BACKEND"
          then
            let extractedFileName := basename filePath in
            let localPath := PathJoin.join uploadsDir extractedFileName in
            if existsSync fs localPath then Some localPath
            else
              let baseNameWithoutExt := removeExtension extractedFileName in
              match find_in_uploads
                      (λ file,
                         let fileBaseName := removeExtension file in
                         includes fileBaseName baseNameWithoutExt
                         || includes baseNameWithoutExt fileBaseName) with
              | Some matchingFile => Some (PathJoin.join uploadsDir matchingFile)
              | None => None
              end
          else None
      end
  end.

End Resolve.

End FileResolver.

(** ** The document store and the disk as state

    The same code as above, with the collection behind [Invoice] and the
    disk threaded through as a state, so that what one request leaves
    behind can be related to what the next one finds.  A call to the store
    can fail: [fault] says which calls do.  Documents are found in the order
    they were inserted.  One item, or one request, runs at a time. *)

Module Library.
Import JSString JSValue RegExp Store DuplicateDetector PlatformClassifier.
Import PdfProcessor Path FileSystem ArchiveExpander BatchCoordinator ItemPipeline.
Import FileResolver.

(** A document of the collection: the fields of [Store.Invoice], and those
    that only [processPdf] and the status requests touch, [extractedData]
    being kept as it was assigned, before the schema casts it. *)
Record Document := mkDocument {
  _id : nat;
  stored : Invoice;
  rawText : option string;
  extractedData : option Value;
  errorMessage : option string
}.

Record World := mkWorld {
  docs : list Document;
  disk : FS;
  next_id : nat
}.

(** The calls the controller and the processor make to the store.  What
    makes a call fail, other than the three paths that [validate] checks, is
    left to [fault]: the connection, or data that cannot be cast to the type
    the schema gives it. *)
Inductive Call :=
| CallFindOne (q : Query)
| CallSave (id : nat) (d : InvoiceDoc)
| CallUpdateOne (fileName filePath fileHash : string)
| CallDeleteOne (fileName : string).

(** *** models/Invoice.js: what the schema requires of a document *)

Definition status_enum : list string := ["processing"; "completed"; "failed"].

Definition validation_error (detail : string) : Error :=
  mkError "ValidationError" ("Invoice validation failed: " +:+ detail).

(** [fileName] is required (and an empty string does not satisfy
    [required]); [platform] is required and, like [status], restricted to
    its [enum], which for the platform is [platform_tags]. *)
Definition validate (d : InvoiceDoc) : option Error :=
  if bool_decide (doc_fileName d = EmptyString) then
    Some (validation_error "fileName: Path `fileName` is required.")
  else if negb (bool_decide (doc_platform d ∈ platform_tags)) then
    Some (validation_error
            ("platform: `" +:+ doc_platform d
               +:+ "` is not a valid enum value for path `platform`."))
  else if negb (bool_decide (doc_status d ∈ status_enum)) then
    Some (validation_error
            ("status: `" +:+ doc_status d
               +:+ "` is not a valid enum value for path `status`."))
  else None.

Section Store.
Context `{RegExpEngine}.
Variable fault : Call → option Error.

(** [Invoice.findOne(q)], as a whole document. *)
Definition findDocument (w : World) (q : Query) : Res (option Document) :=
  match fault (CallFindOne q) with
  | Some e => Throw e
  | None => Ok (find (λ d, satisfies q (stored d)) (docs w))
  end.

Definition findOne (w : World) (q : Query) : Res (option Invoice) :=
  match findDocument w q with
  | Ok found => Ok (option_map stored found)
  | Throw e => Throw e
  end.

(** The document as [invoice.save()] writes it the first time. *)
Definition inserted (id : nat) (d : InvoiceDoc) : Document :=
  mkDocument id
    (mkInvoice (doc_fileName d) (Some (doc_filePath d)) None
       (doc_platform d) (doc_status d))
    (doc_rawText d) (doc_extractedData d) (doc_errorMessage d).

(** A later [invoice.save()] writes the fields that [processPdf] modifies;
    the name, the path and the hash stay as they are stored. *)
Definition saved_over (old : Document) (d : InvoiceDoc) : Document :=
  mkDocument (_id old)
    (mkInvoice (fileName (stored old)) (filePath (stored old))
       (fileHash (stored old)) (doc_platform d) (doc_status d))
    (doc_rawText d) (doc_extractedData d) (doc_errorMessage d).

Definition has_id (id : nat) (old : Document) : bool := bool_decide (_id old = id).

(** [invoice.save()] for the document created with [_id] = [id]: validated,
    then inserted at the end of the collection, or written over the document
    that has this [_id]. *)
Definition save (id : nat) (d : InvoiceDoc) (w : World) : Res unit * World :=
  match validate d with
  | Some e => (Throw e, w)
  | None =>
      match fault (CallSave id d) with
      | Some e => (Throw e, w)
      | None =>
          if existsb (has_id id) (docs w) then
            (Ok (),
             mkWorld (map (λ old, if has_id id old then saved_over old d else old)
                        (docs w))
               (disk w) (next_id w))
          else (Ok (), mkWorld (docs w ++ [inserted id d]) (disk w) (next_id w))
      end
  end.

Definition named (name : string) (d : Document) : bool :=
  bool_decide (fileName (stored d) = name).

(** The first document that satisfies [test], changed by [change]. *)
Fixpoint change_first (test : Document → bool) (change : Document → Document)
    (ds : list Document) : list Document :=
  match ds with
  | [] => []
  | d :: rest =>
      if test d then change d :: rest else d :: change_first test change rest
  end.

Fixpoint remove_first (test : Document → bool) (ds : list Document)
    : list Document :=
  match ds with
  | [] => []
  | d :: rest => if test d then rest else d :: remove_first test rest
  end.

(** [Invoice.updateOne({ fileName }, { $set: { filePath, fileHash } })] *)
Definition updateOne (name newPath newHash : string) (w : World)
    : Res unit * World :=
  match fault (CallUpdateOne name newPath newHash) with
  | Some e => (Throw e, w)
  | None =>
      (Ok (),
       mkWorld
         (change_first (named name)
            (λ d, mkDocument (_id d)
                    (mkInvoice (fileName (stored d)) (Some newPath) (Some newHash)
                       (platform (stored d)) (status (stored d)))
                    (rawText d) (extractedData d) (errorMessage d))
            (docs w))
         (disk w) (next_id w))
  end.

(** [Invoice.deleteOne({ fileName })] *)
Definition deleteOne (name : string) (w : World) : Res unit * World :=
  match fault (CallDeleteOne name) with
  | Some e => (Throw e, w)
  | None => (Ok (), mkWorld (remove_first (named name) (docs w)) (disk w) (next_id w))
  end.

End Store.

(** *** The work of one item, pdfProcessor.js lines 22-72 and
    pdfController.js lines 407-521 *)

Section Item.
Context `{RegExpEngine} `{Builtins}.
Variable fault : Call → option Error.
(** The MD5 digest of the content at a path, the text of the PDF at a path,
    and the generative service. *)
Variable calculateFileHash : string → Res string.
Variable readText : string → Res string.
Variable llm_invoke : string → string → Res Response.
Variable random : nat.
Variable origin : string.
Variable uploadsDir : string.

(** The [catch] of [processPdf]: the document is marked [failed] and saved,
    and the error is thrown on, or that of this [save] when it fails too. *)
Definition processPdf_fails {A} (id : nat) (invoice : InvoiceDoc) (error : Error)
    (w : World) : Res A * World :=
  match save fault id
          (mkInvoiceDoc (doc_fileName invoice) (doc_filePath invoice)
             (doc_platform invoice) "failed" (doc_rawText invoice)
             (doc_extractedData invoice) (Some (message error))) w with
  | (Throw e, w) => (Throw e, w)
  | (Ok _, w) => (Throw error, w)
  end.

(** [processPdf(file)] *)
Definition processPdf (file : File) (w : World) : Res (string * Value) * World :=
  (* new Invoice({ ... }) takes its _id *)
  let id := next_id w in
  let w := mkWorld (docs w) (disk w) (S (next_id w)) in
  let invoice := mkInvoiceDoc (originalname file) (path file) "other"
                   "processing" None None None in
  match save fault id invoice w with
  | (Throw error, w) => processPdf_fails id invoice error w
  | (Ok _, w) =>
  match readText (path file) with
  | Throw error => processPdf_fails id invoice error w
  | Ok textContent =>
  let invoice := mkInvoiceDoc (originalname file) (path file) "other"
                   "processing" (Some textContent) None None in
  match save fault id invoice w with
  | (Throw error, w) => processPdf_fails id invoice error w
  | (Ok _, w) =>
  let platform := detectPlatform textContent in
  let invoice := mkInvoiceDoc (originalname file) (path file) platform
                   "processing" (Some textContent) None None in
  match extractInvoiceData llm_invoke textContent platform with
  | Throw error => processPdf_fails id invoice error w
  | Ok extractedData =>
  let invoice := mkInvoiceDoc (originalname file) (path file) platform
                   "completed" (Some textContent) (Some extractedData) None in
  match save fault id invoice w with
  | (Throw error, w) => processPdf_fails id invoice error w
  | (Ok _, w) => (Ok (platform, extractedData), w)
  end end end end end.

(** The cleanup of the item's [catch], lines 496-503. *)
Definition cleaned (w : World) (file : File) : World :=
  mkWorld (docs w) (cleanup (disk w) file) (next_id w).

Definition finalFileName (file : File) : string :=
  digits random +:+ "-" +:+ originalname file.

Definition finalPath (file : File) : string :=
  PathJoin.join uploadsDir (finalFileName file).

(** Lines 439-493: the stages of a file that is not a duplicate (the
    uploads directory, which line 449 creates when it is missing, is not a
    file and has no place on this disk). *)
Definition ingest (file : File) (w : World) : ItemOutcome * World :=
  match calculateFileHash (path file) with
  | Throw error => (Failed error, cleaned w file)
  | Ok fileHash =>
  match processPdf file w with
  | (Throw error, w) => (Failed error, cleaned w file)
  | (Ok (platform, extractedData), w) =>
  match renameSync (disk w) (path file) (finalPath file) with
  | (Throw error, fs) => (Failed error, cleaned (mkWorld (docs w) fs (next_id w)) file)
  | (Ok _, fs) =>
  let w := mkWorld (docs w) fs (next_id w) in
  match updateOne fault (originalname file) (finalPath file) fileHash w with
  | (Throw error, w) => (Failed error, cleaned w file)
  | (Ok _, w) =>
      (Completed platform extractedData
         (origin +:+ "/uploads/" +:+ finalFileName file), w)
  end end end end.

(** Lines 407-493: the duplicate check decides between discarding the file
    and ingesting it. *)
Definition item_run (file : File) (w : World) : ItemOutcome * World :=
  match checkForDuplicates calculateFileHash (findOne fault w)
          (path file) (originalname file) with
  | Throw error => (Failed error, cleaned w file)
  | Ok duplicateCheck =>
      if isDuplicate duplicateCheck then
        (Duplicate (default EmptyString (reason duplicateCheck))
           (from_option invoice_value VUndefined (existingFile duplicateCheck)),
         cleaned w file)
      else ingest file w
  end.

End Item.

(** *** The requests about one stored file *)

(** What a request is answered with: the status and the body of
    [res.status(code).json(body)], [res.json(body)] answering with 200; a
    file sent for download; a file streamed whole for viewing under a name
    (200, with its size as [Content-Length]); a range of a file streamed
    (206, with [Content-Range: bytes start-end/fileSize] and [chunksize] as
    [Content-Length]); the summary of a bulk deletion, with its counts. *)
Inductive Reply :=
| Answer (status : nat) (body : Value)
| Download (filePath fileName : string)   (* [res.download(filePath, fileName)] *)
| Stream (filePath fileName : string)
| StreamRange (filePath fileName : string) (start end_ chunksize fileSize : float)
| BulkDeleted (totalFiles deletedFiles failedFiles : nat) (results : list Value).

Definition error_reply (code : nat) (msg : string) : Reply :=
  Answer code (VObj [("error", VStr msg)]).

(** [filePath ? `${protocol}://${host}/uploads/${path.basename(filePath)}` : null],
    lines 628-630, 690-692 and 832-834. *)
Definition pdfUrl (origin : string) (filePath : option string) : Value :=
  match filePath with
  | Some p =>
      if bool_decide (p = EmptyString) then VNull
      else VStr (origin +:+ "/uploads/" +:+ basename p)
  | None => VNull
  end.

Section Requests.
Context `{RegExpEngine}.
Variable fault : Call → option Error.
(** [fs.readdirSync] and the uploads directory, for [resolveFilePath]. *)
Variable readdirSync : string → Res (list string).
Variable uploadsDir : string.

(** [downloadPdf], lines 639-663. *)
Definition downloadPdf (name : string) (w : World) : Reply :=
  match findOne fault w (ByFileName name) with
  | Throw error => error_reply 500 (message error)
  | Ok None => error_reply 404 "PDF file not found"
  | Ok (Some invoice) =>
      match filePath invoice with
      | None => error_reply 404 "PDF file not found"
      | Some p =>
          if bool_decide (p = EmptyString) then error_reply 404 "PDF file not found"
          else
            match FileResolver.resolveFilePath (disk w) readdirSync uploadsDir
                    (Some p) with
            | None => error_reply 404 "PDF file not found on server"
            | Some resolvedFilePath => Download resolvedFilePath (fileName invoice)
            end
      end
  end.

(** *** [viewPdf] and the [Range] header *)

(** The size of the file at a path, [fs.statSync(p).size], and the error
    that [fs.createReadStream(p, { start, end })] throws when it refuses
    these bounds. *)
Variable statSize : string → float.
Variable createReadStream_throws : float → float → option Error.

(** [range.replace(/bytes=/, EmptyString)]: the first [bytes=] is removed. *)
Fixpoint without_unit (range : string) : string :=
  if startsWith "bytes=" range
  then String.substring 6 (String.length range - 6) range
  else match range with
       | EmptyString => EmptyString
       | String c rest => String c (without_unit rest)
       end.

(** [s.split("-")] *)
Fixpoint split_from (cs cur : list ascii) : list string :=
  match cs with
  | [] => [string_of_list_ascii (rev cur)]
  | c :: rest =>
      if Ascii.eqb c "-" then string_of_list_ascii (rev cur) :: split_from rest []
      else split_from rest (c :: cur)
  end.

Definition range_parts (range : string) : list string :=
  split_from (list_ascii_of_string (without_unit range)) [].

(** Lines 761-762: [start] and [end]; [parseInt(s, 10)] reads the leading
    decimal digits, as [JSNumber.parseInt] does. *)
Definition range_start (range : string) : float :=
  JSNumber.parseInt (default EmptyString (range_parts range !! 0)).

Definition range_end (range : string) (fileSize : float) : float :=
  match range_parts range !! 1 with
  | Some part =>
      if bool_decide (part = EmptyString) then (fileSize - 1)%float
      else JSNumber.parseInt part
  | None => (fileSize - 1)%float
  end.

(** Lines 758-794, for a file that exists: a request with a [Range] header
    gets that range, or 500 from the [catch] when the stream cannot be
    opened on it; any other request gets the whole file. *)
Definition stream_file (range : option string) (resolvedFilePath name : string)
    : Reply :=
  let fileSize := statSize resolvedFilePath in
  match range with
  | Some range =>
      if bool_decide (range = EmptyString) then Stream resolvedFilePath name
      else
        let start := range_start range in
        let end_ := range_end range fileSize in
        let chunksize := ((end_ - start) + 1)%float in
        match createReadStream_throws start end_ with
        | Some error => error_reply 500 (message error)
        | None => StreamRange resolvedFilePath name start end_ chunksize fileSize
        end
  | None => Stream resolvedFilePath name
  end.

(** [viewPdf], lines 704-804; [range] is [req.headers.range]. *)
Definition viewPdf (name : string) (range : option string) (w : World) : Reply :=
  match findOne fault w (ByFileName name) with
  | Throw error => error_reply 500 (message error)
  | Ok None => error_reply 404 "Invoice not found"
  | Ok (Some invoice) =>
      match filePath invoice with
      | None => error_reply 404 "PDF file path not found"
      | Some p =>
          if bool_decide (p = EmptyString) then
            error_reply 404 "PDF file path not found"
          else if bool_decide (platform invoice = "meta_ads")
                  && (includes p "/var/www/"
                      || includes p "MULTI-PDF-READER-BACKEND")
          then
            Answer 404
              (VObj [("error", VStr "PDF file not available locally");
                     ("message",
                      VStr "This Meta Ads invoice was processed on a different server and the PDF file is not available in the local environment. Please contact the administrator to sync the files.");
                     ("platform", VStr (platform invoice));
                     ("fileName", VStr (fileName invoice))])
          else
            match FileResolver.resolveFilePath (disk w) readdirSync uploadsDir
                    (Some p) with
            | None => error_reply 404 "PDF file not found on server"
            | Some resolvedFilePath =>
                if negb (existsSync (disk w) resolvedFilePath) then
                  error_reply 404 "PDF file does not exist on server"
                else stream_file range resolvedFilePath (fileName invoice)
            end
      end
  end.

(** Lines 959-968 and 1008-1017: the file of a document is removed from
    the disk, an error of [unlinkSync] being logged and ignored. *)
Definition remove_file (filePath : option string) (w : World) : World :=
  match filePath with
  | Some p =>
      if negb (bool_decide (p = EmptyString)) && existsSync (disk w) p
      then mkWorld (docs w) (unlinkSync (disk w) p).2 (next_id w)
      else w
  | None => w
  end.

(** [deletePdf], lines 946-982. *)
Definition deletePdf (name : string) (w : World) : Reply * World :=
  match findOne fault w (ByFileName name) with
  | Throw error => (error_reply 500 (message error), w)
  | Ok None => (error_reply 404 "PDF file not found", w)
  | Ok (Some invoice) =>
      let w := remove_file (filePath invoice) w in
      match deleteOne fault name w with
      | (Throw error, w) => (error_reply 500 (message error), w)
      | (Ok _, w) =>
          (Answer 200
             (VObj [("message", VStr ("Successfully deleted " +:+ name));
                    ("deletedFile", VStr name)]),
           w)
      end
  end.

(** What the loop of [bulkDeletePdfs] collects. *)
Record BulkDelete := mkBulkDelete {
  results : list Value;
  deletedFiles : list string;
  failedFiles : list Value
}.

(** The body of the loop, lines 997-1029, with its own [try] and [catch]. *)
Definition bulkDelete_one (acc : BulkDelete * World) (name : string)
    : BulkDelete * World :=
  let '(b, w) := acc in
  let failed error w :=
    (mkBulkDelete
       (results b ++ [VObj [("fileName", VStr name); ("status", VStr "failed");
                            ("error", VStr (message error))]])
       (deletedFiles b)
       (failedFiles b ++ [VObj [("fileName", VStr name);
                                ("reason", VStr (message error))]]),
     w) in
  match findOne fault w (ByFileName name) with
  | Throw error => failed error w
  | Ok None =>
      (mkBulkDelete (results b) (deletedFiles b)
         (failedFiles b ++ [VObj [("fileName", VStr name);
                                  ("reason", VStr "File not found in database")]]),
       w)
  | Ok (Some invoice) =>
      let w := remove_file (filePath invoice) w in
      match deleteOne fault name w with
      | (Throw error, w) => failed error w
      | (Ok _, w) =>
          (mkBulkDelete
             (results b ++ [VObj [("fileName", VStr name); ("status", VStr "deleted")]])
             (deletedFiles b ++ [name])
             (failedFiles b),
           w)
      end
  end.

(** [bulkDeletePdfs], lines 984-1045; [fileNames] is the array of names of
    the body, [None] when the body has no array of that name. *)
Definition bulkDeletePdfs (fileNames : option (list string)) (w : World)
    : Reply * World :=
  match fileNames with
  | None | Some [] => (error_reply 400 "No file names provided", w)
  | Some names =>
      let '(b, w) := fold_left bulkDelete_one names
                       (mkBulkDelete [] [] [], w) in
      (BulkDeleted (length names) (length (deletedFiles b))
         (length (failedFiles b)) (results b),
       w)
  end.

End Requests.

End Library.
(** ** Sample libraries *)

Module LibrarySamples.
Import Store FileSystem ArchiveExpander DuplicateSamples BatchSamples Library.

(** A store that answers every call. *)
Definition no_fault (c : Call) : option Error := None.

(** A library without documents, the upload of [single_pdf] being on disk. *)
Definition empty_library : World := mkWorld [] sample_disk 0.

(** The uploads directory holds two files. *)
Definition uploads_disk : FS :=
  {[ "/srv/uploads/55-invoice.pdf"; "/srv/uploads/101-B.PDF" ]}.

Definition sample_listing (dir : string) : Res (list string) :=
  if bool_decide (dir = "/srv/uploads") then Ok ["55-invoice.pdf"; "101-B.PDF"]
  else Throw (mkError "Error"
                ("ENOENT: no such file or directory, scandir '" +:+ dir +:+ "'")).

(** Two documents and their files. *)
Definition invoice_document : Document :=
  mkDocument 0
    (mkInvoice "invoice.pdf" (Some "/srv/uploads/55-invoice.pdf")
       (Some candidate_digest) "google_ads" "completed")
    None None None.

Definition scan_document : Document :=
  mkDocument 1
    (mkInvoice "B.PDF" (Some "/srv/uploads/101-B.PDF")
       (Some "92eb5ffee6ae2fec3ad71c777531578f") "other" "completed")
    None None None.

Definition library_of_two : World :=
  mkWorld [invoice_document; scan_document] uploads_disk 2.

(** A library that holds a document named [invoice.pdf] while a file of
    that name waits in the temporary place. *)
Definition library_with_invoice : World :=
  mkWorld [invoice_document] sample_disk 1.

(** The text of a receipt of Meta. *)
Definition meta_receipt_text : string :=
  "Meta Ads receipt for Example Trading. Paid INR 1,180.00 on 3 March 2024.".

Definition meta_readText (p : string) : Res string := Ok meta_receipt_text.

(** Every file has 2048 bytes; a stream is opened on bounds that are
    numbers from 0 on, the first not after the second. *)
Definition sample_statSize (p : string) : float := 2048%float.

Definition sample_createReadStream_throws (start end_ : float) : option Error :=
  if negb (0 <=? start)%float || negb (0 <=? end_)%float then
    Some (mkError "RangeError" "The value of start or end is out of range.")
  else if (end_ <? start)%float then
    Some (mkError "RangeError" "The value of start is out of range.")
  else None.

End LibrarySamples.


(** ** Facts about strings *)

Module JSStringFacts.
Import JSString.

Lemma append_assoc (a b c : string) : (a +:+ b) +:+ c = a +:+ (b +:+ c).
Proof. induction a as [|x a IH]; simpl; [done | by rewrite IH]. Qed.

Lemma append_nil_r (a : string) : a +:+ EmptyString = a.
Proof. induction a as [|x a IH]; simpl; [done | by rewrite IH]. Qed.

Lemma toLowerCase_app (a b : string) :
  toLowerCase (a +:+ b) = toLowerCase a +:+ toLowerCase b.
Proof. induction a as [|x a IH]; simpl; [done | by rewrite IH]. Qed.

Lemma lower_char_idemp (c : ascii) : lower_char (lower_char c) = lower_char c.
Proof.
  destruct c as [[] [] [] [] [] [] [] []]; vm_compute; reflexivity.
Qed.

Lemma toLowerCase_idemp (s : string) :
  toLowerCase (toLowerCase s) = toLowerCase s.
Proof.
  induction s as [|c s IH]; simpl; [done|].
  by rewrite lower_char_idemp, IH.
Qed.

Lemma toLowerCase_split (s a b : string) :
  toLowerCase s = a +:+ b →
  ∃ s1 s2, s = s1 +:+ s2 ∧ toLowerCase s1 = a ∧ toLowerCase s2 = b.
Proof.
  revert s; induction a as [|x a IH]; intros s H; simpl in *.
  - by exists EmptyString, s.
  - destruct s as [|c s]; simpl in H; [done|].
    injection H as Hc Hs.
    destruct (IH _ Hs) as (s1 & s2 & -> & H1 & H2).
    exists (String c s1), s2; simpl.
    by rewrite Hc, H1.
Qed.

Lemma startsWith_spec (p s : string) :
  startsWith p s = true ↔ ∃ post, s = p +:+ post.
Proof.
  revert s; induction p as [|a p IH]; intros s; simpl.
  - split; [by exists s | done].
  - destruct s as [|b s].
    + split; [done | by intros [post ?]].
    + rewrite andb_true_iff, IH, Ascii.eqb_eq. split.
      * intros [-> [post ->]]. by exists post.
      * intros [post [= -> ->]]. split; [done | by exists post].
Qed.

Lemma includes_spec (s needle : string) :
  includes s needle = true ↔ substring_of needle s.
Proof.
  unfold substring_of.
  induction s as [|c s IH]; simpl; rewrite orb_true_iff, startsWith_spec.
  - split.
    + intros [[post H] | ?]; [|done]. by exists EmptyString, post.
    + intros (pre & post & H). left.
      destruct pre; simpl in H; [by exists post|done].
  - rewrite IH. split.
    + intros [[post H] | (pre & post & ->)].
      * by exists EmptyString, post.
      * by exists (String c pre), post.
    + intros (pre & post & H). destruct pre as [|x pre]; simpl in H.
      * left. by exists post.
      * injection H as -> ->. right. by exists pre, post.
Qed.

(** What [s.toLowerCase().includes(needle)] decides, for a needle written
    in lower case. *)
Lemma lowered_includes_spec (s needle : string) :
  toLowerCase needle = needle →
  includes (toLowerCase s) needle = true ↔ ci_substring_of needle s.
Proof.
  intros Hn. rewrite includes_spec. unfold substring_of, ci_substring_of.
  split.
  - intros (pre & post & H).
    apply toLowerCase_split in H as (s1 & s2 & -> & H1 & H2).
    apply toLowerCase_split in H2 as (s3 & s4 & -> & H3 & H4).
    exists s1, s3, s4. by rewrite Hn.
  - intros (pre & mid & post & -> & H).
    exists (toLowerCase pre), (toLowerCase post).
    by rewrite !toLowerCase_app, H, Hn.
Qed.

End JSStringFacts.
(** ** The platform classifier *)

Module ClassifierFacts.
Import JSString JSStringFacts JSValue PlatformClassifier.

Lemma is_ascii_lower_char (c : ascii) :
  is_ascii_char (lower_char c) = is_ascii_char c.
Proof. destruct c as [[] [] [] [] [] [] [] []]; vm_compute; reflexivity. Qed.

Lemma ascii_only_toLowerCase (s : string) :
  ascii_only (toLowerCase s) = ascii_only s.
Proof.
  induction s as [|c s IH]; simpl; [done|]. by rewrite is_ascii_lower_char, IH.
Qed.

Section Facts.
Context `{Builtins}.

Lemma mentions_spec (keyword text : string) :
  includes (String_toLowerCase text) keyword = true ↔ mentions keyword text.
Proof. apply includes_spec. Qed.

Lemma google_test_spec text : google_test text = true ↔ google_rule text.
Proof.
  unfold google_test, google_rule.
  by rewrite orb_true_iff, !mentions_spec.
Qed.

Lemma meta_test_spec text : meta_test text = true ↔ meta_rule text.
Proof.
  unfold meta_test, meta_rule.
  by rewrite andb_true_iff, orb_true_iff, !mentions_spec.
Qed.

Ltac settle_rule H :=
  match type of H with
  | true = true ↔ ?P => assert P by (apply H; reflexivity); clear H
  | false = true ↔ ?P =>
      assert (¬ P) by (let X := fresh in intros X; apply H in X; discriminate X);
      clear H
  end.

Lemma detectPlatform_unfold text :
  detectPlatform text =
    if google_test text then "google_ads"
    else if meta_test text then "meta_ads"
    else if includes (String_toLowerCase text) "facebook ads" then "facebook_ads"
    else if includes (String_toLowerCase text) "instagram ads" then "instagram_ads"
    else "other".
Proof. reflexivity. Qed.

(** A keyword written with whatever capitals, anywhere in a text, is
    matched: the case mapping turns its letters into small ones in place. *)
Lemma mentions_case_variant (keyword text : string) :
  toLowerCase keyword = keyword → ascii_only keyword = true →
  ci_substring_of keyword text → mentions keyword text.
Proof.
  intros Hlow Hascii (pre & mid & post & -> & Hmid).
  rewrite Hlow in Hmid.
  assert (Hmid' : ascii_only mid = true).
  { by rewrite <- ascii_only_toLowerCase, Hmid. }
  destruct (String_toLowerCase_ascii_part pre mid post Hmid') as (pre' & post' & Heq).
  exists pre', post'. by rewrite Heq, Hmid.
Qed.

(** On a text of ASCII characters a keyword is matched exactly when it
    occurs in the text up to the case of its letters. *)
Lemma mentions_ascii (keyword text : string) :
  ascii_only text = true → toLowerCase keyword = keyword →
  mentions keyword text ↔ ci_substring_of keyword text.
Proof.
  intros Htext Hlow. unfold mentions.
  rewrite (String_toLowerCase_ascii text Htext), <- includes_spec.
  by apply lowered_includes_spec.
Qed.

Lemma google_rule_intro pre mid post text :
  text = pre +:+ mid +:+ post →
  toLowerCase mid = "google ads" → google_rule text.
Proof.
  intros -> Hmid. left. apply mentions_case_variant; [done..|].
  by exists pre, mid, post.
Qed.

(** C9.  The classifier applies its case-insensitive substring rules in the
    order google, meta, facebook, instagram, other, and the first rule that
    matches decides the tag.  A rule matches when its keywords are part of
    the text put in lower case by the runtime: so a keyword written with
    whatever capitals is matched in any text, and on a text of ASCII
    characters nothing else is.  A text that contains both "Google Ads" and
    "Meta" (in either order) is tagged google_ads; every text gets one of
    the five, pairwise different, platform tags. *)
Theorem detectPlatform_priority (text : string) :
  (detectPlatform text = "google_ads" ↔ google_rule text) ∧
  (detectPlatform text = "meta_ads" ↔ ¬ google_rule text ∧ meta_rule text) ∧
  (detectPlatform text = "facebook_ads" ↔
     ¬ google_rule text ∧ ¬ meta_rule text ∧ facebook_rule text) ∧
  (detectPlatform text = "instagram_ads" ↔
     ¬ google_rule text ∧ ¬ meta_rule text ∧ ¬ facebook_rule text ∧
     instagram_rule text) ∧
  (detectPlatform text = "other" ↔
     ¬ google_rule text ∧ ¬ meta_rule text ∧ ¬ facebook_rule text ∧
     ¬ instagram_rule text) ∧
  (∀ keyword,
     toLowerCase keyword = keyword → ascii_only keyword = true →
     ci_substring_of keyword text → mentions keyword text) ∧
  (ascii_only text = true →
   ∀ keyword,
     toLowerCase keyword = keyword →
     (mentions keyword text ↔ ci_substring_of keyword text)) ∧
  (∀ pre mid post,
     detectPlatform (pre +:+ "Google Ads" +:+ mid +:+ "Meta" +:+ post)
     = "google_ads") ∧
  (∀ pre mid post,
     detectPlatform (pre +:+ "Meta" +:+ mid +:+ "Google Ads" +:+ post)
     = "google_ads") ∧
  detectPlatform text ∈ platform_tags ∧
  NoDup platform_tags.
Proof.
  assert (Hbranches :
    ∀ t, (detectPlatform t = "google_ads" ↔ google_rule t) ∧
         (detectPlatform t = "meta_ads" ↔ ¬ google_rule t ∧ meta_rule t) ∧
         (detectPlatform t = "facebook_ads" ↔
            ¬ google_rule t ∧ ¬ meta_rule t ∧ facebook_rule t) ∧
         (detectPlatform t = "instagram_ads" ↔
            ¬ google_rule t ∧ ¬ meta_rule t ∧ ¬ facebook_rule t ∧
            instagram_rule t) ∧
         (detectPlatform t = "other" ↔
            ¬ google_rule t ∧ ¬ meta_rule t ∧ ¬ facebook_rule t ∧
            ¬ instagram_rule t)).
  { intros t. rewrite detectPlatform_unfold.
    pose proof (google_test_spec t) as Hg.
    pose proof (meta_test_spec t) as Hm.
    pose proof (mentions_spec "facebook ads" t) as Hf.
    pose proof (mentions_spec "instagram ads" t) as Hi.
    fold (facebook_rule t) in Hf. fold (instagram_rule t) in Hi.
    destruct (google_test t), (meta_test t),
      (includes (String_toLowerCase t) "facebook ads"),
      (includes (String_toLowerCase t) "instagram ads");
      settle_rule Hg; settle_rule Hm; settle_rule Hf; settle_rule Hi;
      repeat split; intros; try discriminate; try reflexivity;
      unfold meta_rule in *; tauto. }
  destruct (Hbranches text) as (Hg & Hm & Hf & Hi & Ho).
  refine (conj Hg (conj Hm (conj Hf (conj Hi (conj Ho
           (conj _ (conj _ (conj _ (conj _ (conj _ _)))))))))).
  - intros keyword. apply mentions_case_variant.
  - intros Htext keyword. by apply mentions_ascii.
  - intros pre mid post. apply Hbranches.
    by eapply (google_rule_intro pre "Google Ads").
  - intros pre mid post. apply Hbranches.
    eapply (google_rule_intro (pre +:+ "Meta" +:+ mid) "Google Ads");
      [|done].
    by rewrite !append_assoc.
  - rewrite detectPlatform_unfold. unfold platform_tags.
    destruct (google_test text), (meta_test text),
      (includes (String_toLowerCase text) "facebook ads"),
      (includes (String_toLowerCase text) "instagram ads");
      compute_done.
  - compute_done.
Qed.

End Facts.

End ClassifierFacts.

Module ClassifierExamples.
Import JSString JSValue PlatformClassifier ProcessorSamples.

Example detectPlatform_google_and_meta :
  detectPlatform "Your Google Ads invoice, also shown on Meta" = "google_ads".
Proof. reflexivity. Qed.

Example detectPlatform_meta_advertising :
  detectPlatform "META Platforms advertising receipt" = "meta_ads".
Proof. reflexivity. Qed.

(** The Kelvin sign is no letter of ASCII, and the runtime maps it to the
    letter k: the text is tagged facebook_ads. *)
Example detectPlatform_kelvin_sign :
  ascii_only facebook_kelvin_text = false ∧
  toLowerCase facebook_kelvin_text ≠ String_toLowerCase facebook_kelvin_text ∧
  detectPlatform facebook_kelvin_text = "facebook_ads".
Proof.
  split; [reflexivity|]. split; [|reflexivity].
  intros Heq. vm_compute in Heq. discriminate Heq.
Qed.

End ClassifierExamples.


(** ** Duplicate detection *)

Module DuplicateFacts.
Import JSString RegExp Store DuplicateDetector.

Lemma find_none_existsb {A} (f : A → bool) (l : list A) :
  find f l = None → existsb f l = false.
Proof.
  induction l as [|x l IH]; simpl; [done|].
  destruct (f x); [done | exact IH].
Qed.

Lemma find_some_existsb {A} (f : A → bool) (l : list A) (x : A) :
  find f l = Some x → existsb f l = true ∧ f x = true ∧ x ∈ l.
Proof.
  induction l as [|y l IH]; simpl; [done|].
  destruct (f y) eqn:Hy.
  - intros [= ->]. repeat split; [done | by left].
  - intros Hf. destruct (IH Hf) as (? & ? & ?).
    repeat split; [done.. | by right].
Qed.

Lemma lookup_raises_throws `{RegExpEngine}
    (calculateFileHash : string → Res string)
    (findOne : Query → Res (option Invoice))
    (filePath originalName digest : string) (e : Error) :
  calculateFileHash filePath = Ok digest →
  lookup_raises findOne originalName digest e →
  checkForDuplicates_body calculateFileHash findOne filePath originalName = Throw e.
Proof.
  intros Hhash Hraise. unfold checkForDuplicates_body.
  rewrite Hhash; simpl.
  destruct Hraise as [-> | [-> Hraise]]; simpl; [done|].
  destruct Hraise as [-> | [-> (re & -> & Hraise)]]; simpl; [done|].
  destruct Hraise as [-> | [-> (re' & -> & Hraise)]]; simpl; [done|].
  by rewrite Hraise.
Qed.

Section Facts.
Context `{RegExpEngine}.
Variable calculateFileHash : string → Res string.

Lemma RegExp_new_i_valid (src : string) :
  syntax_error src = None → RegExp_new_i src = Ok (mkRegExp src true false).
Proof. unfold RegExp_new_i. by intros ->. Qed.

Lemma lookup_duplicateType_satisfies (docs : list Invoice) (digest name : string) :
  lookup_duplicateType docs digest name =
    if existsb (satisfies (ByFileHash digest)) docs then Some "content"
    else if existsb (satisfies (ByFileName name)) docs then Some "filename"
    else if existsb (satisfies (ByFileNameRegex
                       (mkRegExp (similar_name_pattern name) true false))) docs
    then Some "similar_name"
    else if existsb (satisfies (ByFileNameRegex
                       (mkRegExp (case_insensitive_pattern name) true false))) docs
    then Some "case_insensitive"
    else None.
Proof. reflexivity. Qed.

(** C3 (as amended).  Over a store that answers every lookup, and for a
    candidate whose digest is computed and whose two patterns are valid
    regular expressions, the verdict is decided by four lookups in a fixed
    order, the first hit winning: the digest ("content"), the exact name
    ("filename"), the stored names that match, letter case ignored, the
    pattern made of the candidate's name without extension followed by any
    extension ("similar_name"), and the stored names that match, letter case
    ignored, the pattern made of the candidate's whole name
    ("case_insensitive"); when none hits, the verdict is not-duplicate. *)
Theorem checkForDuplicates_first_hit
    (docs : list Invoice) (filePath originalName digest : string) :
  calculateFileHash filePath = Ok digest →
  syntax_error (similar_name_pattern originalName) = None →
  syntax_error (case_insensitive_pattern originalName) = None →
  ∃ v,
    checkForDuplicates calculateFileHash (λ q, Ok (findOne_in docs q))
      filePath originalName = Ok v ∧
    duplicateType v = lookup_duplicateType docs digest originalName ∧
    isDuplicate v = bool_decide (is_Some (duplicateType v)) ∧
    error v = None ∧
    (∀ d, existingFile v = Some d → d ∈ docs).
Proof.
  intros Hhash H3 H4.
  rewrite lookup_duplicateType_satisfies.
  unfold checkForDuplicates, checkForDuplicates_body.
  rewrite Hhash; simpl.
  rewrite (RegExp_new_i_valid _ H3), (RegExp_new_i_valid _ H4); simpl.
  unfold findOne_in.
  destruct (find (satisfies (ByFileHash digest)) docs) as [d|] eqn:F1; simpl.
  { apply find_some_existsb in F1 as (-> & _ & Hin).
    eexists; repeat split; try done. by intros ? [= <-]. }
  rewrite (find_none_existsb _ _ F1).
  destruct (find (satisfies (ByFileName originalName)) docs) as [d|] eqn:F2; simpl.
  { apply find_some_existsb in F2 as (-> & _ & Hin).
    eexists; repeat split; try done. by intros ? [= <-]. }
  rewrite (find_none_existsb _ _ F2).
  destruct (find (satisfies (ByFileNameRegex
              (mkRegExp (similar_name_pattern originalName) true false))) docs)
    as [d|] eqn:F3; simpl.
  { apply find_some_existsb in F3 as (-> & _ & Hin).
    eexists; repeat split; try done. by intros ? [= <-]. }
  rewrite (find_none_existsb _ _ F3).
  destruct (find (satisfies (ByFileNameRegex
              (mkRegExp (case_insensitive_pattern originalName) true false))) docs)
    as [d|] eqn:F4; simpl.
  { apply find_some_existsb in F4 as (-> & _ & Hin).
    eexists; repeat split; try done. by intros ? [= <-]. }
  rewrite (find_none_existsb _ _ F4).
  eexists; repeat split; done.
Qed.

Variable findOne : Query → Res (option Invoice).

(** C10.  The duplicate check is total: for every path and every declared
    name it resolves to a verdict and never throws; whatever the body of its
    [try] block throws (the read error of the digest, the [SyntaxError] of a
    pattern built from a name with, say, an unbalanced parenthesis, a storage
    error) becomes the not-duplicate verdict that carries the message. *)
Theorem checkForDuplicates_total (filePath originalName : string) :
  ∃ v,
    checkForDuplicates calculateFileHash findOne filePath originalName = Ok v ∧
    (isDuplicate v = true ∨ isDuplicate v = false) ∧
    (∀ e, checkForDuplicates_body calculateFileHash findOne filePath originalName
            = Throw e → v = failed_open e) ∧
    (∀ e, calculateFileHash filePath = Throw e → v = failed_open e) ∧
    (∀ digest detail,
       calculateFileHash filePath = Ok digest →
       findOne (ByFileHash digest) = Ok None →
       findOne (ByFileName originalName) = Ok None →
       syntax_error (similar_name_pattern originalName) = Some detail →
       isDuplicate v = false ∧
       error v = Some ("Invalid regular expression: /"
                         +:+ similar_name_pattern originalName +:+ "/i: " +:+ detail)).
Proof.
  unfold checkForDuplicates.
  destruct (checkForDuplicates_body _ _ _ _) as [v|e] eqn:Hbody; simpl.
  - exists v. split; [done|]. split; [destruct (isDuplicate v); auto|].
    split; [done|]. split.
    + intros e He. unfold checkForDuplicates_body in Hbody.
      by rewrite He in Hbody.
    + intros digest detail Hh H1 H2 Hs.
      unfold checkForDuplicates_body, RegExp_new_i in Hbody.
      rewrite Hh in Hbody; simpl in Hbody.
      rewrite H1 in Hbody; simpl in Hbody.
      rewrite H2 in Hbody; simpl in Hbody.
      by rewrite Hs in Hbody.
  - exists (failed_open e). split; [done|]. split; [by right|].
    split; [by intros ? [= ->]|]. split.
    + intros e' He. unfold checkForDuplicates_body in Hbody.
      rewrite He in Hbody. by injection Hbody as ->.
    + intros digest detail Hh H1 H2 Hs.
      unfold checkForDuplicates_body, RegExp_new_i in Hbody.
      rewrite Hh in Hbody; simpl in Hbody.
      rewrite H1 in Hbody; simpl in Hbody.
      rewrite H2 in Hbody; simpl in Hbody.
      rewrite Hs in Hbody. by injection Hbody as <-.
Qed.

End Facts.

End DuplicateFacts.

(** ** Duplicate detection on sample data *)

Module DuplicateExamples.
Import RegExp MiniRegExp Store DuplicateDetector DuplicateFacts DuplicateSamples.

Example removeExtension_agrees_with_engine :
  Forall (λ name, removeExtension name = removeExtension_by_engine name)
    ["invoice.pdf"; "a.b.tar.gz"; "noext"; ".pdf"; "v1.2/file"; "trailing.";
     "two..dots"; "Report (final).PDF"].
Proof. repeat constructor. Qed.

Example removeExtension_samples :
  removeExtension "a.b.tar.gz" = "a.b.tar" ∧
  removeExtension "noext" = "noext" ∧
  removeExtension "v1.2/file" = "v1.2/file" ∧
  removeExtension "trailing." = "trailing.".
Proof. by repeat split. Qed.

(** C3, as the claim states it, fails: a candidate that differs from a
    stored name only in letter case is reported as "similar_name" by the
    third lookup, where the claim's order of checks makes it
    "case_insensitive". *)
Lemma checkForDuplicates_case_variant :
  checkForDuplicates (H := MiniRegExp.engine) sample_hash
    (λ q, Ok (findOne_in sample_docs q)) "/tmp/uploads/93-invoice.pdf" "invoice.pdf"
  = Ok (duplicate "File with similar name already exists (Invoice.PDF)"
          stored_invoice "similar_name") ∧
  spec_duplicateType sample_docs candidate_digest "invoice.pdf"
  = Some "case_insensitive".
Proof. split; vm_compute; reflexivity. Qed.

Lemma checkForDuplicates_first_hit_witness :
  ∃ v,
    checkForDuplicates (H := MiniRegExp.engine) sample_hash
      (λ q, Ok (findOne_in sample_docs q)) "/tmp/uploads/93-invoice.pdf" "invoice.pdf"
    = Ok v ∧
    duplicateType v
    = lookup_duplicateType (H := MiniRegExp.engine) sample_docs candidate_digest "invoice.pdf" ∧
    isDuplicate v = bool_decide (is_Some (duplicateType v)) ∧
    error v = None ∧
    (∀ d, existingFile v = Some d → d ∈ sample_docs).
Proof.
  apply (checkForDuplicates_first_hit (H := MiniRegExp.engine) sample_hash
           sample_docs "/tmp/uploads/93-invoice.pdf" "invoice.pdf" candidate_digest);
    vm_compute; reflexivity.
Defined.

(** A name with an unbalanced parenthesis: the pattern of the third lookup is
    not a regular expression, and the check resolves to not-duplicate. *)
Example checkForDuplicates_unbalanced_parenthesis :
  syntax_error (RegExpEngine := MiniRegExp.engine)
    (similar_name_pattern "report (final.pdf") = Some "Unterminated group" ∧
  checkForDuplicates (H := MiniRegExp.engine) sample_hash
    (λ q, Ok (findOne_in sample_docs q)) "/tmp/uploads/5-report (final.pdf"
    "report (final.pdf"
  = Ok (mkVerdict false None None None
          (Some "Invalid regular expression: /^report (final\.[^/.]+$/i: Unterminated group")).
Proof. split; vm_compute; reflexivity. Qed.

Example checkForDuplicates_unreadable_file :
  checkForDuplicates (H := MiniRegExp.engine) unreadable
    (λ q, Ok (findOne_in sample_docs q)) "/tmp/uploads/gone.pdf" "gone.pdf"
  = Ok (mkVerdict false None None None
          (Some "ENOENT: no such file or directory, open '/tmp/uploads/gone.pdf'")).
Proof. vm_compute; reflexivity. Qed.

End DuplicateExamples.

(** ** Facts about numbers and objects *)

Module ValueFacts.
Import JSNumber JSValue.

Lemma SFeqb_refl_finite (s : bool) (m : positive) (e : Z) :
  SFeqb (S754_finite s m e) (S754_finite s m e) = true.
Proof.
  unfold SFeqb, SFcompare.
  rewrite Z.compare_refl, Pos.compare_cont_refl. by destruct s.
Qed.

(** A number above zero is truthy. *)
Lemma positive_truthy (x : float) :
  (0 <? x)%float = true → truthy_number x = true.
Proof.
  unfold truthy_number, PrimFloat.is_zero, PrimFloat.is_nan.
  rewrite FloatAxioms.ltb_spec, !FloatAxioms.eqb_spec.
  change (Prim2SF 0) with (S754_zero false).
  change (Prim2SF zero) with (S754_zero false).
  destruct (Prim2SF x) as [s|s| |s m e]; simpl; try done.
  - unfold SFltb, SFeqb; simpl. by destruct s.
  - unfold SFltb; simpl. destruct s; [done|]. intros _.
    rewrite SFeqb_refl_finite. by unfold SFeqb.
Qed.

Lemma zero_not_truthy : truthy_number 0 = false.
Proof. reflexivity. Qed.

Lemma truthy_number_not_zero (x : float) :
  truthy_number x = true → PrimFloat.is_zero x = false.
Proof. unfold truthy_number. by destruct (PrimFloat.is_zero x). Qed.

Lemma lookup_update_same (props : list (string * Value)) (k : string) (x : Value) :
  lookup_prop (update_prop props k x) k = x.
Proof.
  induction props as [|[k' v] props IH]; simpl.
  - by rewrite bool_decide_eq_true_2.
  - destruct (bool_decide (k' = k)) eqn:E; simpl; rewrite E; [done | exact IH].
Qed.

Lemma lookup_update_other (props : list (string * Value)) (k k' : string) (x : Value) :
  k ≠ k' → lookup_prop (update_prop props k x) k' = lookup_prop props k'.
Proof.
  intros Hk. induction props as [|[k0 v] props IH]; simpl.
  - by rewrite bool_decide_eq_false_2.
  - destruct (bool_decide (k0 = k)) eqn:E; simpl.
    + apply bool_decide_eq_true in E as ->.
      by rewrite bool_decide_eq_false_2.
    + by rewrite IH.
Qed.

Lemma prop_set_same (props : list (string * Value)) (k : string) (x : Value) :
  prop (set (VObj props) k x) k = x.
Proof. apply lookup_update_same. Qed.

Lemma prop_set_other (props : list (string * Value)) (k k' : string) (x : Value) :
  k ≠ k' → prop (set (VObj props) k x) k' = prop (VObj props) k'.
Proof. apply lookup_update_other. Qed.

End ValueFacts.

(** ** Field extraction *)

Module ProcessorFacts.
Import JSString JSNumber JSValue RegExp PdfProcessor.

(** A date field holds a [Date] or [null]; a numeric field a number or
    [null]. *)
Definition date_or_null (v : Value) : bool :=
  match v with VDate _ | VNull => true | _ => false end.
Definition number_or_null (v : Value) : bool :=
  match v with VNum _ | VNull => true | _ => false end.

Lemma bind_Ok_inv {A B} (m : Res A) (f : A → Res B) (b : B) :
  (m ≫= f) = Ok b → ∃ a, m = Ok a ∧ f a = Ok b.
Proof. destruct m as [a|e]; simpl; [by exists a | done]. Qed.

Section Facts.
Context `{RegExpEngine} `{Builtins}.
Variable llm_invoke : string → string → Res Response.

Lemma toNumber_number_or_null (val : Value) :
  number_or_null (toNumber val) = true.
Proof. unfold toNumber. by destruct (negb _). Qed.

Lemma toNumber_not_NaN (val : Value) (x : float) :
  toNumber val = VNum x → isNaN x = false.
Proof.
  unfold toNumber. destruct (isNaN (parseFloat_value val)) eqn:E; simpl; [done|].
  by intros [= <-].
Qed.

Lemma validDate_date_or_null (d : Value) : date_or_null (validDate d) = true.
Proof. unfold validDate. by destruct (_ && _). Qed.

(** A string that [Date.parse] accepts becomes a valid [Date]. *)
Lemma validDate_string_valid (s : string) (t : float) :
  validDate (VStr s) = VDate t → isNaN t = false.
Proof.
  unfold validDate. destruct (truthy (VStr s)); simpl; [|done].
  destruct (isNaN (Date_parse (VStr s))) eqn:E; simpl; [done|].
  intros [= <-]. by rewrite Date_new_string.
Qed.

(** The two tiers that end in [validateAndFormatData] return date fields
    that are dates or [null] and numeric fields that are numbers or [null]. *)
Lemma validateAndFormatData_typed (data out : Value) (platform text : string) :
  validateAndFormatData data platform text = Ok out →
  date_or_null (prop out "invoiceDate") = true ∧
  number_or_null (prop out "subtotal") = true ∧
  number_or_null (prop out "taxAmount") = true ∧
  number_or_null (prop out "totalAmount") = true ∧
  (prop out "billingPeriod" = VUndefined ∨
   date_or_null (prop (prop out "billingPeriod") "startDate") = true ∧
   date_or_null (prop (prop out "billingPeriod") "endDate") = true).
Proof.
  unfold validateAndFormatData. intros Hv.
  repeat (apply bind_Ok_inv in Hv as (? & _ & Hv)).
  injection Hv as <-.
  match goal with
  | |- context [if truthy ?v then _ else _] => destruct (truthy v)
  end; simpl;
    rewrite ?validDate_date_or_null, ?toNumber_number_or_null; auto 10.
Qed.

(** When the call to the service fails, the data is what [basicExtraction]
    returns, as it returns it. *)
Lemma extractInvoiceData_service_failure (text platform : string) (e : Error) :
  llm_invoke platform text = Throw e →
  extractInvoiceData llm_invoke text platform = basicExtraction text platform.
Proof. unfold extractInvoiceData. by intros ->. Qed.

(** When the service answers, the data went through
    [validateAndFormatData]. *)
Lemma extractInvoiceData_primary_typed
    (text platform : string) (response : Response) (data out : Value) :
  llm_invoke platform text = Ok response →
  try_catch (JSON_parse (response_json response))
    (λ _, basicExtraction text platform) = Ok data →
  validateAndFormatData data platform text = Ok out →
  extractInvoiceData llm_invoke text platform = Ok out ∧
  date_or_null (prop out "invoiceDate") = true ∧
  number_or_null (prop out "subtotal") = true ∧
  number_or_null (prop out "taxAmount") = true ∧
  number_or_null (prop out "totalAmount") = true.
Proof.
  intros Hllm Hdata Hout.
  destruct (validateAndFormatData_typed _ _ _ _ Hout) as (? & ? & ? & ? & _).
  unfold extractInvoiceData. rewrite Hllm; simpl. rewrite Hdata; simpl.
  by rewrite Hout.
Qed.

(** *** The fuel of [extractCampaigns]

    The engine [advances] on a text when every match of the campaign pattern
    ends after the index it was started at, and inside the text.  The loop
    then stops before its fuel is used up: more fuel changes nothing. *)
Definition advances (text : string) : Prop :=
  ∀ lastIndex mr,
    exec_at campaign_regex text lastIndex = Some mr →
    lastIndex < index mr + matched_length mr ≤ String.length text.

Lemma extractCampaigns_loop_fuel
    (text : string) (fuel extra lastIndex : nat) (campaigns : list Value) :
  advances text →
  String.length text < lastIndex + fuel →
  extractCampaigns_loop (fuel + extra) text lastIndex campaigns
  = extractCampaigns_loop fuel text lastIndex campaigns.
Proof.
  intros Hadv. revert lastIndex campaigns.
  induction fuel as [|fuel IH]; intros lastIndex campaigns Hlen; simpl.
  - destruct extra as [|extra]; simpl; [done|].
    destruct (exec_at campaign_regex text lastIndex) as [mr|] eqn:E; [|done].
    apply Hadv in E. lia.
  - destruct (exec_at campaign_regex text lastIndex) as [mr|] eqn:E; [|done].
    destruct (campaign_of_match mr) as [campaign|]; simpl; [|done].
    apply IH. apply Hadv in E. lia.
Qed.

Lemma extractCampaigns_fuel (text : string) (extra : nat) :
  advances text →
  extractCampaigns_loop (S (String.length text) + extra) text 0 []
  = extractCampaigns text.
Proof.
  intros Hadv. unfold extractCampaigns.
  apply (extractCampaigns_loop_fuel text (S (String.length text))); [done | lia].
Qed.

End Facts.

End ProcessorFacts.

(** ** Reconciling the derived amounts *)

Module PostProcessFacts.
Import JSNumber JSValue PostProcess ValueFacts.

(** The amount a campaign adds to the sum: its [amount] when that is a
    number other than zero, and 0 otherwise. *)
Definition amount_or_zero (c : Value) : float :=
  match prop c "amount" with
  | VNum a => if truthy_number a then a else 0%float
  | _ => 0%float
  end.

(** A campaign object whose [amount] is a number, [null] or missing. *)
Definition priced (c : Value) : Prop :=
  (∃ props, c = VObj props) ∧
  match prop c "amount" with
  | VNum _ | VNull | VUndefined => True
  | _ => False
  end.

Section Facts.
Context `{Builtins}.

Lemma sumOfAmounts_priced (campaigns : list Value) (sum : float) :
  Forall priced campaigns →
  sumOfAmounts campaigns (VNum sum)
  = Ok (VNum (fold_left (λ s c, (s + amount_or_zero c)%float) campaigns sum)).
Proof.
  revert sum. induction campaigns as [|c campaigns IH]; intros sum Hall; [done|].
  apply Forall_cons in Hall as [[[props ->] Hamount] Hall].
  simpl. unfold amount_or_zero. simpl in *.
  destruct (lookup_prop props "amount") as [| | |a| | | |] eqn:E;
    try done; simpl; try apply (IH _ Hall).
  unfold or_; simpl. destruct (truthy_number a); apply (IH _ Hall).
Qed.

(** C6 (as amended).  In the post-processing of an item's extracted data:
    when the subtotal is absent or zero and the total and the tax are numbers
    other than zero, the subtotal becomes total - tax rounded to two decimals
    (1000 and 180 give 820); when the total is absent or zero and the
    subtotal and the tax are numbers other than zero, the total becomes
    subtotal + tax rounded to two decimals; when the subtotal is absent or
    zero and there are campaign line items, the subtotal becomes the sum of
    their amounts; the three steps run in this order; and when the tax is
    zero or absent the first two steps change nothing. *)
Theorem postProcess_derives_amounts (props : list (string * Value)) :
  (∀ total tax,
     truthy (prop (VObj props) "subtotal") = false →
     prop (VObj props) "totalAmount" = VNum total →
     prop (VObj props) "taxAmount" = VNum tax →
     truthy_number total = true → truthy_number tax = true →
     ∃ data', deriveSubtotal (VObj props) = Ok data' ∧
       data' = set (VObj props) "subtotal" (VNum (round2 (total - tax))) ∧
       prop data' "subtotal" = VNum (round2 (total - tax))) ∧
  (truthy (prop (VObj props) "subtotal") = false →
   prop (VObj props) "totalAmount" = VNum 1000 →
   prop (VObj props) "taxAmount" = VNum 180 →
   ∃ data', deriveSubtotal (VObj props) = Ok data' ∧
     prop data' "subtotal" = VNum 820) ∧
  (∀ subtotal tax,
     truthy (prop (VObj props) "totalAmount") = false →
     prop (VObj props) "subtotal" = VNum subtotal →
     prop (VObj props) "taxAmount" = VNum tax →
     truthy_number subtotal = true → truthy_number tax = true →
     ∃ data', deriveTotal (VObj props) = Ok data' ∧
       data' = set (VObj props) "totalAmount" (VNum (round2 (subtotal + tax))) ∧
       prop data' "totalAmount" = VNum (round2 (subtotal + tax))) ∧
  (∀ c items,
     truthy (prop (VObj props) "subtotal") = false →
     prop (VObj props) "campaigns" = VArr (c :: items) →
     Forall priced (c :: items) →
     ∃ data', subtotalFromCampaigns (VObj props) = Ok data' ∧
       prop data' "subtotal"
       = VNum (fold_left (λ s c, (s + amount_or_zero c)%float) (c :: items) 0%float)) ∧
  postProcess (VObj props)
  = (d1 ← deriveSubtotal (VObj props); d2 ← deriveTotal d1; subtotalFromCampaigns d2) ∧
  (truthy (prop (VObj props) "taxAmount") = false →
   deriveSubtotal (VObj props) = Ok (VObj props) ∧
   deriveTotal (VObj props) = Ok (VObj props)).
Proof.
  assert (Hsub : ∀ total tax,
     truthy (prop (VObj props) "subtotal") = false →
     prop (VObj props) "totalAmount" = VNum total →
     prop (VObj props) "taxAmount" = VNum tax →
     truthy_number total = true → truthy_number tax = true →
     ∃ data', deriveSubtotal (VObj props) = Ok data' ∧
       data' = set (VObj props) "subtotal" (VNum (round2 (total - tax))) ∧
       prop data' "subtotal" = VNum (round2 (total - tax))).
  { intros total tax Hs Ht Hx Htt Htx. unfold deriveSubtotal.
    rewrite Hs, Ht, Hx; simpl. rewrite Htt, Htx; simpl.
    eexists; split; [done|]. split; [done|]. apply lookup_update_same. }
  split; [exact Hsub|]. split.
  { intros Hs Ht Hx.
    destruct (Hsub 1000%float 180%float Hs Ht Hx eq_refl eq_refl)
      as (data' & Hd & _ & Hp).
    exists data'. split; [done|]. rewrite Hp. f_equal. }
  split.
  { intros subtotal tax Ht Hs Hx Hts Htx. unfold deriveTotal.
    rewrite Ht, Hs, Hx; simpl. rewrite Hts, Htx; simpl.
    eexists; split; [done|]. split; [done|]. apply lookup_update_same. }
  split.
  { intros c items Hs Hc Hall. unfold subtotalFromCampaigns.
    rewrite Hs, Hc; simpl.
    pose proof (sumOfAmounts_priced (c :: items) 0%float Hall) as Hsum.
    simpl in Hsum. rewrite Hsum; simpl.
    eexists; split; [done|]. apply lookup_update_same. }
  split; [done|].
  intros Hx. unfold deriveSubtotal, deriveTotal. rewrite Hx.
  by rewrite !andb_false_r.
Qed.

End Facts.

End PostProcessFacts.

(** ** Cost per click *)

Module CpcFacts.
Import JSString JSNumber JSValue RegExp PdfProcessor ValueFacts ProcessorFacts.

(** The cost per click as the specification words it: computed when both
    the clicks and the amount are above zero, [null] otherwise. *)
Definition spec_cpc (clicks amount : float) : Value :=
  if (0 <? clicks)%float && (0 <? amount)%float
  then VNum (round2 (amount / clicks)) else VNull.

(** A campaign that the fallback table parse builds. *)
Definition parsed_campaign (c : Value) : Prop :=
  ∃ name clicks amount,
    c = VObj [("campaignName", VStr name);
              ("clicks", VNum clicks);
              ("amount", VNum amount);
              ("cpc", if (0 <? clicks)%float
                      then VNum (round2 (amount / clicks)) else VNull)].

Section Facts.
Context `{RegExpEngine} `{Builtins}.

Lemma toNumber_VNum_truthy (x : float) :
  truthy_number x = true → toNumber (VNum x) = VNum x.
Proof.
  intros Hx. unfold toNumber, parseFloat_value.
  rewrite (truthy_number_not_zero _ Hx).
  unfold truthy_number in Hx. unfold isNaN.
  by destruct (PrimFloat.is_zero x), (PrimFloat.is_nan x).
Qed.

Lemma toNumber_falsy_number (x : float) :
  truthy_number x = false → truthy (toNumber (VNum x)) = false.
Proof.
  unfold toNumber, parseFloat_value, truthy_number, isNaN.
  destruct (PrimFloat.is_zero x) eqn:Hz; simpl; [done|].
  destruct (PrimFloat.is_nan x) eqn:Hn; simpl; [done|]. done.
Qed.

Lemma campaign_of_match_parsed (mr : MatchResult) (c : Value) :
  campaign_of_match mr = Ok c → parsed_campaign c.
Proof.
  unfold campaign_of_match.
  destruct (group mr 1) as [m1|]; [|done].
  destruct (group mr 3) as [m3|]; [|done].
  intros [= <-]. by eexists _, _, _.
Qed.

Lemma extractCampaigns_loop_parsed (fuel : nat) (text : string)
    (lastIndex : nat) (acc out : list Value) :
  Forall parsed_campaign acc →
  extractCampaigns_loop fuel text lastIndex acc = Ok out →
  Forall parsed_campaign out.
Proof.
  revert lastIndex acc.
  induction fuel as [|fuel IH]; intros lastIndex acc Hacc; simpl.
  - by intros [= <-].
  - destruct (exec_at campaign_regex text lastIndex) as [mr|]; [|by intros [= <-]].
    intros Hloop. apply bind_Ok_inv in Hloop as (c & Hc & Hloop).
    eapply IH; [|exact Hloop].
    apply Forall_app; split; [done|].
    apply Forall_singleton. by eapply campaign_of_match_parsed.
Qed.

(** C7 (as amended).  A campaign that [validateAndFormatData] formats for
    the google_ads platform gets, as its cost per click, amount / clicks
    rounded to two decimals when its clicks and its amount are both numbers
    other than zero (in particular when both are above zero), and [null] when
    either is zero or not a number; for another platform no cost per click is
    set.  A campaign that the fallback table parse builds gets amount / clicks
    rounded to two decimals when its clicks are above zero, and [null]
    otherwise. *)
Theorem cpc_derivation (props : list (string * Value)) (text : string) :
  (∃ out, formatCampaign "google_ads" (VObj props) = Ok out ∧
     prop out "cpc" =
       match toNumber (prop (VObj props) "clicks"),
             toNumber (prop (VObj props) "amount") with
       | VNum clicks, VNum amount =>
           if truthy_number clicks && truthy_number amount
           then VNum (round2 (amount / clicks)) else VNull
       | _, _ => VNull
       end) ∧
  (∀ clicks amount,
     prop (VObj props) "clicks" = VNum clicks →
     prop (VObj props) "amount" = VNum amount →
     (0 <? clicks)%float = true → (0 <? amount)%float = true →
     ∃ out, formatCampaign "google_ads" (VObj props) = Ok out ∧
       prop out "cpc" = VNum (round2 (amount / clicks))) ∧
  (∀ platform out,
     platform ≠ "google_ads" →
     formatCampaign platform (VObj props) = Ok out →
     prop out "cpc" = VUndefined) ∧
  match extractCampaigns text with
  | Ok campaigns => Forall parsed_campaign campaigns
  | Throw _ => True
  end.
Proof.
  assert (Hgoogle : ∃ out, formatCampaign "google_ads" (VObj props) = Ok out ∧
     prop out "cpc" =
       match toNumber (prop (VObj props) "clicks"),
             toNumber (prop (VObj props) "amount") with
       | VNum clicks, VNum amount =>
           if truthy_number clicks && truthy_number amount
           then VNum (round2 (amount / clicks)) else VNull
       | _, _ => VNull
       end).
  { unfold formatCampaign; simpl.
    eexists; split; [done|]. simpl.
    destruct (toNumber (lookup_prop props "clicks")) as [| | |k| | | |] eqn:Ek;
      try (by pose proof (toNumber_number_or_null (lookup_prop props "clicks")) as Hn;
              rewrite Ek in Hn);
      destruct (toNumber (lookup_prop props "amount")) as [| | |a| | | |] eqn:Ea;
      try (by pose proof (toNumber_number_or_null (lookup_prop props "amount")) as Hn;
              rewrite Ea in Hn);
      unfold and_; simpl; try done.
    - destruct (truthy_number k) eqn:Hk; simpl; by rewrite ?Hk.
    - destruct (truthy_number k) eqn:Hk, (truthy_number a) eqn:Ha; simpl;
        by rewrite ?Hk, ?Ha. }
  split; [exact Hgoogle|]. split.
  { intros clicks amount Hk Ha Hkpos Hapos.
    destruct Hgoogle as (out & Hout & Hcpc). exists out. split; [done|].
    rewrite Hcpc, Hk, Ha.
    rewrite !toNumber_VNum_truthy by by apply positive_truthy.
    by rewrite !positive_truthy. }
  split.
  { intros platform out Hp. unfold formatCampaign; simpl.
    rewrite (bool_decide_eq_false_2 _ Hp); simpl.
    destruct (bool_decide (platform = "meta_ads")); intros [= <-]; done. }
  destruct (extractCampaigns text) as [campaigns|] eqn:E; [|done].
  by eapply (extractCampaigns_loop_parsed _ _ _ []).
Qed.

End Facts.

End CpcFacts.

(** ** Field extraction on sample data *)

Module ProcessorExamples.
Import JSString JSNumber JSValue RegExp MiniRegExp PdfProcessor PostProcess.
Import ProcessorFacts PostProcessFacts CpcFacts ProcessorSamples.

(** C2.  When the call to the generative service fails, the extractor
    returns what [basicExtraction] found without passing it through
    [validateAndFormatData]: on the sample invoice the date field is the text
    "31 Foo 2024", neither a date nor [null], while the same text, after an
    answer that is not JSON, yields [null]. *)
Theorem extractInvoiceData_service_failure_raw_date :
  extractInvoiceData failing_llm undated_invoice_text "google_ads"
  = Ok (VObj [("invoiceNumber", VStr "5123456789");
              ("invoiceDate", VStr "31 Foo 2024");
              ("accountId", VNull);
              ("accountName", VStr "Acme Retail");
              ("location", VNull);
              ("subtotal", VNull);
              ("taxAmount", VNull);
              ("totalAmount", VNum (parseFloat "1234.56"));
              ("currency", VStr "INR");
              ("campaigns",
               VArr [VObj [("campaignName", VStr "Brand search");
                           ("clicks", VNum 12);
                           ("amount", VNum 120);
                           ("cpc", VNum 10)]])]) ∧
  date_or_null (VStr "31 Foo 2024") = false ∧
  (∃ out, extractInvoiceData chatty_llm undated_invoice_text "google_ads" = Ok out ∧
     prop out "invoiceDate" = VNull).
Proof.
  split; [vm_compute; reflexivity|]. split; [reflexivity|].
  eexists. split; [vm_compute; reflexivity | reflexivity].
Qed.

Example fallback_reads_invoice_number_and_total :
  ∃ out, basicExtraction "Invoice number: 123456 Total in INR ₹1,234.56" "google_ads"
         = Ok out ∧
    prop out "invoiceNumber" = VStr "123456" ∧
    prop out "totalAmount" = VNum 1234.56.
Proof. eexists. split; [vm_compute; reflexivity|]. by split. Qed.

(** C6, as the claim states it, fails: on an invoice with a total, a tax of
    zero and no subtotal, the post-processing leaves the subtotal absent,
    where the claim derives total - tax. *)
Lemma postProcess_untaxed_invoice :
  deriveSubtotal untaxed_data = Ok untaxed_data ∧
  postProcess untaxed_data = Ok untaxed_data ∧
  prop untaxed_data "subtotal" = VNull ∧
  prop untaxed_data "taxAmount" = VNum 0 ∧
  prop (spec_deriveSubtotal untaxed_data) "subtotal" = VNum 1000.
Proof. repeat split; vm_compute; reflexivity. Qed.

Example postProcess_taxed_invoice :
  ∃ data', postProcess taxed_data = Ok data' ∧
    prop data' "subtotal" = VNum 820 ∧
    prop data' "totalAmount" = VNum 1000.
Proof. eexists. split; [vm_compute; reflexivity|]. by split. Qed.

(** C7, as the claim states it, fails: a validated campaign with a negative
    click count gets a (negative) cost per click, and a parsed campaign with
    clicks and an amount of zero gets a cost per click of zero, where the
    claim makes both [null]. *)
Lemma cpc_negative_clicks_and_zero_amount :
  formatCampaign "google_ads" negative_clicks_campaign
  = Ok (VObj [("campaignName", VStr "Brand search");
              ("amount", VNum 10);
              ("clicks", VNum (-5));
              ("cpc", VNum (-2))]) ∧
  spec_cpc (-5) 10 = VNull ∧
  extractCampaigns "Brand 12 Clicks ₹0.00"
  = Ok [VObj [("campaignName", VStr "Brand");
              ("clicks", VNum 12);
              ("amount", VNum 0);
              ("cpc", VNum 0)]] ∧
  spec_cpc 12 0 = VNull.
Proof. repeat split; vm_compute; reflexivity. Qed.

Example cpc_of_parsed_campaigns :
  extractCampaigns
    ("Brand search 12 Clicks ₹120.00" +:+ String "010" "Generic 0 clicks 0.00")
  = Ok [VObj [("campaignName", VStr "Brand search");
              ("clicks", VNum 12);
              ("amount", VNum 120);
              ("cpc", VNum 10)];
        VObj [("campaignName", VStr "Generic");
              ("clicks", VNum 0);
              ("amount", VNum 0);
              ("cpc", VNull)]].
Proof. vm_compute; reflexivity. Qed.

(** The executable engine advances on a text if it does so from every
    index of the text; past the end of the text it finds nothing. *)
Definition advances_check (text : string) : bool :=
  forallb
    (λ lastIndex,
       match exec_at campaign_regex text lastIndex with
       | Some mr =>
           (lastIndex <? index mr + matched_length mr)
           && (index mr + matched_length mr <=? String.length text)
       | None => true
       end)
    (seq 0 (S (String.length text))).

Lemma length_list_ascii_of_string (s : string) :
  length (list_ascii_of_string s) = String.length s.
Proof. induction s as [|c s IH]; simpl; [done | by rewrite IH]. Qed.

Lemma advances_check_sound (text : string) :
  advances_check text = true → advances text.
Proof.
  intros Hcheck lastIndex mr E.
  destruct (decide (lastIndex ≤ String.length text)) as [Hle|Hgt].
  - unfold advances_check in Hcheck.
    rewrite forallb_forall in Hcheck.
    specialize (Hcheck lastIndex). rewrite E in Hcheck.
    destruct (andb_prop _ _ (Hcheck ltac:(apply in_seq; lia))) as [Hlt Hend].
    apply Nat.ltb_lt in Hlt. apply Nat.leb_le in Hend. lia.
  - exfalso. change (exec campaign_regex text lastIndex = Some mr) in E.
    unfold exec in E. destruct (parse _); try done.
    rewrite length_list_ascii_of_string in E.
    by rewrite (proj2 (Nat.ltb_lt _ _)) in E by lia.
Qed.

(** On the sample invoice the loop of [extractCampaigns] ends by itself:
    any amount of further fuel gives the same campaigns. *)
Example extractCampaigns_sample_fuel (extra : nat) :
  extractCampaigns_loop (S (String.length undated_invoice_text) + extra)
    undated_invoice_text 0 []
  = extractCampaigns undated_invoice_text.
Proof. apply extractCampaigns_fuel, advances_check_sound. by vm_compute. Qed.

End ProcessorExamples.

(** ** Expanding archives *)

Module ArchiveFacts.
Import JSString JSStringFacts JSValue Path FileSystem ArchiveExpander.



Lemma take_while_app_stop (f : ascii → bool) (cs rest : list ascii) (c : ascii) :
  forallb f cs = true → f c = false →
  take_while f (cs ++ c :: rest) = cs ∧ drop_while f (cs ++ c :: rest) = c :: rest.
Proof.
  intros Hcs Hc. induction cs as [|x cs IH]; simpl in *.
  - by rewrite Hc.
  - apply andb_true_iff in Hcs as [-> Hcs]. destruct (IH Hcs) as [-> ->]. done.
Qed.

Lemma take_while_forallb (f : ascii → bool) (cs : list ascii) :
  forallb f (take_while f cs) = true.
Proof.
  induction cs as [|c cs IH]; simpl; [done|].
  destruct (f c) eqn:E; simpl; [by rewrite E|done].
Qed.


Lemma list_of_string_app (a b : string) :
  list_ascii_of_string (a +:+ b) = list_ascii_of_string a ++ list_ascii_of_string b.
Proof. induction a as [|x a IH]; simpl; [done | by rewrite IH]. Qed.



Lemma toLowerCase_string_of_list (cs : list ascii) :
  toLowerCase (string_of_list_ascii cs) = string_of_list_ascii (map lower_char cs).
Proof. induction cs as [|c cs IH]; simpl; [done | by rewrite IH]. Qed.


Section Facts.
Variable zip_open : string → Res (list Entry).
Variable random : nat → nat.






End Facts.

End ArchiveFacts.

(** ** The batch coordinator *)

Module CoordinatorFacts.
Import JSValue ArchiveExpander PostProcess BatchCoordinator ValueFacts.

Definition terminal (p : PC) : bool :=
  match p with Responded _ | Unhandled _ => true | _ => false end.

(** No item of the window sits in its own pause loop. *)
Definition none_sleeping (s : Run) : Prop :=
  Forall (λ it : File * ItemState, it.2 ≠ Sleeping) (window s).

(** The states in which no window can be dispatched any more. *)
Definition stopped (s : Run) : Prop :=
  cancelled (uploadState s) = true ∨ terminal (pc s) = true.

Section Facts.
Context `{Builtins}.

Lemma started_emit (s : Run) (n : Notification) :
  started (emit s n) = started s + (if is_processing_notice n then 1 else 0).
Proof.
  unfold started; simpl. rewrite List.filter_app, length_app; simpl.
  by destruct (is_processing_notice n).
Qed.

Lemma summary_facts (s : Run) :
  terminal (pc (summary s)) = true ∧
  started (summary s) = started s ∧
  results (summary s) = results s ∧
  window (summary s) = window s ∧
  uploadState (summary s) = None ∧
  log (summary s)
  = log s ++ [Complete (count_successful (results s)) (count_failed (results s))
                (length (duplicates s)) (totalFiles s)].
Proof.
  unfold summary, outer_catch; simpl.
  destruct (response_entries (results s)); simpl;
    repeat split; try done;
    unfold started; simpl; rewrite List.filter_app, length_app; simpl; lia.
Qed.

Lemma item_fails_facts (s : Run) (file : File) (e : Error) :
  let '(s', it) := item_fails s file e in
  started s' = started s ∧ pc s' = pc s ∧ window s' = window s ∧
  cancelled (uploadState s') = cancelled (uploadState s) ∧
  paused (uploadState s') = paused (uploadState s) ∧
  results s' = results s ∧ duplicates s' = duplicates s ∧
  (∃ r, it = Settled r).
Proof.
  unfold item_fails. destruct (uploadState s) as [u|] eqn:E; simpl;
    rewrite ?E; simpl; repeat split; eauto;
    unfold started; simpl; rewrite ?List.filter_app, ?length_app; simpl; lia.
Qed.

Lemma item_settles_facts (s : Run) (file : File) (o : ItemOutcome) :
  let '(s', it) := item_settles s file o in
  started s' = started s ∧ pc s' = pc s ∧ window s' = window s ∧
  cancelled (uploadState s') = cancelled (uploadState s) ∧
  paused (uploadState s') = paused (uploadState s) ∧
  results s' = results s ∧ duplicates s' = duplicates s ∧
  (∃ r, it = Settled r).
Proof.
  destruct o as [reason existing|platform data url|e]; simpl;
    try apply item_fails_facts;
    destruct (uploadState s) as [u|] eqn:E; simpl;
    unfold item_fails; simpl; rewrite ?E; simpl; repeat split; eauto;
    rewrite ?E; simpl; try done;
    unfold started; simpl; rewrite ?List.filter_app, ?length_app; simpl; lia.
Qed.

(** Started while the run is neither paused nor cancelled, the items of a
    window all begin their work. *)
Lemma start_items_running (batch : list File) (s : Run) :
  cancelled (uploadState s) = false → paused (uploadState s) = false →
  window (start_items s batch) = window s ++ map (λ f, (f, Processing)) batch ∧
  uploadState (start_items s batch) = uploadState s ∧
  pc (start_items s batch) = pc s ∧
  results (start_items s batch) = results s ∧
  duplicates (start_items s batch) = duplicates s ∧
  started (start_items s batch) = started s + length batch.
Proof.
  revert s. induction batch as [|file batch IH]; intros s Hc Hp; simpl.
  - rewrite app_nil_r. repeat split; lia.
  - unfold item_starts. rewrite Hc, Hp; simpl.
    destruct (IH (with_window (emit s (Progress (originalname file) "processing"))
                    (window s ++ [(file, Processing)])) Hc Hp)
      as (-> & -> & -> & -> & -> & ->).
    simpl. rewrite <- app_assoc. repeat split.
    unfold started; simpl. rewrite List.filter_app, length_app; simpl. lia.
Qed.

Lemma dispatch_facts (s : Run) :
  cancelled (uploadState s) = false → paused (uploadState s) = false →
  pc (dispatch s) = AwaitingWindow ∧
  window (dispatch s)
  = map (λ f, (f, Processing)) (take batchSize (drop (i s) (allFiles s))) ∧
  uploadState (dispatch s) = uploadState s ∧
  results (dispatch s) = results s ∧
  started (dispatch s)
  = started s + length (take batchSize (drop (i s) (allFiles s))).
Proof.
  intros Hc Hp. unfold dispatch.
  destruct (start_items_running (take batchSize (drop (i s) (allFiles s)))
              (with_window s []) Hc Hp) as (Hw & Hu & _ & Hr & _ & Hs).
  split; [done|]. split; [exact Hw|]. split; [exact Hu|].
  split; [exact Hr | exact Hs].
Qed.

Lemma none_sleeping_processing (batch : list File) :
  Forall (λ it : File * ItemState, it.2 ≠ Sleeping)
    (map (λ f, (f, Processing)) batch).
Proof. induction batch; simpl; by constructor. Qed.

(** Once the run is cancelled, each entry point of the loop goes straight
    to the summary. *)
Lemma enter_loop_cancelled (s : Run) :
  cancelled (uploadState s) = true → enter_loop s = summary s.
Proof. unfold enter_loop. intros ->. by rewrite andb_false_r. Qed.

Lemma pause_check_cancelled (s : Run) :
  cancelled (uploadState s) = true → pause_check s = summary s.
Proof.
  unfold pause_check, after_pause. intros ->. by rewrite andb_false_r.
Qed.

Lemma next_window_cancelled (s : Run) :
  cancelled (uploadState s) = true →
  terminal (pc (next_window s)) = true ∧
  started (next_window s) = started s ∧
  results (next_window s) = results s ∧
  window (next_window s) = window s.
Proof.
  intros Hc. unfold next_window. rewrite enter_loop_cancelled by done.
  match goal with |- context [summary ?t] =>
    destruct (summary_facts t) as (? & ? & ? & ? & _) end.
  done.
Qed.

Lemma window_done_cancelled (s : Run) (rs : list Value) :
  cancelled (uploadState s) = true →
  terminal (pc (window_done s rs)) = true ∧
  started (window_done s rs) = started s ∧
  (∀ rs' dups, process_results rs = Ok (rs', dups) →
     results (window_done s rs) = results s ++ rs' ∧
     window (window_done s rs) = []).
Proof.
  intros Hc. unfold window_done.
  destruct (process_results rs) as [[rs' dups]|e].
  - simpl uploadState. rewrite Hc, andb_false_r.
    match goal with |- context [next_window ?t] =>
      destruct (next_window_cancelled t Hc) as (Ht & Hst & Hr & Hw) end.
    split; [done|]. split; [done|].
    intros rs'' dups'' [= <- <-]. by split.
  - split; [done|]. split; [done|]. by intros ? ? [=].
Qed.

Lemma entry_points_keep_awake (s : Run) :
  none_sleeping s →
  none_sleeping (summary s) ∧ none_sleeping (pause_check s) ∧
  none_sleeping (enter_loop s).
Proof.
  intros Hs.
  assert (Hsum : ∀ t, none_sleeping t → none_sleeping (summary t)).
  { intros t Ht. unfold none_sleeping.
    by destruct (summary_facts t) as (_ & _ & _ & -> & _). }
  assert (Hpause : none_sleeping (pause_check s)).
  { unfold pause_check, after_pause.
    destruct (paused (uploadState s)) eqn:Hp,
             (cancelled (uploadState s)) eqn:Hc; simpl; auto.
    unfold none_sleeping.
    destruct (dispatch_facts s Hc Hp) as (_ & -> & _).
    apply none_sleeping_processing. }
  split; [auto|]. split; [done|].
  unfold enter_loop. destruct (_ && _); auto.
Qed.

Lemma step_keeps_awake (s : Run) (ev : Event) :
  none_sleeping s → none_sleeping (step s ev).
Proof.
  intros Hs. destruct ev as [|k|k o| | |]; simpl.
  - destruct (pc s) eqn:Hpc.
    + by apply entry_points_keep_awake.
    + by apply entry_points_keep_awake.
    + destruct (batchResults_of (window s)) as [rs|]; [|done].
      unfold window_done.
      destruct (process_results rs) as [[rs' dups]|e]; [|done].
      match goal with |- context [if ?c then _ else _] => destruct c end.
      * by constructor.
      * unfold next_window. apply entry_points_keep_awake. by constructor.
    + unfold next_window. by apply entry_points_keep_awake.
    + done.
    + done.
  - destruct (window s !! k) as [[file []]|] eqn:Hk; try done.
    unfold none_sleeping in Hs. rewrite Forall_lookup in Hs.
    by destruct (Hs _ _ Hk).
  - destruct (window s !! k) as [[file []]|] eqn:Hk; try done.
    pose proof (item_settles_facts s file o) as Hfacts.
    destruct (item_settles s file o) as [s' it].
    destruct Hfacts as (_ & _ & Hw & _ & _ & _ & _ & r & ->).
    unfold none_sleeping, set_item; simpl. rewrite Hw.
    apply Forall_insert; done.
  - unfold set_flags. by destruct (uploadState s).
  - unfold set_flags. by destruct (uploadState s).
  - unfold set_flags. by destruct (uploadState s).
Qed.

(** A stopped run stays stopped and starts no item. *)
Lemma step_stopped (s : Run) (ev : Event) :
  none_sleeping s → stopped s →
  stopped (step s ev) ∧ started (step s ev) = started s.
Proof.
  intros Hs Hstop. destruct ev as [|k|k o| | |]; simpl.
  - destruct (pc s) eqn:Hpc;
      [| | | |split; [right; by rewrite Hpc|done]..].
    all: destruct Hstop as [Hc | Ht]; [|by rewrite Hpc in Ht].
    + rewrite enter_loop_cancelled by done.
      destruct (summary_facts s) as (? & ? & _). split; [by right|done].
    + rewrite pause_check_cancelled by done.
      destruct (summary_facts s) as (? & ? & _). split; [by right|done].
    + destruct (batchResults_of (window s)) as [rs|]; [|by split; [left|]].
      destruct (window_done_cancelled s rs Hc) as (? & ? & _).
      split; [by right|done].
    + destruct (next_window_cancelled s Hc) as (? & ? & _).
      split; [by right|done].
  - destruct (window s !! k) as [[file []]|] eqn:Hk; try done.
    unfold none_sleeping in Hs. rewrite Forall_lookup in Hs.
    by destruct (Hs _ _ Hk).
  - destruct (window s !! k) as [[file []]|] eqn:Hk; try done.
    pose proof (item_settles_facts s file o) as Hfacts.
    destruct (item_settles s file o) as [s' it].
    destruct Hfacts as (Hst & Hpc & _ & Hc & _).
    unfold stopped, set_item; simpl. by rewrite Hc, Hpc.
  - unfold set_flags, stopped.
    destruct (uploadState s) as [u|] eqn:E; simpl; [|done].
    split; [by left|]. unfold started; simpl.
    rewrite List.filter_app, length_app; simpl. lia.
  - unfold set_flags, stopped in *.
    destruct (uploadState s) as [u|] eqn:E; simpl in *;
      [|rewrite E; split; [exact Hstop|reflexivity]].
    split; [done|]. unfold started; simpl.
    rewrite List.filter_app, length_app; simpl. lia.
  - unfold set_flags, stopped in *.
    destruct (uploadState s) as [u|] eqn:E; simpl in *;
      [|rewrite E; split; [exact Hstop|reflexivity]].
    split; [done|]. unfold started; simpl.
    rewrite List.filter_app, length_app; simpl. lia.
Qed.

Lemma run_keeps_awake (events : list Event) (s : Run) :
  none_sleeping s → none_sleeping (run s events).
Proof.
  revert s. induction events as [|ev events IH]; intros s Hs; [done|].
  simpl. apply IH. by apply step_keeps_awake.
Qed.

Lemma run_stopped (events : list Event) (s : Run) :
  none_sleeping s → stopped s →
  stopped (run s events) ∧ started (run s events) = started s.
Proof.
  revert s. induction events as [|ev events IH]; intros s Hs Hstop; [done|].
  simpl. destruct (step_stopped s ev Hs Hstop) as [Hstop' Hst].
  destruct (IH (step s ev) (step_keeps_awake _ _ Hs) Hstop') as [? ->].
  done.
Qed.

Lemma start_run_awake (x : Expansion) (flags : UploadState) :
  none_sleeping (start_run x flags).
Proof.
  unfold start_run, none_sleeping.
  destruct (ArchiveExpander.allFiles x); simpl; constructor.
Qed.

Lemma mapM_settled_length (w : list (File * ItemState)) (rs : list Value) :
  batchResults_of w = Some rs → length rs = length w.
Proof.
  unfold batchResults_of. intros Hm. symmetry. by eapply length_mapM.
Qed.

Lemma process_results_length (rs rs' dups : list Value) :
  process_results rs = Ok (rs', dups) → length rs' = length rs.
Proof.
  revert rs' dups. induction rs as [|r rs IH]; intros rs' dups; simpl.
  - by intros [= <- <-].
  - destruct (process_result r) as [[r1 d1]|]; simpl; [|done].
    destruct (process_results rs) as [[rs1 d2]|]; simpl; [|done].
    intros [= <- <-]. simpl. f_equal. by eapply IH.
Qed.

(** Entries of [results] that [Promise.allSettled] made are all counted:
    each is a success, a failure or a duplicate. *)
Lemma settled_entries_accounted (rs : list Value) :
  Forall (λ r, is_fulfilled r = true ∨ is_rejected r = true) rs →
  count_successful rs + count_failed rs
  + length (List.filter (λ r, is_fulfilled r && is_duplicate r) rs)
  = length rs.
Proof.
  unfold count_successful, count_failed.
  induction 1 as [|r rs Hr _ IH]; simpl; [done|].
  assert (Hex : is_fulfilled r = true → is_rejected r = false).
  { unfold is_fulfilled, is_rejected, is_str.
    destruct (prop r "status"); try done.
    intros ->%bool_decide_eq_true. done. }
  destruct (is_fulfilled r) eqn:Hf; simpl.
  - rewrite (Hex eq_refl). destruct (is_duplicate r); simpl; lia.
  - destruct Hr as [Hr|Hr]; [congruence|]. rewrite Hr. simpl. lia.
Qed.

(** *** Runs that are never cancelled

    The invariant of the loop: how many results there are at each point, and
    that [results] holds nothing but settled entries, of which the
    duplicates are those pushed to [duplicates]. *)

#[local] Arguments Nat.min : simpl never.

Definition settled_ok (r : Value) : Prop :=
  is_fulfilled r = true ∨ is_rejected r = true.

Definition count_duplicates (rs : list Value) : nat :=
  length (List.filter (λ r, is_fulfilled r && is_duplicate r) rs).

Definition item_ok (it : File * ItemState) : Prop :=
  match it.2 with
  | Settled r => settled_ok r
  | _ => True
  end.

Definition healthy (n : nat) (s : Run) : Prop :=
  length (allFiles s) = n ∧
  cancelled (uploadState s) = false ∧
  Forall settled_ok (results s) ∧
  length (duplicates s) = count_duplicates (results s) ∧
  Forall item_ok (window s) ∧
  match pc s with
  | LoopHead => length (results s) = i s `min` n
  | PauseLoop => length (results s) = i s ∧ i s < n
  | AwaitingWindow =>
      length (results s) = i s ∧ i s < n ∧
      length (window s) = batchSize `min` (n - i s)
  | BetweenWindows => length (results s) = i s + batchSize ∧ i s + batchSize < n
  | Responded (Json successful failed dups _ entries) =>
      successful + failed + dups = length entries ∧ length entries = n
  | Responded (Status _ _) => n = 0
  | Unhandled _ => True
  end.

Lemma response_entries_length (rs entries : list Value) :
  response_entries rs = Ok entries → length entries = length rs.
Proof.
  revert entries. induction rs as [|r rs IH]; intros entries; simpl.
  - by intros [= <-].
  - destruct (response_entry r); simpl; [|done].
    destruct (response_entries rs); simpl; [|done].
    intros [= <-]. simpl. f_equal. by apply IH.
Qed.

Lemma healthy_summary (n : nat) (s : Run) :
  length (allFiles s) = n →
  Forall settled_ok (results s) →
  length (duplicates s) = count_duplicates (results s) →
  Forall item_ok (window s) →
  length (results s) = n →
  healthy n (summary s).
Proof.
  intros Hn Hres Hdup Hwin Hlen.
  pose proof (settled_entries_accounted _ Hres) as Hacc.
  unfold healthy, summary, outer_catch. simpl.
  destruct (response_entries (results s)) as [entries|e] eqn:E; simpl;
    repeat split; try done.
  - apply response_entries_length in E. rewrite Hdup, E.
    unfold count_duplicates. done.
  - apply response_entries_length in E. by rewrite E.
Qed.

Lemma start_items_frame (batch : list File) (s : Run) :
  allFiles (start_items s batch) = allFiles s ∧ i (start_items s batch) = i s.
Proof.
  revert s. induction batch as [|file batch IH]; intros s; simpl; [done|].
  unfold item_starts, item_begins, item_fails.
  destruct (cancelled (uploadState s)); [destruct (uploadState s)|];
    [| |destruct (_ && _)];
    match goal with |- context [start_items ?t batch] => destruct (IH t) as [-> ->] end;
    done.
Qed.

Lemma healthy_dispatch (n : nat) (s : Run) :
  length (allFiles s) = n →
  cancelled (uploadState s) = false → paused (uploadState s) = false →
  Forall settled_ok (results s) →
  length (duplicates s) = count_duplicates (results s) →
  length (results s) = i s → i s < n →
  healthy n (dispatch s).
Proof.
  intros Hn Hc Hp Hres Hdup Hlen Hi.
  destruct (start_items_running (take batchSize (drop (i s) (allFiles s)))
              (with_window s []) Hc Hp) as (Hw & Hu & _ & Hr & Hd & _).
  unfold healthy, dispatch; simpl.
  destruct (start_items_frame (take batchSize (drop (i s) (allFiles s)))
              (with_window s [])) as [Hall Hidx].
  rewrite Hall, Hu, Hr, Hd, Hw, Hidx. simpl.
  repeat split; try done.
  - clear. induction (take batchSize (drop (i s) (allFiles s))); simpl; by constructor.
  - rewrite length_map, length_take, length_drop. lia.
Qed.

Lemma healthy_pause_check (n : nat) (s : Run) :
  length (allFiles s) = n →
  cancelled (uploadState s) = false →
  Forall settled_ok (results s) →
  length (duplicates s) = count_duplicates (results s) →
  Forall item_ok (window s) →
  length (results s) = i s → i s < n →
  healthy n (pause_check s).
Proof.
  intros Hn Hc Hres Hdup Hwin Hlen Hi. unfold pause_check, after_pause.
  rewrite Hc. destruct (paused (uploadState s)) eqn:Hp; simpl.
  - unfold healthy; simpl. by repeat split.
  - by apply healthy_dispatch.
Qed.

Lemma healthy_enter_loop (n : nat) (s : Run) :
  length (allFiles s) = n →
  cancelled (uploadState s) = false →
  Forall settled_ok (results s) →
  length (duplicates s) = count_duplicates (results s) →
  Forall item_ok (window s) →
  length (results s) = i s `min` n →
  healthy n (enter_loop s).
Proof.
  intros Hn Hc Hres Hdup Hwin Hlen. unfold enter_loop. rewrite Hc, Hn; simpl.
  destruct (Nat.ltb_spec (i s) n); simpl.
  - apply healthy_pause_check; try done; lia.
  - apply healthy_summary; try done; lia.
Qed.

Lemma process_result_ok (r r' : Value) (dups : list Value) :
  settled_ok r → process_result r = Ok (r', dups) →
  settled_ok r' ∧
  length dups = count_duplicates [r'].
Proof.
  intros Hr. unfold process_result, count_duplicates. simpl.
  assert (Hex : is_fulfilled r = false → is_fulfilled r && is_duplicate r = false)
    by (by intros ->).
  destruct (is_fulfilled r) eqn:Hf.
  - destruct (is_duplicate r) eqn:Hd.
    + intros [= <- <-]. rewrite Hf, Hd. by split.
    + destruct (truthy _).
      * destruct (postProcess _) as [data|]; simpl; [|done].
        intros [= <- <-].
        destruct r as [| | | | | | |props]; try done.
        assert (Hs : prop (set (VObj props) "value"
                       (set (prop (VObj props) "value") "extractedData" data)) "status"
                     = prop (VObj props) "status").
        { by apply prop_set_other. }
        assert (Hv : is_duplicate (set (VObj props) "value"
                       (set (prop (VObj props) "value") "extractedData" data))
                     = is_duplicate (VObj props)).
        { unfold is_duplicate. rewrite prop_set_same.
          destruct (prop (VObj props) "value") as [| | | | | | |vprops]; try done.
          by rewrite prop_set_other. }
        unfold is_fulfilled, settled_ok, is_fulfilled, is_rejected in *.
        rewrite Hv, Hd, Hs, Hf. split; [by left|done].
      * intros [= <- <-]. rewrite Hf, Hd. by split.
  - intros [= <- <-]. rewrite Hf. by split.
Qed.

Lemma count_duplicates_app (a b : list Value) :
  count_duplicates (a ++ b) = count_duplicates a + count_duplicates b.
Proof. unfold count_duplicates. by rewrite List.filter_app, length_app. Qed.

Lemma process_results_ok (rs rs' dups : list Value) :
  Forall settled_ok rs → process_results rs = Ok (rs', dups) →
  Forall settled_ok rs' ∧ length dups = count_duplicates rs'.
Proof.
  revert rs' dups. induction rs as [|r rs IH]; intros rs' dups Hall; simpl.
  - by intros [= <- <-].
  - apply Forall_cons in Hall as [Hr Hall].
    destruct (process_result r) as [[r1 d1]|] eqn:E1; simpl; [|done].
    destruct (process_results rs) as [[rs1 d2]|] eqn:E2; simpl; [|done].
    intros [= <- <-].
    destruct (process_result_ok _ _ _ Hr E1) as [Hr1 Hd1].
    destruct (IH _ _ Hall eq_refl) as [Hrs1 Hd2].
    split; [by constructor|].
    change (r1 :: rs1) with ([r1] ++ rs1).
    rewrite count_duplicates_app, length_app. lia.
Qed.

Lemma batchResults_ok (w : list (File * ItemState)) (rs : list Value) :
  Forall item_ok w → batchResults_of w = Some rs → Forall settled_ok rs.
Proof.
  unfold batchResults_of. intros Hall Hm%mapM_Some.
  induction Hm as [|[f it] r w rs Hx _ IH]; [constructor|].
  apply Forall_cons in Hall as [Hit Hall].
  constructor; [|by apply IH].
  unfold settled_entry, item_ok in *; simpl in *.
  destruct it; try done. by injection Hx as <-.
Qed.

Lemma healthy_step (n : nat) (s : Run) (ev : Event) :
  ev ≠ CancelRequest → healthy n s → healthy n (step s ev).
Proof.
  intros Hev (Hn & Hc & Hres & Hdup & Hwin & Hpc).
  destruct ev as [|k|k o| | |]; simpl; try done.
  - destruct (pc s) eqn:Epc.
    + by apply healthy_enter_loop.
    + destruct Hpc. by apply healthy_pause_check.
    + destruct Hpc as (Hlen & Hi & Hw).
      destruct (batchResults_of (window s)) as [rs|] eqn:Ers;
        [|unfold healthy; by rewrite Epc].
      pose proof (batchResults_ok _ _ Hwin Ers) as Hrs.
      pose proof (mapM_settled_length _ _ Ers) as Hlrs.
      unfold window_done.
      destruct (process_results rs) as [[rs' dups]|e] eqn:Eproc;
        [|unfold healthy, outer_catch; simpl; by repeat split].
      destruct (process_results_ok _ _ _ Hrs Eproc) as [Hrs' Hdups].
      pose proof (process_results_length _ _ _ Eproc) as Hlrs'.
      simpl. rewrite Hc, Hn; simpl.
      assert (Hres' : Forall settled_ok (results s ++ rs')) by by apply Forall_app.
      assert (Hdup' : length (duplicates s ++ dups)
                      = count_duplicates (results s ++ rs')).
      { rewrite count_duplicates_app, length_app. lia. }
      destruct (Nat.ltb_spec (i s + batchSize) n); simpl.
      * unfold healthy; simpl. repeat split; try done.
        rewrite length_app. lia.
      * unfold next_window. apply healthy_enter_loop; simpl; try done.
        rewrite length_app. lia.
    + destruct Hpc as [Hlen Hi]. unfold next_window.
      apply healthy_enter_loop; simpl; try done. lia.
    + unfold healthy. by rewrite Epc.
    + unfold healthy. by rewrite Epc.
  - destruct (window s !! k) as [[file []]|] eqn:Hk;
      try (unfold healthy; by repeat split).
    unfold item_wakes, item_begins, item_fails.
    rewrite Hc. destruct (paused (uploadState s)); simpl.
    + unfold healthy, set_item; simpl. repeat split; try done.
      * by apply Forall_insert.
      * destruct (pc s); try done. by rewrite length_insert.
    + unfold healthy, set_item; simpl. repeat split; try done.
      * by apply Forall_insert.
      * destruct (pc s); try done. by rewrite length_insert.
  - destruct (window s !! k) as [[file []]|] eqn:Hk;
      try (unfold healthy; by repeat split).
    assert (Hgoal : ∀ s' r,
      allFiles s' = allFiles s → i s' = i s → results s' = results s →
      duplicates s' = duplicates s → window s' = window s → pc s' = pc s →
      cancelled (uploadState s') = false → settled_ok r →
      healthy n (set_item s' k file (Settled r))).
    { intros s' r Ha Hi' Hr Hd Hw Hp Hc' Hok.
      unfold healthy, set_item; simpl. rewrite Ha, Hi', Hr, Hd, Hw, Hp.
      repeat split; try done.
      - by apply Forall_insert.
      - destruct (pc s); try done. by rewrite length_insert. }
    destruct o as [reason existing|platform data url|e]; simpl;
      unfold item_fails; simpl;
      destruct (uploadState s) as [u|] eqn:Eu; simpl; rewrite ?Eu; simpl;
      apply Hgoal; simpl; rewrite ?Eu; simpl; try done;
      first [by left | by right].
  - unfold set_flags. destruct (uploadState s) as [u|] eqn:Eu;
      [|unfold healthy; rewrite Eu; by repeat split].
    unfold healthy; simpl. by repeat split.
  - unfold set_flags. destruct (uploadState s) as [u|] eqn:Eu;
      [|unfold healthy; rewrite Eu; by repeat split].
    unfold healthy; simpl. by repeat split.
Qed.

(** The invariant holds all along a run that starts with no entry of a
    failed archive in [results] and is never cancelled. *)
Lemma uncancelled_run_healthy
    (x : Expansion) (flags : UploadState) (events : list Event) :
  ArchiveExpander.results x = [] →
  isCancelled flags = false →
  CancelRequest ∉ events →
  healthy (length (ArchiveExpander.allFiles x)) (run (start_run x flags) events).
Proof.
  intros Hx Hf Hev.
  assert (Hstart : healthy (length (ArchiveExpander.allFiles x)) (start_run x flags)).
  { unfold healthy, start_run. rewrite Hx.
    destruct (ArchiveExpander.allFiles x) eqn:E; simpl; rewrite ?E; simpl;
      by repeat split. }
  revert Hstart. generalize (start_run x flags).
  induction events as [|ev events IH]; intros s Hs; [done|].
  simpl. apply IH.
  - intros Hin. apply Hev. by right.
  - apply healthy_step; [|done]. intros ->. apply Hev. by left.
Qed.

(** A batch none of whose archives failed, never cancelled: when the run
    responds with its summary, the three counts add up to the number of
    entries the summary lists, which is the number of files of the batch. *)
Lemma uncancelled_summary_accounted
    (x : Expansion) (flags : UploadState) (events : list Event)
    (successful failed dups : nat) (duplicateFiles entries : list Value) :
  ArchiveExpander.results x = [] →
  isCancelled flags = false →
  CancelRequest ∉ events →
  pc (run (start_run x flags) events)
  = Responded (Json successful failed dups duplicateFiles entries) →
  successful + failed + dups = length entries ∧
  length entries = length (ArchiveExpander.allFiles x).
Proof.
  intros Hx Hf Hev Hpc.
  destruct (uncancelled_run_healthy x flags events Hx Hf Hev)
    as (_ & _ & _ & _ & _ & Hend).
  by rewrite Hpc in Hend.
Qed.

End Facts.

End CoordinatorFacts.

(** ** The work of one item *)

Module ItemFacts.
Import JSString JSValue RegExp Store DuplicateDetector DuplicateFacts.
Import PdfProcessor FileSystem ArchiveExpander BatchCoordinator ItemPipeline.

Section Facts.
Context `{RegExpEngine} `{Builtins}.
Variable calculateFileHash : string → Res string.
Variable findOne : Query → Res (option Invoice).
Variable save : InvoiceDoc → Res unit.
Variable readText : string → Res string.
Variable llm_invoke : string → string → Res Response.
Variable updateOne : string → string → string → Res unit.
Variable random : nat.
Variable origin uploadsDir : string.

(** C4.  When a storage lookup that the duplicate check reaches raises an
    error, the check does not throw: it resolves to the not-duplicate verdict
    that carries the error's message, and the item goes on to be ingested
    like any file that is not a duplicate. *)
Theorem checkForDuplicates_fails_open
    (file : File) (digest : string) (e : Error) (fs : FS) :
  calculateFileHash (path file) = Ok digest →
  lookup_raises findOne (originalname file) digest e →
  checkForDuplicates calculateFileHash findOne (path file) (originalname file)
    = Ok (failed_open e) ∧
  isDuplicate (failed_open e) = false ∧
  error (failed_open e) = Some (message e) ∧
  item_work calculateFileHash findOne save readText llm_invoke updateOne
    random origin uploadsDir file fs
  = ingest calculateFileHash save readText llm_invoke updateOne
      random origin uploadsDir file fs.
Proof.
  intros Hhash Hraise.
  assert (Hcheck : checkForDuplicates calculateFileHash findOne (path file)
                     (originalname file) = Ok (failed_open e)).
  { unfold checkForDuplicates.
    by rewrite (lookup_raises_throws _ _ _ _ _ _ Hhash Hraise). }
  split; [done|]. split; [done|]. split; [done|].
  unfold item_work. by rewrite Hcheck.
Qed.

(** The check never makes an item fail: whatever it resolves to, the item
    is discarded as a duplicate or ingested. *)
Lemma item_work_cases (file : File) (fs : FS) :
  (∃ why existing,
     item_work calculateFileHash findOne save readText llm_invoke updateOne
       random origin uploadsDir file fs = (Duplicate why existing, cleanup fs file)) ∨
  item_work calculateFileHash findOne save readText llm_invoke updateOne
    random origin uploadsDir file fs
  = ingest calculateFileHash save readText llm_invoke updateOne
      random origin uploadsDir file fs.
Proof.
  unfold item_work, checkForDuplicates.
  destruct (checkForDuplicates_body _ _ _ _) as [v|e]; simpl; [|by right].
  destruct (isDuplicate v); [left; by eexists _, _ | by right].
Qed.

End Facts.

End ItemFacts.

(** ** The work of one item on sample data *)

Module ItemExamples.
Import JSString JSValue RegExp MiniRegExp Store DuplicateDetector DuplicateSamples.
Import PdfProcessor FileSystem ArchiveExpander BatchCoordinator ItemPipeline.
Import ItemFacts ProcessorSamples BatchSamples.

Lemma checkForDuplicates_fails_open_witness :
  checkForDuplicates sample_hash flaky_findOne (path single_pdf)
    (originalname single_pdf)
  = Ok (failed_open timeout_error) ∧
  isDuplicate (failed_open timeout_error) = false ∧
  error (failed_open timeout_error) = Some "connection timed out" ∧
  item_work sample_hash flaky_findOne sample_save sample_readText chatty_llm
    sample_updateOne 55 "http://localhost:3000" "/srv/uploads" single_pdf sample_disk
  = ingest sample_hash sample_save sample_readText chatty_llm
      sample_updateOne 55 "http://localhost:3000" "/srv/uploads" single_pdf sample_disk.
Proof.
  apply (checkForDuplicates_fails_open sample_hash flaky_findOne sample_save
           sample_readText chatty_llm sample_updateOne 55 "http://localhost:3000"
           "/srv/uploads" single_pdf candidate_digest timeout_error sample_disk).
  - reflexivity.
  - right. split; [reflexivity|]. left. reflexivity.
Defined.

(** The item whose duplicate check failed open is processed and stored. *)
Example item_ingested_after_failed_lookup :
  ∃ data fs,
    item_work sample_hash flaky_findOne sample_save sample_readText chatty_llm
      sample_updateOne 55 "http://localhost:3000" "/srv/uploads" single_pdf sample_disk
    = (Completed "google_ads" data "http://localhost:3000/uploads/55-invoice.pdf", fs) ∧
    prop data "invoiceNumber" = VStr "5123456789" ∧
    existsSync fs "/srv/uploads/812-invoice.pdf" = false ∧
    existsSync fs "/srv/uploads/55-invoice.pdf" = true.
Proof. eexists _, _. split; [vm_compute; reflexivity|]. by vm_compute. Qed.

(** A file whose name is already stored is discarded and its temporary copy
    removed. *)
Example item_discarded_as_duplicate :
  ∃ existing fs,
    item_work sample_hash (λ q, Ok (findOne_in sample_docs q)) sample_save
      sample_readText chatty_llm sample_updateOne 55 "http://localhost:3000"
      "/srv/uploads"
      (mkFile "/srv/uploads/812-invoice.pdf" "Invoice.PDF" "application/pdf" 1024 true)
      sample_disk
    = (Duplicate "File with exact same name already exists" existing, fs) ∧
    existsSync fs "/srv/uploads/812-invoice.pdf" = false.
Proof. eexists _, _. split; [vm_compute; reflexivity|]. by vm_compute. Qed.

End ItemExamples.

(** ** The coordinator on sample batches *)

Module BatchExamples.
Import JSValue FileSystem ArchiveExpander BatchCoordinator.
Import CoordinatorFacts ArchiveFacts ProcessorSamples BatchSamples.

(** C1.  A batch of one archive that cannot be expanded and one PDF that is
    processed, run to completion without cancellation: [results] lists two
    entries, the archive's failure and the PDF's success, but the counts of
    the summary are 1 successful, 0 failed and 0 duplicates, so the archive
    is in none of them; and building the response throws on the archive's
    entry, which has no [reason]. *)
Theorem failed_archive_missing_from_counts :
  let s := run (start_run broken_batch no_flags)
             [Timer; ItemSettles 0 processed_fine; Timer] in
  map (λ r, prop r "status") (results s) = [VStr "error"; VStr "fulfilled"] ∧
  last (log s) = Some (Complete 1 0 0 1) ∧
  count_successful (results s) + count_failed (results s)
    + length (duplicates s) = 1 ∧
  length (results s) = 2 ∧
  response_entries (results s)
  = Throw (mkError "TypeError"
             "Cannot read properties of undefined (reading 'message')") ∧
  pc s = Unhandled (mkError "ReferenceError" "uploadId is not defined").
Proof. vm_compute. repeat split; reflexivity. Qed.

(** Without the archive the same batch is accounted for. *)
Example single_pdf_accounted :
  let x := expandArchives sample_zip_open sample_random [single_pdf] sample_disk in
  let s := run (start_run x no_flags) [Timer; ItemSettles 0 processed_fine; Timer] in
  ∃ entries,
    pc s = Responded (Json 1 0 0 [] entries) ∧ length entries = 1 ∧
    last (log s) = Some (Complete 1 0 0 1).
Proof. vm_compute. eexists. repeat split; reflexivity. Qed.

(** An archive of three PDFs and two other entries: three files to process,
    and the archive is removed. *)
Example archive_of_three_pdfs :
  let x := expandArchives sample_zip_open sample_random [mixed_zip] sample_disk in
  map originalname (ArchiveExpander.allFiles x) = ["a.pdf"; "B.PDF"; "c.Pdf"] ∧
  map path (ArchiveExpander.allFiles x)
  = ["/srv/uploads/100-a.pdf"; "/srv/uploads/101-B.PDF"; "/srv/uploads/102-c.Pdf"] ∧
  ArchiveExpander.results x = [] ∧
  existsSync (files_on_disk x) "/srv/uploads/93-april.zip" = false ∧
  existsSync (files_on_disk x) "/srv/uploads/101-B.PDF" = true.
Proof. vm_compute. repeat split; reflexivity. Qed.

Example broken_archive_removed :
  ArchiveExpander.allFiles broken_batch
  = [mkFile "/srv/uploads/812-invoice.pdf" "invoice.pdf" "application/pdf" 1024 true] ∧
  map (λ r, prop r "error") (ArchiveExpander.results broken_batch)
  = [VStr "Failed to extract ZIP file: FILE_ENDED"] ∧
  existsSync (files_on_disk broken_batch) "/srv/uploads/4711-march.zip" = false.
Proof. vm_compute. repeat split; reflexivity. Qed.

(** Sixteen files, paused during the first window and cancelled during the
    pause: the fifteen items in flight settle and are counted, and the
    second window never starts. *)
Example paused_then_cancelled :
  let s1 := run (start_run sixteen no_flags) ([Timer; PauseRequest] ++ settle_window 15) in
  let s2 := run s1 [Timer; Timer; Timer] in
  let s3 := run s2 [CancelRequest; Timer] in
  pc s1 = AwaitingWindow ∧ started s1 = 15 ∧
  pc s2 = PauseLoop ∧ started s2 = 15 ∧ length (results s2) = 15 ∧
  started s3 = 15 ∧ length (results s3) = 15 ∧
  last (log s3) = Some (Complete 15 0 0 16) ∧
  (∃ entries, pc s3 = Responded (Json 15 0 0 [] entries)).
Proof. vm_compute. repeat split; try reflexivity. by eexists. Qed.

(** Cancelled while the first window is in flight: its items settle, their
    results are kept, and the run ends. *)
Example cancelled_in_flight :
  let s := run (start_run sixteen no_flags)
             ([Timer; CancelRequest] ++ settle_window 15 ++ [Timer]) in
  started s = 15 ∧ length (results s) = 15 ∧
  last (log s) = Some (Complete 15 0 0 16) ∧ terminal (pc s) = true.
Proof. vm_compute. repeat split; reflexivity. Qed.

End BatchExamples.

(** ** The batch coordinator: what every run keeps

    Invariants of [uploadPdfs] over every sequence of events, cancelled or
    not, with or without failed archives. *)

Module CoordinatorInvariants.
Import JSValue ArchiveExpander PostProcess BatchCoordinator ValueFacts.
Import CoordinatorFacts.

Definition is_settled (it : File * ItemState) : bool :=
  match it.2 with Settled _ => true | _ => false end.

(** The items of the window that have settled. *)
Definition settled_items (w : list (File * ItemState)) : nat :=
  length (List.filter is_settled w).

(** What holds between two steps of a run over [n] files that started with
    [r0] entries of failed archives in [results]. *)
Record sound (n r0 : nat) (s : Run) : Prop := mkSound {
  sound_files : length (allFiles s) = n;
  sound_total : totalFiles s = n;
  sound_awake : none_sleeping s;
  sound_window : length (window s) ≤ batchSize;
  sound_started : length (results s) + length (window s) = r0 + started s;
  sound_bound : started s ≤ n;
  sound_processed :
    processedCount s + r0 = length (results s) + settled_items (window s);
  sound_pc :
    match pc s with
    | LoopHead =>
        i s = 0 ∧ window s = [] ∧ length (results s) = r0 ∧
        is_Some (uploadState s)
    | PauseLoop =>
        window s = [] ∧ length (results s) = r0 + i s ∧ i s < n ∧
        is_Some (uploadState s)
    | AwaitingWindow =>
        length (results s) = r0 + i s ∧ i s < n ∧
        length (window s) = batchSize `min` (n - i s) ∧
        is_Some (uploadState s)
    | BetweenWindows =>
        window s = [] ∧ length (results s) = r0 + i s + batchSize ∧
        i s + batchSize < n ∧ is_Some (uploadState s)
    | Responded _ | Unhandled _ =>
        Forall (λ it, is_settled it = true) (window s)
    end
}.

(** The file names that the [processing] notifications announce, in the
    order they were sent. *)
Definition processing_name (n : Notification) : option string :=
  match n with
  | Progress fileName status =>
      if bool_decide (status = "processing") then Some fileName else None
  | _ => None
  end.

Definition started_names (s : Run) : list string := omap processing_name (log s).

#[local] Arguments Nat.min : simpl never.

Section Facts.
Context `{Builtins}.

Ltac count_started :=
  unfold started; simpl; rewrite ?List.filter_app, ?length_app; simpl.

Lemma settled_items_processing (batch : list File) :
  settled_items (map (λ f, (f, Processing)) batch) = 0.
Proof. unfold settled_items. by induction batch. Qed.

Lemma settled_items_all (w : list (File * ItemState)) :
  Forall (λ it, is_settled it = true) w → settled_items w = length w.
Proof.
  unfold settled_items. induction 1 as [|it w Hit _ IH]; simpl; [done|].
  rewrite Hit. simpl. by rewrite IH.
Qed.

Lemma batchResults_all_settled (w : list (File * ItemState)) (rs : list Value) :
  batchResults_of w = Some rs → Forall (λ it, is_settled it = true) w.
Proof.
  unfold batchResults_of. intros Hm%mapM_Some.
  induction Hm as [|[f it] r w rs Hx _ IH]; constructor; [|done].
  unfold settled_entry, is_settled in *; simpl in *. by destruct it.
Qed.

Lemma settled_items_insert (w : list (File * ItemState)) (k : nat)
    (file file' : File) (r : Value) :
  w !! k = Some (file, Processing) →
  settled_items (<[k := (file', Settled r)]> w) = S (settled_items w).
Proof.
  unfold settled_items. revert k.
  induction w as [|it w IH]; intros [|k] Hk; simpl in *; try done.
  - by injection Hk as ->.
  - destruct (is_settled it); simpl; by rewrite (IH k Hk).
Qed.

Lemma settled_not_processing (w : list (File * ItemState)) (k : nat) (file : File) :
  Forall (λ it, is_settled it = true) w → w !! k = Some (file, Processing) → False.
Proof.
  intros Hall Hk. rewrite Forall_lookup in Hall. by specialize (Hall _ _ Hk).
Qed.

(** *** What each part of the loop leaves unchanged *)

Lemma summary_keeps (s : Run) :
  allFiles (summary s) = allFiles s ∧ totalFiles (summary s) = totalFiles s ∧
  results (summary s) = results s ∧ window (summary s) = window s ∧
  processedCount (summary s) = processedCount s ∧
  started (summary s) = started s ∧ terminal (pc (summary s)) = true.
Proof.
  unfold summary, outer_catch; simpl.
  destruct (response_entries (results s)); simpl; repeat split; try done;
    count_started; lia.
Qed.

Lemma start_items_keeps (batch : list File) (s : Run) :
  cancelled (uploadState s) = false → paused (uploadState s) = false →
  totalFiles (start_items s batch) = totalFiles s ∧
  processedCount (start_items s batch) = processedCount s.
Proof.
  revert s. induction batch as [|file batch IH]; intros s Hc Hp; simpl; [done|].
  unfold item_starts. rewrite Hc, Hp; simpl.
  by destruct (IH (with_window (emit s (Progress (originalname file) "processing"))
                     (window s ++ [(file, Processing)])) Hc Hp) as [-> ->].
Qed.

(** The counts at a point of the loop where no window is in flight. *)
Definition quiet (n r0 : nat) (s : Run) : Prop :=
  window s = [] ∧ length (allFiles s) = n ∧ totalFiles s = n ∧
  length (results s) = r0 + started s ∧ started s ≤ n ∧
  processedCount s + r0 = length (results s).

Lemma sound_summary (n r0 : nat) (s : Run) :
  quiet n r0 s → sound n r0 (summary s).
Proof.
  intros (Hnil & Hn & Ht & Hs & Hb & Hp).
  destruct (summary_keeps s) as (Ef & Et & Er & Ew & Ep & Es & Hterm).
  constructor; unfold none_sleeping, settled_items;
    rewrite ?Ef, ?Et, ?Er, ?Ew, ?Ep, ?Es, ?Hnil; simpl; try done; try lia.
  destruct (pc (summary s)); try done; constructor.
Qed.

Lemma sound_dispatch (n r0 : nat) (s : Run) :
  quiet n r0 s → length (results s) = r0 + i s → i s < n →
  cancelled (uploadState s) = false → paused (uploadState s) = false →
  is_Some (uploadState s) →
  sound n r0 (dispatch s).
Proof.
  intros (Hnil & Hn & Ht & Hs & Hb & Hp) Hlen Hi Hc Hpa Hsome.
  set (batch := take batchSize (drop (i s) (allFiles s))).
  assert (Hbatch : length batch = batchSize `min` (n - i s)).
  { unfold batch. rewrite length_take, length_drop. by rewrite Hn. }
  destruct (start_items_running batch (with_window s []) Hc Hpa)
    as (Ew & Eu & _ & Er & _ & Es).
  destruct (start_items_frame batch (with_window s [])) as [Ef Ei].
  destruct (start_items_keeps batch (with_window s []) Hc Hpa) as [Et Ep].
  simpl in *.
  assert (Hstart : started (with_window s []) = started s) by done.
  assert (Hpcst : ∀ t p, started (with_pc t p) = started t) by done.
  constructor; unfold dispatch, none_sleeping; fold batch; simpl;
    rewrite ?Hpcst, ?Ef, ?Et, ?Er, ?Ew, ?Ep, ?Es, ?Ei, ?Eu, ?Hstart, ?length_map,
      ?settled_items_processing; try done; try lia.
  apply none_sleeping_processing.
Qed.

Lemma sound_pause_check (n r0 : nat) (s : Run) :
  quiet n r0 s → length (results s) = r0 + i s → i s < n →
  is_Some (uploadState s) →
  sound n r0 (pause_check s).
Proof.
  intros Hquiet Hlen Hi Hsome. unfold pause_check, after_pause.
  destruct (paused (uploadState s)) eqn:Hp,
           (cancelled (uploadState s)) eqn:Hc; simpl.
  - by apply sound_summary.
  - destruct Hquiet as (Hnil & Hn & Ht & Hs & Hb & Hpr).
    constructor; unfold none_sleeping, settled_items; simpl;
      rewrite ?Hnil; simpl; try done; try lia.
    change (started (with_pc s PauseLoop)) with (started s). lia.
  - by apply sound_summary.
  - by apply sound_dispatch.
Qed.

Lemma sound_enter_loop (n r0 : nat) (s : Run) :
  quiet n r0 s → length (results s) = r0 + i s →
  is_Some (uploadState s) →
  sound n r0 (enter_loop s).
Proof.
  intros Hquiet Hlen Hsome. unfold enter_loop.
  rewrite (proj1 (proj2 Hquiet)).
  destruct (Nat.ltb_spec (i s) n); simpl;
    [destruct (cancelled (uploadState s)) eqn:Hc; simpl|].
  - by apply sound_summary.
  - by apply sound_pause_check.
  - by apply sound_summary.
Qed.

Lemma item_settles_keeps (s : Run) (file : File) (o : ItemOutcome) :
  is_Some (uploadState s) →
  ∃ s' r, item_settles s file o = (s', Settled r) ∧
    allFiles s' = allFiles s ∧ totalFiles s' = totalFiles s ∧ i s' = i s ∧
    results s' = results s ∧ window s' = window s ∧ pc s' = pc s ∧
    processedCount s' = S (processedCount s) ∧ started s' = started s ∧
    is_Some (uploadState s').
Proof.
  intros [u Hu].
  destruct o as [reason existing|platform data url|e]; simpl;
    unfold item_fails; rewrite Hu; simpl;
    eexists _, _; (split; [reflexivity|]); simpl; rewrite ?Hu; simpl;
    repeat split; try done; try (by eexists); count_started; lia.
Qed.

Ltac build :=
  constructor; unfold none_sleeping, started, settled_items in *; simpl;
  rewrite ?List.filter_app; simpl;
  rewrite ?app_nil_r, ?length_app, ?length_insert; simpl.

Lemma sound_step (n r0 : nat) (s : Run) (ev : Event) :
  sound n r0 s → sound n r0 (step s ev).
Proof.
  intros Hsound. pose proof Hsound as [Hn Ht Ha Hw Hs Hb Hp Hpc].
  destruct ev as [|k|k o| | |]; simpl.
  - destruct (pc s) eqn:Epc; try done.
    + destruct Hpc as (Hi & Hnil & Hlen & Hsome).
      rewrite Hnil in *. unfold settled_items in Hp. simpl in *.
      apply sound_enter_loop; unfold quiet; try done; repeat split; try done; lia.
    + destruct Hpc as (Hnil & Hlen & Hi & Hsome).
      rewrite Hnil in *. unfold settled_items in Hp. simpl in *.
      apply sound_pause_check; unfold quiet; try done; repeat split; try done; lia.
    + destruct Hpc as (Hlen & Hi & Hwin & Hsome).
      destruct (batchResults_of (window s)) as [rs|] eqn:Ers; [|done].
      pose proof (batchResults_all_settled _ _ Ers) as Hall.
      pose proof (mapM_settled_length _ _ Ers) as Hlrs.
      pose proof (settled_items_all _ Hall) as Hcount.
      unfold window_done.
      destruct (process_results rs) as [[rs' dups]|e] eqn:Eproc.
      * pose proof (process_results_length _ _ _ Eproc) as Hlrs'.
        simpl. rewrite Hn.
        match goal with
        | |- sound n r0 (if ?c then _ else _) => destruct c eqn:Econd
        end.
        -- apply andb_true_iff in Econd as [Hlt%Nat.ltb_lt _].
           build; try done; try lia.
           repeat split; try done. lia.
        -- unfold next_window, enter_loop. simpl. rewrite Hn.
           assert (Hfalse : (i s + batchSize <? n) && negb (cancelled (uploadState s))
                            = false) by done.
           rewrite Hfalse. apply sound_summary.
           unfold quiet, started in *; simpl. rewrite length_app.
           repeat split; try done; lia.
      * unfold outer_catch. build; try done.
    + destruct Hpc as (Hnil & Hlen & Hi & Hsome).
      rewrite Hnil in *. unfold settled_items in Hp. simpl in *.
      unfold next_window.
      apply sound_enter_loop; unfold quiet, started in *; simpl; try done;
        repeat split; try done; lia.
  - destruct (window s !! k) as [[file []]|] eqn:Hk; try done.
    unfold none_sleeping in Ha. rewrite Forall_lookup in Ha.
    by destruct (Ha _ _ Hk).
  - destruct (window s !! k) as [[file []]|] eqn:Hk; try done.
    assert (Hsome : is_Some (uploadState s) ∧ pc s = AwaitingWindow).
    { destruct (pc s) eqn:Epc.
      - destruct Hpc as (_ & Hnil & _). by rewrite Hnil in Hk.
      - destruct Hpc as (Hnil & _). by rewrite Hnil in Hk.
      - by destruct Hpc as (_ & _ & _ & ?).
      - destruct Hpc as (Hnil & _). by rewrite Hnil in Hk.
      - destruct (settled_not_processing _ _ _ Hpc Hk).
      - destruct (settled_not_processing _ _ _ Hpc Hk). }
    destruct Hsome as [Hsome Epc].
    destruct (item_settles_keeps s file o Hsome)
      as (s' & r & -> & Ef & Et & Ei & Er & Ew & Ec & Ep & Es & Hsome').
    rewrite Epc in Hpc. destruct Hpc as (Hlen & Hi & Hwin & _).
    pose proof (settled_items_insert _ _ _ file r Hk) as Hins.
    unfold set_item.
    build; rewrite ?Ef, ?Et, ?Ei, ?Er, ?Ew, ?Ec, ?Ep, ?length_insert, ?Hins;
      try done; try lia.
    + by apply Forall_insert.
    + by rewrite Epc.
  - unfold set_flags. destruct (uploadState s) as [u|] eqn:Eu; [|done].
    build; try done; try lia.
    destruct (pc s); try done; decompose [and] Hpc; repeat split; try done;
      by eexists.
  - unfold set_flags. destruct (uploadState s) as [u|] eqn:Eu; [|done].
    build; try done; try lia.
    destruct (pc s); try done; decompose [and] Hpc; repeat split; try done;
      by eexists.
  - unfold set_flags. destruct (uploadState s) as [u|] eqn:Eu; [|done].
    build; try done; try lia.
    destruct (pc s); try done; decompose [and] Hpc; repeat split; try done;
      by eexists.
Qed.

Lemma sound_start (x : Expansion) (flags : UploadState) :
  sound (length (ArchiveExpander.allFiles x)) (length (ArchiveExpander.results x))
    (start_run x flags).
Proof.
  unfold start_run.
  destruct (ArchiveExpander.allFiles x) as [|f files] eqn:E;
    constructor; unfold none_sleeping; simpl; rewrite ?E; simpl;
    try done; try (count_started; lia); try by constructor.
Qed.

Lemma sound_run (x : Expansion) (flags : UploadState) (events : list Event) :
  sound (length (ArchiveExpander.allFiles x)) (length (ArchiveExpander.results x))
    (run (start_run x flags) events).
Proof.
  generalize (sound_start x flags). generalize (start_run x flags).
  induction events as [|ev events IH]; intros s Hs; [done|].
  simpl. apply IH. by apply sound_step.
Qed.

(** *** The order in which the files are started *)

Lemma started_names_length (s : Run) : length (started_names s) = started s.
Proof.
  unfold started_names, started. induction (log s) as [|n l IH]; simpl; [done|].
  destruct n as [f st| | | | |]; simpl; try done.
  destruct (bool_decide (st = "processing")); simpl; [f_equal|]; exact IH.
Qed.

Lemma started_names_emit (s : Run) (n : Notification) :
  started_names (emit s n)
  = started_names s ++ from_option (λ f, [f]) [] (processing_name n).
Proof.
  unfold started_names; simpl. rewrite omap_app. simpl.
  by destruct (processing_name n).
Qed.

Lemma summary_names (s : Run) :
  allFiles (summary s) = allFiles s ∧ started_names (summary s) = started_names s.
Proof.
  unfold summary, outer_catch, started_names; simpl.
  destruct (response_entries (results s)); simpl;
    rewrite omap_app; simpl; by rewrite app_nil_r.
Qed.

Lemma start_items_names (batch : list File) (s : Run) :
  cancelled (uploadState s) = false → paused (uploadState s) = false →
  started_names (start_items s batch)
  = started_names s ++ map originalname batch.
Proof.
  revert s. induction batch as [|file batch IH]; intros s Hc Hp; simpl.
  - by rewrite app_nil_r.
  - unfold item_starts. rewrite Hc, Hp; simpl.
    rewrite (IH (with_window (emit s (Progress (originalname file) "processing"))
                   (window s ++ [(file, Processing)])) Hc Hp).
    change (started_names (with_window ?t ?w)) with (started_names t).
    rewrite started_names_emit. simpl. by rewrite <- app_assoc.
Qed.

(** What a part of the loop does to the files started: nothing, or the next
    window, from index [i], is appended. *)
Definition starts_next (s s' : Run) : Prop :=
  allFiles s' = allFiles s ∧
  (started_names s' = started_names s ∨
   started_names s'
   = started_names s
     ++ map originalname (take batchSize (drop (i s) (allFiles s)))).

Lemma dispatch_names (s : Run) :
  cancelled (uploadState s) = false → paused (uploadState s) = false →
  starts_next s (dispatch s).
Proof.
  intros Hc Hp. unfold starts_next, dispatch.
  destruct (start_items_frame (take batchSize (drop (i s) (allFiles s)))
              (with_window s [])) as [Ef _].
  split; [exact Ef|]. right.
  change (started_names (with_pc ?t ?p)) with (started_names t).
  by rewrite (start_items_names _ (with_window s []) Hc Hp).
Qed.

Lemma pause_check_names (s : Run) : starts_next s (pause_check s).
Proof.
  unfold pause_check, after_pause.
  destruct (paused (uploadState s)) eqn:Hp,
           (cancelled (uploadState s)) eqn:Hc; simpl.
  - destruct (summary_names s). split; [done | by left].
  - split; [done | by left].
  - destruct (summary_names s). split; [done | by left].
  - by apply dispatch_names.
Qed.

Lemma enter_loop_names (s : Run) : starts_next s (enter_loop s).
Proof.
  unfold enter_loop. destruct (_ && _).
  - apply pause_check_names.
  - destruct (summary_names s). split; [done | by left].
Qed.

Lemma item_settles_names (s : Run) (file : File) (o : ItemOutcome) :
  allFiles (item_settles s file o).1 = allFiles s ∧
  started_names (item_settles s file o).1 = started_names s.
Proof.
  destruct o as [reason existing|platform data url|e]; simpl;
    unfold item_fails; simpl;
    destruct (uploadState s); simpl; split; try done;
    unfold started_names; simpl; rewrite ?omap_app; simpl;
    by rewrite ?app_nil_r.
Qed.

(** The [processing] notifications of a run name the first files of
    [allFiles], in their order. *)
Definition in_order (s : Run) : Prop :=
  started_names s = map originalname (take (started s) (allFiles s)).

Lemma in_order_next (n r0 : nat) (s s' : Run) :
  sound n r0 s' → in_order s → starts_next s s' → started s = i s →
  in_order s'.
Proof.
  intros Hsound' Hord [Ef Hnames] Hi. unfold in_order in *.
  pose proof (started_names_length s') as Hlen'.
  pose proof (started_names_length s) as Hlen.
  rewrite Ef. destruct Hnames as [E|E]; rewrite E in *.
  - by rewrite <- Hlen', Hlen.
  - rewrite length_app, length_map in Hlen'.
    rewrite <- Hlen', Hlen, Hord, Hi, <- map_app. f_equal.
    rewrite <- take_take_drop. f_equal.
    generalize (drop (i s) (allFiles s)). intros l. rewrite length_take.
    destruct (Nat.min_spec batchSize (length l)) as [[_ ->]|[Hge ->]]; [done|].
    by rewrite !take_ge by lia.
Qed.

Lemma in_order_same (s s' : Run) :
  in_order s → allFiles s' = allFiles s → started_names s' = started_names s →
  in_order s'.
Proof.
  unfold in_order. intros Hord Ef En.
  by rewrite <- (started_names_length s'), En, Ef, (started_names_length s).
Qed.

Lemma in_order_step (n r0 : nat) (s : Run) (ev : Event) :
  sound n r0 s → in_order s → in_order (step s ev).
Proof.
  intros Hsound Hord.
  pose proof (sound_step n r0 s ev Hsound) as Hsound'.
  pose proof Hsound as [Hn Ht Ha Hw Hs Hb Hp Hpc].
  destruct ev as [|k|k o| | |]; simpl in *.
  - destruct (pc s) eqn:Epc; try done.
    + destruct Hpc as (Hi & Hnil & Hlen & _). rewrite Hnil in Hs; simpl in Hs.
      eapply in_order_next; [exact Hsound' | exact Hord | apply enter_loop_names | lia].
    + destruct Hpc as (Hnil & Hlen & Hi & _). rewrite Hnil in Hs; simpl in Hs.
      eapply in_order_next; [exact Hsound' | exact Hord | apply pause_check_names | lia].
    + destruct Hpc as (Hlen & Hi & Hwin & Hsome).
      destruct (batchResults_of (window s)) as [rs|] eqn:Ers; [|done].
      unfold window_done in *.
      destruct (process_results rs) as [[rs' dups]|e] eqn:Eproc;
        [|by apply (in_order_same s)].
      simpl in *. rewrite Hn in *.
      destruct ((i s + batchSize <? n) && negb (cancelled (uploadState s))) eqn:Econd;
        [by apply (in_order_same s)|].
      unfold next_window, enter_loop in *. simpl in *. rewrite Hn, Econd in *.
      match goal with |- in_order (summary ?t) =>
        destruct (summary_names t) as [Ef En] end.
      by apply (in_order_same s).
    + destruct Hpc as (Hnil & Hlen & Hi & _). rewrite Hnil in Hs; simpl in Hs.
      unfold next_window in *.
      match goal with |- in_order (enter_loop ?t) =>
        apply (in_order_next n r0 t); [exact Hsound' | by apply (in_order_same s)
                                      | apply enter_loop_names | simpl ] end.
      change (started {| allFiles := allFiles s; totalFiles := totalFiles s;
                         i := i s + batchSize; results := results s;
                         duplicates := duplicates s;
                         processedCount := processedCount s;
                         uploadState := uploadState s; pc := pc s;
                         window := window s; log := log s |})
        with (started s).
      lia.
  - destruct (window s !! k) as [[file []]|] eqn:Hk; try done.
    unfold none_sleeping in Ha. rewrite Forall_lookup in Ha.
    by destruct (Ha _ _ Hk).
  - destruct (window s !! k) as [[file []]|] eqn:Hk; try done.
    destruct (item_settles_names s file o) as [Ef En].
    destruct (item_settles s file o) as [s' it]. simpl in *.
    by apply (in_order_same s).
  - unfold set_flags in *. destruct (uploadState s) as [u|]; [|done].
    apply (in_order_same s); [done | done |].
    unfold started_names; simpl. rewrite omap_app. simpl. by rewrite app_nil_r.
  - unfold set_flags in *. destruct (uploadState s) as [u|]; [|done].
    apply (in_order_same s); [done | done |].
    unfold started_names; simpl. rewrite omap_app. simpl. by rewrite app_nil_r.
  - unfold set_flags in *. destruct (uploadState s) as [u|]; [|done].
    apply (in_order_same s); [done | done |].
    unfold started_names; simpl. rewrite omap_app. simpl. by rewrite app_nil_r.
Qed.

Lemma in_order_run (x : Expansion) (flags : UploadState) (events : list Event) :
  in_order (run (start_run x flags) events).
Proof.
  assert (Hstart : in_order (start_run x flags)).
  { unfold in_order, start_run, started_names, started.
    by destruct (ArchiveExpander.allFiles x). }
  generalize (sound_start x flags) Hstart. generalize (start_run x flags).
  induction events as [|ev events IH]; intros s Hs Hord; [done|].
  simpl. apply IH; [by apply sound_step | by eapply in_order_step].
Qed.

Lemma run_allFiles (x : Expansion) (flags : UploadState) (events : list Event) :
  allFiles (run (start_run x flags) events) = ArchiveExpander.allFiles x.
Proof.
  assert (Hstep : ∀ s ev, allFiles (step s ev) = allFiles s).
  { intros s ev. destruct ev as [|k|k o| | |]; simpl.
    - destruct (pc s); try done.
      + apply enter_loop_names.
      + apply pause_check_names.
      + destruct (batchResults_of (window s)) as [rs|]; [|done].
        unfold window_done. destruct (process_results rs) as [[rs' dups]|e]; [|done].
        match goal with |- context [if ?c then _ else _] => destruct c end; [done|].
        unfold next_window.
        match goal with |- allFiles (enter_loop ?t) = _ =>
          by destruct (enter_loop_names t) as [-> _] end.
      + unfold next_window.
        match goal with |- allFiles (enter_loop ?t) = _ =>
          by destruct (enter_loop_names t) as [-> _] end.
    - destruct (window s !! k) as [[file []]|]; try done.
      unfold item_wakes, item_begins, item_fails.
      destruct (_ && _); [done|].
      destruct (cancelled (uploadState s)); [|done].
      by destruct (uploadState s).
    - destruct (window s !! k) as [[file []]|]; try done.
      destruct (item_settles_names s file o) as [Ef _].
      by destruct (item_settles s file o).
    - unfold set_flags. by destruct (uploadState s).
    - unfold set_flags. by destruct (uploadState s).
    - unfold set_flags. by destruct (uploadState s). }
  assert (Hstart : allFiles (start_run x flags) = ArchiveExpander.allFiles x).
  { unfold start_run. by destruct (ArchiveExpander.allFiles x). }
  revert Hstart. generalize (start_run x flags).
  induction events as [|ev events IH]; intros s Hs; [done|].
  simpl. apply IH. by rewrite Hstep.
Qed.

(** Whatever happens during a run (pauses, resumptions, a cancellation,
    items that fail), the files are started in the order of [allFiles], each
    at most once: the [processing] notifications name the first [started]
    files, in their order; and the window in flight never holds more than
    [batchSize] = 15 items. *)
Theorem files_start_once_in_order
    (x : Expansion) (flags : UploadState) (events : list Event) :
  let s := run (start_run x flags) events in
  started_names s
  = map originalname (take (started s) (ArchiveExpander.allFiles x)) ∧
  started s ≤ length (ArchiveExpander.allFiles x) ∧
  length (window s) ≤ 15.
Proof.
  intros s.
  pose proof (in_order_run x flags events) as Hord.
  pose proof (sound_run x flags events) as [_ _ _ Hw _ Hb _ _].
  unfold in_order in Hord. rewrite run_allFiles in Hord.
  split; [exact Hord|]. split; [exact Hb | exact Hw].
Qed.

(** The progress counter counts each settled item once: at any moment of any
    run [processedCount] is the number of entries that the windows have added
    to [results] plus the number of items of the window in flight that have
    settled; it never exceeds the number of items started, nor the total of
    the batch, so the progress sent to the client never exceeds 100%. *)
Theorem processedCount_counts_settled_items
    (x : Expansion) (flags : UploadState) (events : list Event) :
  let s := run (start_run x flags) events in
  processedCount s + length (ArchiveExpander.results x)
  = length (results s) + settled_items (window s) ∧
  processedCount s ≤ started s ∧
  processedCount s ≤ totalFiles s.
Proof.
  intros s.
  pose proof (sound_run x flags events) as [_ Ht _ _ Hs Hb Hp _].
  fold s in Ht, Hs, Hb, Hp.
  assert (Hle : settled_items (window s) ≤ length (window s)).
  { unfold settled_items. apply List.filter_length_le. }
  split; [exact Hp|]. split; lia.
Qed.

(** A paused run that is resumed goes on: when the coordinator sleeps in its
    pause loop and the run is not cancelled, a resumption followed by the
    coordinator's next wake-up dispatches the next window, which starts at
    file [i], holds at least one file and at most 15, all of them being
    processed. *)
Theorem resume_dispatches_next_window
    (x : Expansion) (flags : UploadState) (events : list Event) :
  let s := run (start_run x flags) events in
  pc s = PauseLoop →
  cancelled (uploadState s) = false →
  let s' := run s [ResumeRequest; Timer] in
  pc s' = AwaitingWindow ∧
  window s'
  = map (λ f, (f, Processing)) (take batchSize (drop (i s) (allFiles s))) ∧
  window s' ≠ [] ∧
  started s' = started s + length (window s').
Proof.
  intros s Hpc Hc s'.
  pose proof (sound_run x flags events) as [Hn _ _ _ _ _ _ Hcase].
  fold s in Hn, Hcase. rewrite Hpc in Hcase.
  destruct Hcase as (_ & _ & Hi & [u Hu]).
  assert (Hs' : s' = dispatch
    (mkRun (allFiles s) (totalFiles s) (i s) (results s) (duplicates s)
       (processedCount s)
       (Some (mkUploadState false (isCancelled u) (state_processedCount u)
                (state_totalFiles u)))
       (pc s) (window s) (log s ++ [SignalResumed]))).
  { unfold s'. simpl. unfold set_flags. rewrite Hu. simpl. rewrite Hpc.
    unfold pause_check, after_pause. simpl.
    rewrite Hu in Hc. simpl in Hc. by rewrite Hc. }
  rewrite Hu in Hc. simpl in Hc.
  match type of Hs' with _ = dispatch ?t =>
    destruct (dispatch_facts t Hc eq_refl) as (Epc & Ew & _ & _ & Es) end.
  rewrite <- Hs' in Epc, Ew, Es. simpl in Ew, Es.
  split; [exact Epc|]. split; [exact Ew|].
  assert (Hlen : length (take batchSize (drop (i s) (allFiles s))) ≠ 0).
  { rewrite length_take, length_drop, Hn. unfold batchSize. lia. }
  split.
  - rewrite Ew. intros Hnil. apply Hlen.
    apply (f_equal length) in Hnil. by rewrite length_map in Hnil.
  - rewrite Es, Ew, length_map. unfold started; simpl.
    rewrite List.filter_app, length_app. simpl. lia.
Qed.

End Facts.

End CoordinatorInvariants.

(** ** Batches with an archive that could not be expanded *)

Module FailedArchiveFacts.
Import JSValue Path FileSystem ArchiveExpander PostProcess BatchCoordinator.
Import ValueFacts CoordinatorFacts.

(** An entry of [results] that is neither a fulfilled nor a rejected
    promise and has no [reason]. *)
Definition unsettled_entry (r : Value) : Prop :=
  is_fulfilled r = false ∧ is_rejected r = false ∧ prop r "reason" = VUndefined.

(** The run has not answered with its JSON summary. *)
Definition no_summary (s : Run) : Prop :=
  match pc s with
  | Responded (Json _ _ _ _ _) => False
  | _ => True
  end.

Section Facts.
Context `{Builtins}.
Variable zip_open : string → Res (list Entry).
Variable random : nat → nat.

Lemma zip_failure_unsettled (file : File) (e : Error) :
  unsettled_entry (zip_failure file e).
Proof. by repeat split. Qed.

Lemma expandFile_results (x : Expansion) (file : File) :
  Forall unsettled_entry (ArchiveExpander.results x) →
  Forall unsettled_entry
    (ArchiveExpander.results (expandFile zip_open random x file)).
Proof.
  intros Hx. unfold expandFile, expandArchive.
  destruct (isZipFile file); [|done].
  destruct (extractPdfsFromZip _ _ _ _ _) as [[[out|err] fs'] d']; simpl; [done|].
  apply Forall_app. split; [done|].
  apply Forall_singleton, zip_failure_unsettled.
Qed.

Lemma expandArchives_results (files : list File) (fs : FS) :
  Forall unsettled_entry
    (ArchiveExpander.results (expandArchives zip_open random files fs)).
Proof.
  unfold expandArchives.
  assert (Hfold : ∀ x, Forall unsettled_entry (ArchiveExpander.results x) →
            Forall unsettled_entry
              (ArchiveExpander.results (fold_left (expandFile zip_open random) files x))).
  { induction files as [|file files IH]; intros x Hx; simpl; [done|].
    apply IH. by apply expandFile_results. }
  apply Hfold. constructor.
Qed.

Lemma response_entries_unsettled (r : Value) (rest : list Value) :
  unsettled_entry r → ∃ e, response_entries (r :: rest) = Throw e.
Proof.
  intros (Hf & _ & Hreason). simpl. unfold response_entry.
  rewrite Hf, Hreason. simpl. by eexists.
Qed.

Lemma summary_blocked (s : Run) (r : Value) (rest : list Value) :
  results s = r :: rest → unsettled_entry r → no_summary (summary s).
Proof.
  intros Hr Hu. unfold summary, no_summary. simpl. rewrite Hr.
  destruct (response_entries_unsettled r rest Hu) as [e ->]. done.
Qed.

(** The entries that the expansion left in [results] stay at its head. *)
Definition blocked (r : Value) (s : Run) : Prop :=
  (∃ rest, results s = r :: rest) ∧ no_summary s.

Lemma blocked_entry_points (r : Value) (s : Run) :
  unsettled_entry r → (∃ rest, results s = r :: rest) →
  blocked r (summary s) ∧
  (cancelled (uploadState s) = false → paused (uploadState s) = false →
   blocked r (dispatch s)).
Proof.
  intros Hu [rest Hr]. split.
  - split; [|by eapply summary_blocked].
    destruct (summary_facts s) as (_ & _ & -> & _). by eexists.
  - intros Hc Hp. destruct (dispatch_facts s Hc Hp) as (Epc & _ & _ & Er & _).
    split; [rewrite Er; by eexists|]. unfold no_summary. by rewrite Epc.
Qed.

Lemma blocked_pause_check (r : Value) (s : Run) :
  unsettled_entry r → (∃ rest, results s = r :: rest) →
  blocked r (pause_check s).
Proof.
  intros Hu Hr.
  destruct (blocked_entry_points r s Hu Hr) as [Hsum Hdis].
  unfold pause_check, after_pause.
  destruct (paused (uploadState s)) eqn:Hp,
           (cancelled (uploadState s)) eqn:Hc; simpl; auto.
  by split.
Qed.

Lemma blocked_enter_loop (r : Value) (s : Run) :
  unsettled_entry r → (∃ rest, results s = r :: rest) →
  blocked r (enter_loop s).
Proof.
  intros Hu Hr. unfold enter_loop. destruct (_ && _).
  - by apply blocked_pause_check.
  - by destruct (blocked_entry_points r s Hu Hr).
Qed.

Lemma blocked_step (r : Value) (s : Run) (ev : Event) :
  unsettled_entry r → blocked r s → blocked r (step s ev).
Proof.
  intros Hu [[rest Hr] Hno].
  assert (Hres : ∃ rest, results s = r :: rest) by by eexists.
  destruct ev as [|k|k o| | |]; simpl.
  - destruct (pc s) eqn:Epc.
    + by apply blocked_enter_loop.
    + by apply blocked_pause_check.
    + destruct (batchResults_of (window s)) as [rs|]; [|by split].
      unfold window_done.
      destruct (process_results rs) as [[rs' dups]|e]; [|by split].
      match goal with |- context [if ?c then _ else _] => destruct c end.
      * split; [|done]. simpl. rewrite Hr. by eexists.
      * unfold next_window. apply blocked_enter_loop; [done|].
        simpl. rewrite Hr. by eexists.
    + unfold next_window. by apply blocked_enter_loop.
    + by split.
    + by split.
  - destruct (window s !! k) as [[file []]|]; try by split.
    unfold item_wakes, item_begins, item_fails.
    destruct (_ && _); [by split|].
    destruct (cancelled (uploadState s)); [|by split].
    destruct (uploadState s); by split.
  - destruct (window s !! k) as [[file []]|]; try by split.
    pose proof (item_settles_facts s file o) as Hfacts.
    destruct (item_settles s file o) as [s' it].
    destruct Hfacts as (_ & Epc & _ & _ & _ & Er & _).
    unfold blocked, no_summary, set_item. simpl. rewrite Er, Epc. by split.
  - unfold set_flags. destruct (uploadState s); by split.
  - unfold set_flags. destruct (uploadState s); by split.
  - unfold set_flags. destruct (uploadState s); by split.
Qed.

(** When an archive of the batch could not be expanded, the request never
    gets its JSON summary, whatever the other files do and whatever events
    occur: the entry recorded for the archive has no [reason], and building
    the response throws on it. *)
Theorem failed_archive_blocks_summary
    (files : list File) (fs : FS) (flags : UploadState) (events : list Event) :
  let x := expandArchives zip_open random files fs in
  ArchiveExpander.results x ≠ [] →
  no_summary (run (start_run x flags) events).
Proof.
  intros x Hx.
  pose proof (expandArchives_results files fs) as Hall. fold x in Hall.
  destruct (ArchiveExpander.results x) as [|r rest] eqn:Er; [done|].
  apply Forall_cons in Hall as [Hu _].
  assert (Hstart : blocked r (start_run x flags)).
  { unfold start_run, blocked, no_summary.
    destruct (ArchiveExpander.allFiles x); simpl; rewrite Er; split; by eexists. }
  revert Hstart. generalize (start_run x flags).
  induction events as [|ev events IH]; intros s Hs; [by destruct Hs|].
  simpl. apply IH. by apply blocked_step.
Qed.

End Facts.

End FailedArchiveFacts.

(** ** The name without its extension *)

Module ExtensionFacts.
Import JSString DuplicateDetector.

(** An extension as the pattern [\.[^/.]+$] reads it after the dot: one or
    more characters, none of them a slash or a dot. *)
Definition plain_extension (ext : string) : Prop :=
  ext ≠ EmptyString ∧
  Forall (λ c, c ≠ "/"%char ∧ c ≠ "."%char) (list_ascii_of_string ext).

Lemma is_extension_spec (ext : string) :
  is_extension ext = true ↔ plain_extension ext.
Proof.
  unfold plain_extension. induction ext as [|c ext IH]; simpl.
  - split; [done | by intros [? _]].
  - rewrite !andb_true_iff, !negb_true_iff, Forall_cons.
    destruct (Ascii.eqb_spec c "/"), (Ascii.eqb_spec c ".");
      try (split; [by intros [[? ?] _] | by intros (_ & [? ?] & _)]).
    destruct ext as [|c' ext].
    + simpl. split; [|done]. intros _. repeat split; try done.
    + rewrite IH. split.
      * intros (_ & _ & Hrest). repeat split; try done.
      * intros (_ & _ & Hrest). repeat split; try done.
Qed.

Lemma is_extension_dot (s t : string) :
  is_extension (s +:+ String "." t) = false.
Proof.
  induction s as [|c s IH]; simpl; [done|].
  destruct (s +:+ String "." t) eqn:E.
  - by destruct s.
  - by rewrite IH, andb_false_r.
Qed.

(** [name.replace(/\.[^/.]+$/, EmptyString)] removes the last extension of a
    name and nothing else: a name that ends in a dot followed by an extension
    loses both, whatever comes before (further dots included); any other name
    (no dot, a dot at the very end, a slash after the last dot) is returned
    unchanged. *)
Theorem removeExtension_spec (name : string) :
  (∀ stem ext,
     name = stem +:+ "." +:+ ext → plain_extension ext →
     removeExtension name = stem) ∧
  ((∀ stem ext, name = stem +:+ "." +:+ ext → ¬ plain_extension ext) →
   removeExtension name = name).
Proof.
  split.
  - intros stem ext -> Hext%is_extension_spec.
    induction stem as [|c stem IH]; simpl.
    + by rewrite Hext.
    + simpl in IH. by rewrite is_extension_dot, andb_false_r, IH.
  - induction name as [|c name IH]; intros Hnone; simpl; [done|].
    destruct (Ascii.eqb_spec c ".") as [->|Hc]; simpl.
    + destruct (is_extension name) eqn:E.
      * destruct (Hnone EmptyString name eq_refl). by apply is_extension_spec.
      * f_equal. apply IH. intros stem ext ->.
        apply (Hnone (String "." stem) ext). done.
    + f_equal. apply IH. intros stem ext ->.
      apply (Hnone (String c stem) ext). done.
Qed.

End ExtensionFacts.

(** ** The upload filter and the archives *)

Module UploadFilterFacts.
Import JSString Path ArchiveExpander UploadFilter.

(** The files that [uploadPdfs] would expand as archives but that the upload
    filter turns away are exactly those sent with the MIME type
    [application/x-zip] under a name that ends neither in [.zip] nor in
    [.pdf]: that type is in the list of [isZipFile] and not in the filter's.
    Every other archive passes the filter. *)
Theorem fileFilter_rejects_x_zip_archives (file : File) :
  isZipFile file = true ∧ returns (fileFilter file) = false ↔
  mimetype file = "application/x-zip" ∧
  toLowerCase (extname (originalname file)) ≠ ".zip" ∧
  toLowerCase (extname (originalname file)) ≠ ".pdf".
Proof.
  unfold isZipFile, fileFilter, allowedMimeTypes, allowedExtensions.
  generalize (toLowerCase (extname (originalname file))). intros ext.
  generalize (mimetype file). intros mime.
  rewrite !orb_true_iff, !andb_true_iff, !bool_decide_eq_true.
  destruct (bool_decide (mime ∈ _)) eqn:Em; simpl.
  - apply bool_decide_eq_true in Em.
    rewrite !elem_of_cons, elem_of_nil in Em.
    split; [by intros [_ ?]|]. intros (-> & _ & _).
    destruct Em as [Em|[Em|[Em|[Em|[]]]]]; discriminate Em.
  - apply bool_decide_eq_false in Em.
    rewrite !elem_of_cons, elem_of_nil in Em.
    destruct (bool_decide (ext ∈ _)) eqn:Ee; simpl.
    + apply bool_decide_eq_true in Ee.
      rewrite !elem_of_cons, elem_of_nil in Ee.
      split; [by intros [_ ?]|]. intros (_ & Hz & Hp).
      destruct Ee as [Ee|[Ee|[]]]; by subst.
    + apply bool_decide_eq_false in Ee.
      rewrite !elem_of_cons, elem_of_nil in Ee.
      split.
      * intros [Hzip _]. split; [|split].
        -- destruct Hzip as [[[[Hz|Hz]|Hz]|Hz]|[Hz _]]; try done.
           ++ destruct Ee. right. by left.
           ++ destruct Em. right. by left.
           ++ destruct Em. right. right. by left.
           ++ destruct Em. right. right. right. by left.
        -- intros ->. destruct Ee. right. by left.
        -- intros ->. destruct Ee. by left.
      * intros (-> & _ & _). split; [|done]. left. by right.
Qed.

End UploadFilterFacts.

(** ** The files an item leaves on disk *)

Module ItemFileFacts.
Import JSString JSValue RegExp Store DuplicateDetector.
Import PdfProcessor Path FileSystem ArchiveExpander BatchCoordinator ItemPipeline.


Section Facts.
Context `{RegExpEngine} `{Builtins}.
Variable calculateFileHash : string → Res string.
Variable findOne : Query → Res (option Invoice).
Variable save : InvoiceDoc → Res unit.
Variable readText : string → Res string.
Variable llm_invoke : string → string → Res Response.
Variable updateOne : string → string → string → Res unit.
Variable random : nat.
Variable origin uploadsDir : string.


End Facts.

End ItemFileFacts.

(** ** Joining a name to a directory *)

Module PathFacts.
Import JSString JSStringFacts Path PathJoin ArchiveExpander ArchiveFacts.

(** A name without a slash. *)
Definition no_slash (name : string) : Prop :=
  forallb not_slash (list_ascii_of_string name) = true.

Lemma uint_no_slash (d : Decimal.uint) : no_slash (NilEmpty.string_of_uint d).
Proof. unfold no_slash. induction d; simpl; done. Qed.

Lemma digits_no_slash (n : nat) : no_slash (digits n).
Proof.
  unfold digits, NilZero.string_of_uint.
  destruct (Nat.to_uint n); try apply uint_no_slash. done.
Qed.

Lemma no_slash_app (a b : string) : no_slash a → no_slash b → no_slash (a +:+ b).
Proof.
  unfold no_slash. rewrite list_of_string_app, forallb_app.
  by intros -> ->.
Qed.

Lemma segments_from_plain (ns cur : list ascii) :
  forallb not_slash ns = true →
  segments_from ns cur = [string_of_list_ascii (rev cur ++ ns)].
Proof.
  revert cur. induction ns as [|c ns IH]; intros cur Hns; simpl.
  - by rewrite app_nil_r.
  - simpl in Hns. apply andb_true_iff in Hns as [Hc Hns].
    unfold not_slash in Hc. apply negb_true_iff in Hc. rewrite Hc.
    rewrite (IH _ Hns). simpl. by rewrite <- app_assoc.
Qed.

Lemma segments_from_snoc (cs ns cur : list ascii) :
  forallb not_slash ns = true →
  segments_from (cs ++ "/"%char :: ns) cur
  = segments_from cs cur ++ [string_of_list_ascii ns].
Proof.
  intros Hns. revert cur. induction cs as [|c cs IH]; intros cur; simpl.
  - by rewrite (segments_from_plain ns [] Hns).
  - destruct (Ascii.eqb c "/"); by rewrite IH.
Qed.

Lemma segments_snoc (dir name : string) :
  no_slash name → segments (dir +:+ "/" +:+ name) = segments dir ++ [name].
Proof.
  intros Hname. unfold segments.
  rewrite list_of_string_app. simpl.
  rewrite (segments_from_snoc _ _ _ Hname).
  by rewrite string_of_list_ascii_of_string.
Qed.

Lemma join_with_slash_snoc (portions : list string) (name : string) :
  portions ≠ [] →
  join_with_slash (portions ++ [name]) = join_with_slash portions +:+ "/" +:+ name.
Proof.
  induction portions as [|p [|q portions] IH]; intros Hne; [done|done|].
  change (join_with_slash ((p :: q :: portions) ++ [name]))
    with (p +:+ "/" +:+ join_with_slash ((q :: portions) ++ [name])).
  rewrite IH by done.
  change (join_with_slash (p :: q :: portions))
    with (p +:+ "/" +:+ join_with_slash (q :: portions)).
  by rewrite !append_assoc.
Qed.

Lemma endsWith_slash_app (dir name : string) :
  no_slash name → name ≠ EmptyString →
  endsWith_slash (dir +:+ "/" +:+ name) = false.
Proof.
  intros Hname Hne. unfold endsWith_slash, no_slash in *.
  rewrite list_of_string_app. simpl. rewrite rev_app_distr. simpl.
  destruct name as [|c name]; [done|]. simpl in *.
  destruct (rev (list_ascii_of_string name) ++ [c]) as [|x l] eqn:E.
  { by destruct (rev (list_ascii_of_string name)). }
  simpl.
  assert (Hx : not_slash x = true).
  { apply andb_true_iff in Hname as [Hc Hrest].
    assert (Hall : forallb not_slash (rev (list_ascii_of_string name) ++ [c]) = true).
    { rewrite forallb_app. simpl. rewrite Hc, andb_true_r.
      rewrite forallb_forall in Hrest |- *.
      intros y Hy. apply Hrest. by apply in_rev. }
    rewrite E in Hall. simpl in Hall. by apply andb_true_iff in Hall as [? _]. }
  unfold not_slash in Hx. by apply negb_true_iff in Hx.
Qed.

(** Joined to a normalised absolute directory, a plain name is appended
    after a slash. *)
Lemma join_plain_name (dir name : string) :
  normalize dir = dir → isAbsolute dir = true → endsWith_slash dir = false →
  no_slash name → name ≠ EmptyString → name ≠ "." → name ≠ ".." →
  join dir name = dir +:+ "/" +:+ name.
Proof.
  intros Hnorm Habs Htrail Hname Hne Hdot Hdots.
  assert (Hdir : dir ≠ EmptyString) by by destruct dir.
  unfold join. rewrite (bool_decide_eq_false_2 _ Hdir), (bool_decide_eq_false_2 _ Hne).
  unfold normalize in *.
  rewrite (bool_decide_eq_false_2 _ Hdir), Habs, Htrail in Hnorm. simpl in Hnorm.
  set (kept := fold_left (push_segment false) (segments dir) []) in *.
  assert (Hkept : join_with_slash (rev kept) ≠ EmptyString).
  { intros Hempty. rewrite (bool_decide_eq_true_2 _ Hempty) in Hnorm.
    subst dir. done. }
  rewrite (bool_decide_eq_false_2 _ Hkept) in Hnorm.
  assert (Hrev : rev kept ≠ []).
  { intros Hnil. by rewrite Hnil in Hkept. }
  assert (Habs' : isAbsolute (dir +:+ "/" +:+ name) = true).
  { destruct dir as [|c dir]; [done|]. exact Habs. }
  assert (Hne' : dir +:+ "/" +:+ name ≠ EmptyString) by by destruct dir.
  rewrite (bool_decide_eq_false_2 _ Hne'), Habs', (endsWith_slash_app _ _ Hname Hne).
  simpl negb. rewrite (segments_snoc _ _ Hname), fold_left_app. simpl.
  fold kept. unfold push_segment.
  rewrite (bool_decide_eq_false_2 _ Hne), (bool_decide_eq_false_2 _ Hdot),
    (bool_decide_eq_false_2 _ Hdots). simpl.
  rewrite (join_with_slash_snoc _ _ Hrev).
  rewrite bool_decide_eq_false_2.
  - transitivity (String "/" (join_with_slash (rev kept)) +:+ "/" +:+ name);
      [done | by rewrite Hnorm].
  - destruct (join_with_slash (rev kept)); done.
Qed.

(** The base name of a plain name appended to a directory is the name. *)
Lemma basename_appended (dir name : string) :
  no_slash name → name ≠ EmptyString →
  basename (dir +:+ "/" +:+ name) = name.
Proof.
  intros Hname Hne. unfold basename, last_portion_rev, no_slash in *.
  rewrite list_of_string_app. simpl. rewrite rev_app_distr. simpl.
  rewrite <- app_assoc. simpl.
  set (rn := rev (list_ascii_of_string name)).
  assert (Hrn : forallb not_slash rn = true).
  { unfold rn. rewrite forallb_forall in Hname |- *.
    intros y Hy. apply Hname. by apply in_rev. }
  assert (Hrn' : rn ≠ []).
  { unfold rn. destruct name as [|c name]; [done|]. simpl.
    by destruct (rev (list_ascii_of_string name)). }
  destruct rn as [|x rn'] eqn:Ern; [done|].
  simpl in Hrn. apply andb_true_iff in Hrn as [Hx Hrest].
  simpl. unfold not_slash in Hx. apply negb_true_iff in Hx. rewrite Hx.
  destruct (take_while_app_stop not_slash (x :: rn')
              (rev (list_ascii_of_string dir)) "/"%char) as [Ht _].
  { simpl. unfold not_slash at 1. by rewrite Hx. }
  { done. }
  cbn [app] in Ht. rewrite Ht, <- Ern. unfold rn.
  by rewrite rev_involutive, string_of_list_ascii_of_string.
Qed.

(** A name made of a prefix, a hyphen and a rest is none of the names that
    [path.join] treats specially. *)
Lemma hyphenated_name (a b : string) :
  a +:+ "-" +:+ b ≠ EmptyString ∧ a +:+ "-" +:+ b ≠ "." ∧ a +:+ "-" +:+ b ≠ "..".
Proof.
  destruct a as [|a0 [|a1 [|a2 a]]]; simpl; repeat split; try done;
    destruct b as [|b0 b]; simpl; done.
Qed.

End PathFacts.

(** ** What the three extraction tiers have in common *)

Module TierFacts.
Import JSString JSNumber JSValue RegExp PdfProcessor PostProcess.
Import ValueFacts ProcessorFacts CpcFacts.

(** An amount field as every tier leaves it: a number that is not [NaN],
    [null], or no field at all. *)
Definition amount_typed (v : Value) : Prop :=
  match v with
  | VNum x => isNaN x = false
  | VNull | VUndefined => True
  | _ => False
  end.

Definition is_object (v : Value) : Prop := ∃ props, v = VObj props.

(** The campaigns of extracted data: no field, or an array of objects. *)
Definition campaigns_are_objects (data : Value) : Prop :=
  match prop data "campaigns" with
  | VArr campaigns => Forall is_object campaigns
  | VUndefined => True
  | _ => False
  end.

(** The names of the fields of an object, in their order. *)
Definition keys (v : Value) : list string :=
  match v with VObj props => map fst props | _ => [] end.

Definition well_formed (data : Value) : Prop :=
  amount_typed (prop data "subtotal") ∧
  amount_typed (prop data "taxAmount") ∧
  amount_typed (prop data "totalAmount") ∧
  campaigns_are_objects data.

Ltac peel H :=
  repeat match type of H with
         | (_ ≫= _) = Ok _ =>
             let x := fresh "x" in
             let Hx := fresh "Hx" in
             apply bind_Ok_inv in H as (x & Hx & H)
         end.

Section Facts.
Context `{RegExpEngine} `{Builtins}.
Variable llm_invoke : string → string → Res Response.

Lemma toNumber_typed (val : Value) : amount_typed (toNumber val).
Proof.
  unfold toNumber. destruct (isNaN (parseFloat_value val)) eqn:E; simpl; done.
Qed.

Lemma extractMonetaryValue_typed (text : string) (re : RegExp) (g : nat) (v : Value) :
  extractMonetaryValue text re g = Ok v → amount_typed v.
Proof.
  unfold extractMonetaryValue.
  destruct (match_ text re) as [mr|]; [|by intros [= <-]].
  destruct (group mr g) as [s|]; [|done].
  intros [= <-]. by destruct (isNaN _) eqn:E.
Qed.

Lemma formatCampaign_object (platform : string) (c out : Value) :
  formatCampaign platform c = Ok out → is_object out.
Proof.
  unfold formatCampaign. intros Hf. peel Hf.
  destruct (bool_decide (platform = "google_ads")) eqn:Eg; simpl in *.
  - peel Hx1. injection Hx1 as <-.
    destruct (bool_decide (platform = "meta_ads")).
    + peel Hf. injection Hf as <-. by eexists.
    + injection Hf as <-. by eexists.
  - injection Hx1 as <-.
    destruct (bool_decide (platform = "meta_ads")).
    + peel Hf. injection Hf as <-. by eexists.
    + injection Hf as <-. by eexists.
Qed.

Lemma formatCampaigns_objects (platform : string) (items out : list Value) :
  formatCampaigns platform items = Ok out → Forall is_object out.
Proof.
  revert out. induction items as [|c items IH]; intros out; simpl.
  - by intros [= <-].
  - intros Hf. peel Hf. injection Hf as <-.
    constructor; [by eapply formatCampaign_object | by apply IH].
Qed.

Lemma extractCampaigns_objects (text : string) (out : list Value) :
  extractCampaigns text = Ok out → Forall is_object out.
Proof.
  intros Hex.
  pose proof (extractCampaigns_loop_parsed _ _ _ [] out (Forall_nil_2 _) Hex) as Hp.
  eapply Forall_impl; [exact Hp|].
  intros c (name & clicks & amount & ->). by eexists.
Qed.

Lemma validateAndFormatData_well_formed (data out : Value) (platform text : string) :
  validateAndFormatData data platform text = Ok out → well_formed out.
Proof.
  unfold validateAndFormatData. intros Hv. peel Hv. injection Hv as <-.
  match goal with
  | Hc : match ?raw with VArr _ => _ | _ => _ end = Ok ?cs |- _ =>
      assert (Hcampaigns : Forall is_object cs)
        by (destruct raw as [| | | | | |[|c items]|];
            first [ by apply (formatCampaigns_objects platform (c :: items))
                  | destruct (bool_decide (platform = "google_ads"));
                    [by apply (extractCampaigns_objects text)
                    | by injection Hc as <-] ])
  end.
  unfold well_formed, campaigns_are_objects.
  match goal with
  | |- context [if truthy ?v then _ else _] => destruct (truthy v)
  end; simpl; repeat split; try apply toNumber_typed; done.
Qed.

Lemma extractNumericValue_typed (text : string) (re : RegExp) (v : Value) :
  extractNumericValue text re = Ok v → amount_typed v.
Proof.
  unfold extractNumericValue.
  destruct (match_ text re) as [mr|]; [|by intros [= <-]].
  destruct (group mr 1) as [s|]; [|done].
  intros [= <-]. by destruct (isNaN _) eqn:E.
Qed.

Lemma basicExtraction_well_formed (text platform : string) (out : Value) :
  basicExtraction text platform = Ok out → well_formed out.
Proof.
  unfold basicExtraction.
  destruct (bool_decide (platform = "google_ads")); intros Hb; peel Hb;
    injection Hb as <-; unfold well_formed, campaigns_are_objects; simpl.
  - repeat split; try (by eapply extractMonetaryValue_typed).
    by apply (extractCampaigns_objects text).
  - repeat split; try done. by eapply extractMonetaryValue_typed.
Qed.

(** The data [extractInvoiceData] returns went through
    [validateAndFormatData], or is what [basicExtraction] found. *)
Lemma extractInvoiceData_origin (text platform : string) (data : Value) :
  extractInvoiceData llm_invoke text platform = Ok data →
  (∃ raw, validateAndFormatData raw platform text = Ok data) ∨
  basicExtraction text platform = Ok data.
Proof.
  unfold extractInvoiceData.
  destruct (llm_invoke platform text) as [response|e]; simpl; [|by right].
  destruct (JSON_parse (response_json response)) as [parsed|e]; simpl.
  - destruct (validateAndFormatData parsed platform text) as [out|e] eqn:E; simpl.
    + intros [= <-]. left. by eexists.
    + by right.
  - destruct (basicExtraction text platform) as [raw|e'] eqn:Eb; simpl; [|by right].
    destruct (validateAndFormatData raw platform text) as [out|e''] eqn:E; simpl.
    + intros [= <-]. left. by eexists.
    + intros [= <-]. by right.
Qed.

Lemma extractInvoiceData_well_formed (text platform : string) (data : Value) :
  extractInvoiceData llm_invoke text platform = Ok data → well_formed data.
Proof.
  intros [[raw Hv]|Hb]%extractInvoiceData_origin.
  - by eapply validateAndFormatData_well_formed.
  - by eapply basicExtraction_well_formed.
Qed.

(** *** Post-processing well-formed data *)

Lemma prop_set_frame (data : Value) (k k' : string) (x : Value) :
  k ≠ k' → prop (set data k x) k' = prop data k'.
Proof. intros Hk. destruct data; try done. by apply prop_set_other. Qed.

Lemma amount_typed_truthy (v : Value) :
  amount_typed v → truthy v = true → ∃ x, v = VNum x.
Proof. destruct v; try done. by eexists. Qed.

Lemma sumOfAmounts_objects (campaigns : list Value) (sum : Value) :
  Forall is_object campaigns → ∃ total, sumOfAmounts campaigns sum = Ok total.
Proof.
  intros Hall. revert sum.
  induction Hall as [|c campaigns [props ->] _ IH]; intros sum; simpl.
  - by eexists.
  - apply IH.
Qed.

Lemma postProcess_well_formed (data : Value) :
  well_formed data → ∃ out, postProcess data = Ok out.
Proof.
  intros (Hsub & Htax & Htotal & Hcampaigns).
  unfold postProcess.
  assert (Hone : ∃ d1, deriveSubtotal data = Ok d1 ∧
            prop d1 "taxAmount" = prop data "taxAmount" ∧
            prop d1 "campaigns" = prop data "campaigns" ∧
            (truthy (prop d1 "subtotal") = true → ∃ x, prop d1 "subtotal" = VNum x)).
  { unfold deriveSubtotal. destruct (_ && _); simpl.
    - eexists. split; [done|]. rewrite !prop_set_frame by done.
      split; [done|]. split; [done|].
      destruct data; simpl; try done.
      rewrite lookup_update_same. by eexists.
    - eexists. split; [done|]. split; [done|]. split; [done|].
      by apply amount_typed_truthy. }
  destruct Hone as (d1 & -> & Etax & Ecampaigns & Hsub1). simpl.
  assert (Htwo : ∃ d2, deriveTotal d1 = Ok d2 ∧
            prop d2 "campaigns" = prop data "campaigns").
  { unfold deriveTotal.
    destruct (truthy (prop d1 "totalAmount")); simpl; [by eexists|].
    destruct (truthy (prop d1 "subtotal")) eqn:Es; simpl; [|by eexists].
    destruct (truthy (prop d1 "taxAmount")) eqn:Et; simpl; [|by eexists].
    destruct (Hsub1 eq_refl) as [s ->].
    rewrite Etax in Et |- *.
    destruct (amount_typed_truthy _ Htax Et) as [t ->].
    simpl. eexists. split; [done|]. by rewrite prop_set_frame. }
  destruct Htwo as (d2 & -> & Ecampaigns2). simpl.
  unfold subtotalFromCampaigns, campaigns_are_objects in *.
  rewrite Ecampaigns2.
  destruct (_ || _); [|by eexists].
  destruct (prop data "campaigns") as [| | | | | |[|c items]|]; try by eexists.
  destruct (sumOfAmounts_objects (c :: items) (VNum 0) Hcampaigns) as [total ->].
  simpl. by eexists.
Qed.

Lemma get_Ok (v x : Value) (k : string) : get v k = Ok x → x = prop v k.
Proof. destruct v; simpl; try done; by intros [= <-]. Qed.

(** Whatever object the service answered with, the data that
    [validateAndFormatData] returns has the same fields in the same order:
    five identification fields, the billing period when the answer has one,
    then the three amounts, the currency and the campaigns.  Any other field
    of the answer is dropped; the currency is never empty ([INR] when the
    answer has none); the campaigns are always an array. *)
Theorem validateAndFormatData_fixed_fields
    (data out : Value) (platform text : string) :
  validateAndFormatData data platform text = Ok out →
  keys out
  = ["invoiceNumber"; "invoiceDate"; "accountId"; "accountName"; "location"]
    ++ (if truthy (prop data "billingPeriod") then ["billingPeriod"] else [])
    ++ ["subtotal"; "taxAmount"; "totalAmount"; "currency"; "campaigns"] ∧
  truthy (prop out "currency") = true ∧
  (truthy (prop data "currency") = false → prop out "currency" = VStr "INR") ∧
  isArray (prop out "campaigns") = true.
Proof.
  unfold validateAndFormatData. intros Hv. peel Hv. injection Hv as <-.
  repeat match goal with
         | Hg : get data _ = Ok _ |- _ => apply get_Ok in Hg; subst
         end.
  unfold keys, or_.
  destruct (truthy (prop data "billingPeriod")); simpl;
    destruct (truthy (prop data "currency")) eqn:Ec; simpl; by rewrite ?Ec.
Qed.

(** Whichever tier produced them, the amounts that [extractInvoiceData]
    returns are numbers or [null], never [NaN] and never text: the subtotal,
    the tax and the total are each a number that is not [NaN], [null], or
    (on the fallback of a platform other than google_ads) not set at all;
    and the campaigns, when there are any, are objects. *)
Theorem extractInvoiceData_amounts_typed (text platform : string) (data : Value) :
  extractInvoiceData llm_invoke text platform = Ok data →
  amount_typed (prop data "subtotal") ∧
  amount_typed (prop data "taxAmount") ∧
  amount_typed (prop data "totalAmount") ∧
  campaigns_are_objects data.
Proof. apply extractInvoiceData_well_formed. Qed.

(** The reconciliation of the amounts that [uploadPdfs] applies to a
    processed item never throws on data that [extractInvoiceData] returned,
    so it cannot abort a batch. *)
Theorem postProcess_accepts_extracted_data (text platform : string) (data : Value) :
  extractInvoiceData llm_invoke text platform = Ok data →
  ∃ out, postProcess data = Ok out.
Proof.
  intros Hex. by apply postProcess_well_formed, (extractInvoiceData_well_formed text platform).
Qed.

End Facts.

End TierFacts.

(** ** Finding a stored file again *)

Module ResolverFacts.
Import JSString Path FileSystem DuplicateDetector PathJoin FileResolver.

Lemma normalize_absolute (p : string) :
  isAbsolute p = true → isAbsolute (normalize p) = true.
Proof.
  intros Hp. unfold normalize.
  destruct (bool_decide (p = EmptyString)) eqn:E.
  - apply bool_decide_eq_true in E. by subst p.
  - rewrite Hp. simpl.
    match goal with |- context [if ?c then _ else _] => by destruct c end.
Qed.

(** Joined to an absolute directory, any name gives an absolute path. *)
Lemma join_absolute (dir name : string) :
  isAbsolute dir = true → isAbsolute (join dir name) = true.
Proof.
  intros Hdir. unfold join.
  destruct dir as [|c dir]; [done|].
  rewrite bool_decide_eq_false_2 by done.
  destruct (bool_decide (name = EmptyString)); apply normalize_absolute;
    [done|].
  unfold isAbsolute in *. simpl in *.
  by destruct (Ascii.eqb "/" c).
Qed.

Lemma includes_empty (s : string) : includes s EmptyString = true.
Proof. by destruct s. Qed.

Lemma isAbsolute_not_empty (p : string) : isAbsolute p = true → p ≠ EmptyString.
Proof. by destruct p. Qed.

Section Facts.
Variable fs : FS.
Variable readdirSync : string → Res (list string).
Variable uploadsDir : string.

Lemma find_in_uploads_some (pred : string → bool) (name : string) :
  find_in_uploads readdirSync uploadsDir pred = Some name →
  ∃ files, readdirSync uploadsDir = Ok files ∧ name ∈ files ∧ pred name = true.
Proof.
  unfold find_in_uploads. destruct (readdirSync uploadsDir) as [files|e]; [|done].
  intros [Hin Hp]%find_some. exists files. split; [done|]. split; [|done].
  by apply list_elem_of_In.
Qed.

(** The three places a resolved path can come from. *)
Lemma resolveFilePath_origin (filePath : option string) (p : string) :
  resolveFilePath fs readdirSync uploadsDir filePath = Some p →
  (filePath = Some p ∧ isAbsolute p = true ∧ p ∈ fs) ∨
  (∃ stored, filePath = Some stored ∧
     p = join uploadsDir (basename stored) ∧ p ∈ fs) ∨
  (∃ stored files name,
     filePath = Some stored ∧
     readdirSync uploadsDir = Ok files ∧ name ∈ files ∧
     p = join uploadsDir name ∧
     (includes name (removeExtension (basename stored)) = true ∨
      includes (removeExtension name) (removeExtension (basename stored)) = true ∨
      includes (removeExtension (basename stored)) (removeExtension name) = true)).
Proof.
  unfold resolveFilePath, existsSync.
  destruct filePath as [stored|]; [|done].
  destruct (bool_decide (stored = EmptyString)); [done|].
  destruct (isAbsolute stored) eqn:Habs; simpl.
  - destruct (bool_decide (stored ∈ fs)) eqn:Hex.
    { intros [= <-]. left. by apply bool_decide_eq_true in Hex. }
    destruct (bool_decide (join uploadsDir (basename stored) ∈ fs)) eqn:Hex2.
    { intros [= <-]. right. left. exists stored.
      by apply bool_decide_eq_true in Hex2. }
    destruct (find_in_uploads _ _ _) as [m|] eqn:Hfind.
    { intros [= <-]. right. right.
      apply find_in_uploads_some in Hfind as (files & Hdir & Hin & Hm).
      exists stored, files, m. auto 10. }
    destruct (_ || _); [|done].
    match goal with
    | |- context [find_in_uploads ?r ?d ?f] =>
        destruct (find_in_uploads r d f) as [m|] eqn:Hfind2; [|done]
    end.
    intros [= <-]. right. right.
    apply find_in_uploads_some in Hfind2 as (files & Hdir & Hin & Hm).
    apply orb_true_iff in Hm. exists stored, files, m. intuition.
  - destruct (bool_decide (join uploadsDir (basename stored) ∈ fs)) eqn:Hex2.
    { intros [= <-]. right. left. exists stored.
      by apply bool_decide_eq_true in Hex2. }
    destruct (find_in_uploads _ _ _) as [m|] eqn:Hfind.
    { intros [= <-]. right. right.
      apply find_in_uploads_some in Hfind as (files & Hdir & Hin & Hm).
      exists stored, files, m. auto 10. }
    destruct (_ || _); [|done].
    match goal with
    | |- context [find_in_uploads ?r ?d ?f] =>
        destruct (find_in_uploads r d f) as [m|] eqn:Hfind2; [|done]
    end.
    intros [= <-]. right. right.
    apply find_in_uploads_some in Hfind2 as (files & Hdir & Hin & Hm).
    apply orb_true_iff in Hm. exists stored, files, m. intuition.
Qed.

(** A path that [resolveFilePath] returns is the stored path itself, which
    is then absolute and exists; or the stored path's base name joined to
    the uploads directory, which then exists; or an entry of the uploads
    directory, joined to it, whose name contains the stem of the stored name
    or whose stem and the stored stem contain one another.  The directory
    part of a stored path that does not exist plays no role. *)
Theorem resolveFilePath_provenance (filePath : option string) (p : string) :
  resolveFilePath fs readdirSync uploadsDir filePath = Some p →
  (filePath = Some p ∧ isAbsolute p = true ∧ p ∈ fs) ∨
  (∃ stored, filePath = Some stored ∧
     p = join uploadsDir (basename stored) ∧ p ∈ fs) ∨
  (∃ stored files name,
     filePath = Some stored ∧
     readdirSync uploadsDir = Ok files ∧ name ∈ files ∧
     p = join uploadsDir name ∧
     (includes name (removeExtension (basename stored)) = true ∨
      includes (removeExtension name) (removeExtension (basename stored)) = true ∨
      includes (removeExtension (basename stored)) (removeExtension name) = true)).
Proof. apply resolveFilePath_origin. Qed.

(** Resolving is idempotent when the uploads directory is given by an
    absolute path and its listing names files that exist: a path that
    [resolveFilePath] returned resolves to itself. *)
Theorem resolveFilePath_idempotent (filePath : option string) (p : string) :
  isAbsolute uploadsDir = true →
  (∀ files name, readdirSync uploadsDir = Ok files → name ∈ files →
     join uploadsDir name ∈ fs) →
  resolveFilePath fs readdirSync uploadsDir filePath = Some p →
  resolveFilePath fs readdirSync uploadsDir (Some p) = Some p.
Proof.
  intros Hdir Hlisted Hres.
  assert (Hfix : ∀ q, isAbsolute q = true → q ∈ fs →
            resolveFilePath fs readdirSync uploadsDir (Some q) = Some q).
  { intros q Hq Hin. unfold resolveFilePath, existsSync.
    rewrite (bool_decide_eq_false_2 _ (isAbsolute_not_empty q Hq)), Hq.
    by rewrite (bool_decide_eq_true_2 _ Hin). }
  destruct (resolveFilePath_origin _ _ Hres)
    as [(_ & Habs & Hin)|[(stored & _ & -> & Hin)
       |(stored & files & name & _ & Hfiles & Hname & -> & _)]].
  - by apply Hfix.
  - apply Hfix; [by apply join_absolute | done].
  - apply Hfix; [by apply join_absolute | by eapply Hlisted].
Qed.

(** A stored path whose base name is nothing but an extension (such as
    [.pdf]) has an empty stem, which every name contains: when the file is
    found neither at the stored path nor under its base name in the uploads
    directory, the first entry of that directory is returned, whatever file
    it is. *)
Theorem resolveFilePath_empty_stem (stored first : string) (others : list string) :
  stored ≠ EmptyString →
  removeExtension (basename stored) = EmptyString →
  stored ∉ fs →
  join uploadsDir (basename stored) ∉ fs →
  readdirSync uploadsDir = Ok (first :: others) →
  resolveFilePath fs readdirSync uploadsDir (Some stored) = Some (join uploadsDir first).
Proof.
  intros Hne Hstem Hmissing Hmissing' Hdir.
  unfold resolveFilePath, existsSync, find_in_uploads.
  rewrite (bool_decide_eq_false_2 _ Hne), (bool_decide_eq_false_2 _ Hmissing),
    (bool_decide_eq_false_2 _ Hmissing'), andb_false_r, Hdir, Hstem.
  simpl. by rewrite includes_empty.
Qed.

End Facts.

End ResolverFacts.
(** ** The batch coordinator: pauses and cancellation *)

Module CancellationFacts.
Import JSValue ArchiveExpander PostProcess BatchCoordinator ValueFacts.
Import CoordinatorFacts CoordinatorInvariants.

(** The entry of [batchResults] with which an item settles, and the status of
    the notification it sends, while the state of the upload exists. *)
Definition outcome_entry (file : File) (o : ItemOutcome) : Value :=
  match o with
  | Failed e => rejected e
  | Duplicate reason existingFile =>
      fulfilled (VObj [("fileName", VStr (originalname file));
                       ("status", VStr "duplicate");
                       ("reason", VStr reason);
                       ("existingFile", existingFile)])
  | Completed platform extractedData pdfUrl =>
      fulfilled (VObj [("fileName", VStr (originalname file));
                       ("platform", VStr platform);
                       ("extractedData", extractedData);
                       ("status", VStr "completed");
                       ("pdfUrl", VStr pdfUrl)])
  end.

Definition outcome_status (o : ItemOutcome) : string :=
  match o with
  | Failed _ => "error"
  | Duplicate _ _ => "duplicate"
  | Completed _ _ _ => "completed"
  end.

(** The run with [i] moved to the next window. *)
Definition advanced (s : Run) : Run :=
  mkRun (allFiles s) (totalFiles s) (i s + batchSize) (results s) (duplicates s)
    (processedCount s) (uploadState s) (pc s) (window s) (log s).

(** The states in which the coordinator dispatches nothing. *)
Definition halted (s : Run) : Prop :=
  paused (uploadState s) = true ∨ stopped s.

(** An entry whose extracted data, if it has any, is typed as the processor
    types it. *)
Definition acceptable (r : Value) : Prop :=
  TierFacts.well_formed (prop (prop r "value") "extractedData").

(** The three counts of the summary. *)
Definition counted (results duplicates : list Value) : nat :=
  count_successful results + count_failed results + length duplicates.

(** What a run that started without entries of failed archives keeps. *)
Definition tallied (s : Run) : Prop :=
  Forall settled_ok (results s) ∧
  length (duplicates s) = count_duplicates (results s) ∧
  match pc s with
  | Responded (Json successful failed dups _ entries) =>
      successful + failed + dups = length entries ∧
      length entries = length (results s) ∧
      window s = [] ∧ uploadState s = None
  | _ => True
  end.

#[local] Arguments Nat.min : simpl never.

Section Facts.
Context `{Builtins}.

Ltac count_started :=
  unfold started; simpl; rewrite ?List.filter_app, ?length_app; simpl.

(** *** While the run is paused *)

Lemma pause_check_paused (s : Run) :
  paused (uploadState s) = true → cancelled (uploadState s) = false →
  pause_check s = with_pc s PauseLoop.
Proof. intros Hp Hc. unfold pause_check. by rewrite Hp, Hc. Qed.

Lemma enter_loop_paused (s : Run) :
  paused (uploadState s) = true → cancelled (uploadState s) = false →
  halted (enter_loop s) ∧ started (enter_loop s) = started s.
Proof.
  intros Hp Hc. unfold enter_loop. rewrite Hc, andb_true_r.
  destruct (i s <? length (allFiles s))%nat.
  - rewrite pause_check_paused by done. split; [by left|done].
  - destruct (summary_facts s) as (Ht & Hst & _). split; [right; by right|done].
Qed.

Lemma halted_step (s : Run) (ev : Event) :
  none_sleeping s → halted s → ev ≠ ResumeRequest →
  halted (step s ev) ∧ started (step s ev) = started s.
Proof.
  intros Hs Hh Hev.
  assert (Hstopped : stopped s →
            halted (step s ev) ∧ started (step s ev) = started s).
  { intros Hst. destruct (step_stopped s ev Hs Hst). split; [by right|done]. }
  destruct Hh as [Hp|Hst]; [|by apply Hstopped].
  destruct (cancelled (uploadState s)) eqn:Hc; [apply Hstopped; by left|].
  destruct ev as [|k|k o| | |]; simpl; try done.
  - destruct (pc s) eqn:Epc.
    + by apply enter_loop_paused.
    + rewrite pause_check_paused by done. split; [by left|done].
    + destruct (batchResults_of (window s)) as [rs|]; [|split; [by left|done]].
      unfold window_done.
      destruct (process_results rs) as [[rs' dups]|e];
        [|split; [right; by right|done]].
      simpl. rewrite Hc, andb_true_r.
      destruct (i s + batchSize <? length (allFiles s))%nat.
      * split; [by left|done].
      * unfold next_window.
        match goal with |- context [enter_loop ?t] =>
          destruct (enter_loop_paused t Hp Hc) as [Hh' Hst'] end.
        split; [done|]. by rewrite Hst'.
    + unfold next_window.
      match goal with |- context [enter_loop ?t] =>
        destruct (enter_loop_paused t Hp Hc) as [Hh' Hst'] end.
      split; [done|]. by rewrite Hst'.
    + split; [by left|done].
    + split; [by left|done].
  - destruct (window s !! k) as [[file []]|] eqn:Hk; try (split; [by left|done]).
    unfold none_sleeping in Hs. rewrite Forall_lookup in Hs.
    by destruct (Hs _ _ Hk).
  - destruct (window s !! k) as [[file []]|] eqn:Hk; try (split; [by left|done]).
    pose proof (item_settles_facts s file o) as Hfacts.
    destruct (item_settles s file o) as [s' it].
    destruct Hfacts as (Hst & _ & _ & _ & Hp' & _).
    unfold halted, set_item; simpl. rewrite Hp', Hp. split; [by left|done].
  - unfold set_flags. destruct (uploadState s) as [u|] eqn:Eu; [|done].
    split; [right; by left|]. count_started. lia.
  - unfold set_flags. destruct (uploadState s) as [u|] eqn:Eu; [|done].
    split; [by left|]. count_started. lia.
Qed.

Lemma halted_run (events : list Event) (s : Run) :
  none_sleeping s → halted s → ResumeRequest ∉ events →
  halted (run s events) ∧ started (run s events) = started s.
Proof.
  revert s. induction events as [|ev events IH]; intros s Hs Hh Hev; [done|].
  assert (Hne : ev ≠ ResumeRequest) by (intros ->; apply Hev; by left).
  assert (Hrest : ResumeRequest ∉ events) by (intros ?; apply Hev; by right).
  destruct (halted_step s ev Hs Hh Hne) as [Hh' Hst].
  destruct (IH (step s ev) (step_keeps_awake _ _ Hs) Hh' Hrest) as [Hh'' Hst''].
  simpl. split; [done|]. by rewrite Hst''.
Qed.

(** *** The entries of the window *)

Lemma outcome_entry_ok (file : File) (o : ItemOutcome) :
  settled_ok (outcome_entry file o).
Proof. destruct o; [by left | by left | by right]. Qed.

(** Each outcome falls into exactly one of the three counts. *)
Lemma outcome_entry_counted (file : File) (o : ItemOutcome) :
  count_successful [outcome_entry file o] + count_failed [outcome_entry file o]
  + count_duplicates [outcome_entry file o] = 1.
Proof. by destruct o. Qed.

Lemma item_settles_entry (s : Run) (file : File) (o : ItemOutcome) :
  is_Some (uploadState s) →
  item_settles s file o
  = (emit (count_processed s) (Progress (originalname file) (outcome_status o)),
     Settled (outcome_entry file o)).
Proof.
  intros [u Hu]. destruct o; simpl; unfold item_fails; by rewrite Hu.
Qed.

Lemma item_fails_ok (s : Run) (file : File) (e : Error) :
  item_ok (file, (item_fails s file e).2) ∧
  window (item_fails s file e).1 = window s.
Proof.
  unfold item_fails. destruct (uploadState s); simpl; split; try done; by right.
Qed.

Lemma item_settles_ok (s : Run) (file : File) (o : ItemOutcome) :
  item_ok (file, (item_settles s file o).2) ∧
  window (item_settles s file o).1 = window s.
Proof.
  destruct o as [reason existing|platform data url|e]; simpl;
    try apply item_fails_ok;
    destruct (uploadState s) eqn:Eu; simpl; try (split; [by left|done]);
    unfold item_fails; simpl; rewrite ?Eu; simpl; split; try done; by right.
Qed.

Lemma entry_points_ok (s : Run) :
  Forall item_ok (window s) →
  Forall item_ok (window (summary s)) ∧
  Forall item_ok (window (pause_check s)) ∧
  Forall item_ok (window (enter_loop s)).
Proof.
  intros Hw.
  assert (Hsum : Forall item_ok (window (summary s))).
  { by destruct (summary_facts s) as (_ & _ & _ & -> & _). }
  assert (Hpause : Forall item_ok (window (pause_check s))).
  { unfold pause_check, after_pause.
    destruct (paused (uploadState s)) eqn:Hp,
             (cancelled (uploadState s)) eqn:Hc; cbn [andb negb]; auto.
    destruct (dispatch_facts s Hc Hp) as (_ & -> & _).
    clear. induction (take _ _); simpl; by constructor. }
  split; [done|]. split; [done|].
  unfold enter_loop. by destruct (_ && _).
Qed.

Lemma window_ok_step (s : Run) (ev : Event) :
  Forall item_ok (window s) → Forall item_ok (window (step s ev)).
Proof.
  intros Hw. destruct ev as [|k|k o| | |]; simpl.
  - destruct (pc s); try done.
    + by apply entry_points_ok.
    + by apply entry_points_ok.
    + destruct (batchResults_of (window s)) as [rs|]; [|done].
      unfold window_done.
      destruct (process_results rs) as [[rs' dups]|e]; [|done].
      match goal with |- context [if ?c then _ else _] => destruct c end;
        [by constructor|].
      unfold next_window. apply entry_points_ok. by constructor.
    + unfold next_window. by apply entry_points_ok.
  - destruct (window s !! k) as [[file []]|] eqn:Hk; try done.
    unfold item_wakes, item_begins.
    destruct (_ && _); [by apply Forall_insert|].
    destruct (cancelled (uploadState s)).
    + destruct (item_fails_ok s file (mkError "Error" "Upload cancelled"))
        as [Hit Hwin].
      destruct (item_fails s file _) as [s' it]. simpl in *.
      unfold set_item. simpl. rewrite Hwin. by apply Forall_insert.
    + by apply Forall_insert.
  - destruct (window s !! k) as [[file []]|] eqn:Hk; try done.
    destruct (item_settles_ok s file o) as [Hit Hwin].
    destruct (item_settles s file o) as [s' it]. simpl in *.
    unfold set_item. simpl. rewrite Hwin. by apply Forall_insert.
  - unfold set_flags. by destruct (uploadState s).
  - unfold set_flags. by destruct (uploadState s).
  - unfold set_flags. by destruct (uploadState s).
Qed.

Lemma window_ok_run (x : Expansion) (flags : UploadState) (events : list Event) :
  Forall item_ok (window (run (start_run x flags) events)).
Proof.
  assert (Hstart : Forall item_ok (window (start_run x flags))).
  { unfold start_run. destruct (ArchiveExpander.allFiles x); constructor. }
  revert Hstart. generalize (start_run x flags).
  induction events as [|ev events IH]; intros s Hs; [done|].
  simpl. apply IH. by apply window_ok_step.
Qed.

(** Data typed as the processor types it goes through the reconciliation of
    the amounts. *)
Lemma process_results_acceptable (rs : list Value) :
  Forall acceptable rs → ∃ rs' dups, process_results rs = Ok (rs', dups).
Proof.
  induction 1 as [|r rs Hr _ [rs' [dups IH]]]; simpl; [by eexists _, _|].
  assert (Hone : ∃ r' d, process_result r = Ok (r', d)).
  { unfold process_result.
    destruct (is_fulfilled r); [|by eexists _, _].
    destruct (is_duplicate r); [by eexists _, _|].
    destruct (truthy _); [|by eexists _, _].
    destruct (TierFacts.postProcess_well_formed _ Hr) as [out ->].
    simpl. by eexists _, _. }
  destruct Hone as (r' & d & ->). simpl. rewrite IH. simpl. by eexists _, _.
Qed.

Lemma count_successful_app (a b : list Value) :
  count_successful (a ++ b) = count_successful a + count_successful b.
Proof. unfold count_successful. by rewrite List.filter_app, length_app. Qed.

Lemma count_failed_app (a b : list Value) :
  count_failed (a ++ b) = count_failed a + count_failed b.
Proof. unfold count_failed. by rewrite List.filter_app, length_app. Qed.

(** The entries of a settled window are each counted once. *)
Lemma window_counted (w : list (File * ItemState)) (rs rs' dups : list Value)
    (results duplicates : list Value) :
  Forall item_ok w → batchResults_of w = Some rs →
  process_results rs = Ok (rs', dups) →
  length rs' = length w ∧
  counted (results ++ rs') (duplicates ++ dups)
  = counted results duplicates + length w.
Proof.
  intros Hw Hrs Hproc.
  pose proof (batchResults_ok _ _ Hw Hrs) as Hok.
  destruct (process_results_ok _ _ _ Hok Hproc) as [Hok' Hdups].
  pose proof (settled_entries_accounted _ Hok') as Hacc.
  pose proof (process_results_length _ _ _ Hproc) as Hlen.
  pose proof (mapM_settled_length _ _ Hrs) as Hlen'.
  split; [lia|].
  unfold counted. rewrite count_successful_app, count_failed_app, length_app.
  unfold count_duplicates in Hdups. lia.
Qed.

(** *** The summary of any run without failed archives *)

Lemma tallied_summary (s : Run) :
  Forall settled_ok (results s) →
  length (duplicates s) = count_duplicates (results s) →
  window s = [] →
  tallied (summary s).
Proof.
  intros Hres Hdup Hnil.
  pose proof (settled_entries_accounted _ Hres) as Hacc.
  unfold tallied, summary, outer_catch. simpl.
  destruct (response_entries (results s)) as [entries|e] eqn:E; simpl;
    repeat split; try done.
  - apply response_entries_length in E. rewrite Hdup, E.
    unfold count_duplicates. done.
  - by apply response_entries_length in E.
Qed.

Lemma tallied_pause_check (s : Run) :
  Forall settled_ok (results s) →
  length (duplicates s) = count_duplicates (results s) →
  window s = [] →
  tallied (pause_check s).
Proof.
  intros Hres Hdup Hnil. unfold pause_check, after_pause.
  destruct (paused (uploadState s)) eqn:Hp,
           (cancelled (uploadState s)) eqn:Hc; simpl;
    try (by apply tallied_summary); [by repeat split|].
  destruct (start_items_running (take batchSize (drop (i s) (allFiles s)))
              (with_window s []) Hc Hp) as (_ & _ & _ & Hr & Hd & _).
  unfold tallied, dispatch. simpl. rewrite Hr, Hd. by repeat split.
Qed.

Lemma tallied_enter_loop (s : Run) :
  Forall settled_ok (results s) →
  length (duplicates s) = count_duplicates (results s) →
  window s = [] →
  tallied (enter_loop s).
Proof.
  intros Hres Hdup Hnil. unfold enter_loop. destruct (_ && _).
  - by apply tallied_pause_check.
  - by apply tallied_summary.
Qed.

Lemma tallied_step (n r0 : nat) (s : Run) (ev : Event) :
  sound n r0 s → Forall item_ok (window s) → tallied s → tallied (step s ev).
Proof.
  intros Hsound Hw (Hres & Hdup & Hpc).
  pose proof (sound_pc _ _ _ Hsound) as Hat.
  assert (Hkeep : ∀ s',
    results s' = results s → duplicates s' = duplicates s → pc s' = pc s →
    (∀ a b c d entries, pc s = Responded (Json a b c d entries) →
       window s' = window s ∧ uploadState s' = uploadState s) →
    tallied s').
  { intros s' Hr Hd Hp Hsame. unfold tallied. rewrite Hr, Hd, Hp.
    split; [done|]. split; [done|].
    destruct (pc s) as [| | | |[a b c d entries|]|] eqn:Epc; try done.
    destruct (Hsame a b c d entries eq_refl) as [-> ->]. done. }
  destruct ev as [|k|k o| | |]; simpl.
  - destruct (pc s) eqn:Epc.
    + destruct Hat as (_ & Hnil & _). by apply tallied_enter_loop.
    + destruct Hat as (Hnil & _). by apply tallied_pause_check.
    + destruct (batchResults_of (window s)) as [rs|] eqn:Ers;
        [|unfold tallied; by rewrite Epc].
      pose proof (batchResults_ok _ _ Hw Ers) as Hrs.
      unfold window_done.
      destruct (process_results rs) as [[rs' dups]|e] eqn:Eproc;
        [|unfold tallied, outer_catch; simpl; by repeat split].
      destruct (process_results_ok _ _ _ Hrs Eproc) as [Hrs' Hdups].
      assert (Hres' : Forall settled_ok (results s ++ rs')) by by apply Forall_app.
      assert (Hdup' : length (duplicates s ++ dups)
                      = count_duplicates (results s ++ rs')).
      { rewrite count_duplicates_app, length_app. lia. }
      match goal with |- context [if ?c then _ else _] => destruct c end.
      * unfold tallied; simpl. by repeat split.
      * unfold next_window. by apply tallied_enter_loop.
    + destruct Hat as (Hnil & _). unfold next_window.
      by apply tallied_enter_loop.
    + unfold tallied. by rewrite Epc.
    + unfold tallied. by rewrite Epc.
  - destruct (window s !! k) as [[file []]|] eqn:Hk;
      try (by apply Hkeep).
    unfold item_wakes, item_begins, item_fails.
    destruct (_ && _); [|destruct (cancelled (uploadState s));
                          [destruct (uploadState s) eqn:Eu|]];
      apply Hkeep; simpl; try done;
      intros a b c d entries Epc; rewrite Epc in Hpc;
      destruct Hpc as (_ & _ & Hnil & _); by rewrite Hnil in Hk.
  - destruct (window s !! k) as [[file []]|] eqn:Hk;
      try (by apply Hkeep).
    destruct o as [reason existing|platform data url|e]; simpl;
      unfold item_fails; simpl;
      destruct (uploadState s) as [u|] eqn:Eu; simpl; rewrite ?Eu; simpl;
      apply Hkeep; simpl; try done;
      intros a b c d entries Epc; rewrite Epc in Hpc;
      destruct Hpc as (_ & _ & Hnil & _); by rewrite Hnil in Hk.
  - unfold set_flags. destruct (uploadState s) as [u|] eqn:Eu;
      [|by apply Hkeep].
    apply Hkeep; simpl; try done.
    intros a b c d entries Epc. rewrite Epc in Hpc.
    destruct Hpc as (_ & _ & _ & Hnone). by rewrite Hnone in Eu.
  - unfold set_flags. destruct (uploadState s) as [u|] eqn:Eu;
      [|by apply Hkeep].
    apply Hkeep; simpl; try done.
    intros a b c d entries Epc. rewrite Epc in Hpc.
    destruct Hpc as (_ & _ & _ & Hnone). by rewrite Hnone in Eu.
  - unfold set_flags. destruct (uploadState s) as [u|] eqn:Eu;
      [|by apply Hkeep].
    apply Hkeep; simpl; try done.
    intros a b c d entries Epc. rewrite Epc in Hpc.
    destruct Hpc as (_ & _ & _ & Hnone). by rewrite Hnone in Eu.
Qed.

Lemma tallied_run (x : Expansion) (flags : UploadState) (events : list Event) :
  ArchiveExpander.results x = [] →
  tallied (run (start_run x flags) events).
Proof.
  intros Hx.
  assert (Hstart : tallied (start_run x flags)).
  { unfold tallied, start_run. rewrite Hx.
    destruct (ArchiveExpander.allFiles x); simpl; by repeat split. }
  pose proof (sound_start x flags) as Hsound.
  assert (Hw : Forall item_ok (window (start_run x flags))).
  { unfold start_run. destruct (ArchiveExpander.allFiles x); constructor. }
  revert Hstart Hsound Hw. generalize (start_run x flags).
  induction events as [|ev events IH]; intros s Hs Hsound Hw; [done|].
  simpl. apply IH.
  - by eapply tallied_step.
  - by apply sound_step.
  - by apply window_ok_step.
Qed.

Lemma run_app (s : Run) (before after : list Event) :
  run (run s before) after = run s (before ++ after).
Proof. unfold run. by rewrite fold_left_app. Qed.

(** C5.  Take any run of the coordinator: the state [s] is reached from the
    start of the batch by any sequence of events, and any events follow.

    (1) Once the cancelled flag is set, no further item is started, so no
    further window is dispatched, whatever happens next.

    (2) While the paused flag is set and the run is not cancelled, the
    coordinator, when it is resumed at the head of the loop, in its pause
    loop or between two windows, goes (back) to sleep in the pause loop and
    dispatches nothing; and as long as no resumption is requested, no item
    is started, whatever else happens and wherever the coordinator stands.

    (3) A run that sleeps in its pause loop and is then cancelled ends at
    its next wake-up, with the cancellation notified, without starting any
    item, with its results unchanged and with the counts of these results
    in its [Complete] notification.

    (4) After a cancellation the items of the window in flight still
    settle: each one that ends its work gets the entry of its own outcome,
    which falls into exactly one of the three counts, raises
    [processedCount] by one and sends its notification.  When all have
    settled the run ends at the coordinator's next wake-up; if their data
    are typed as the processor types them, their entries are appended to
    the results, the three counts together grow by the size of the window,
    and the [Complete] notification carries these counts.

    (5) Cancelled or not, when a run without failed archives answers with
    its summary, the three counts add up to the number of entries, which is
    the number of items that were started: none is lost. *)
Theorem cancel_stops_dispatch
    (x : Expansion) (flags : UploadState) (before after : list Event) :
  let s := run (start_run x flags) before in
  (cancelled (uploadState s) = true →
     started (run s after) = started s ∧ stopped (run s after)) ∧
  (paused (uploadState s) = true → cancelled (uploadState s) = false →
     (pc s = PauseLoop ∨ (pc s = LoopHead ∧ i s < length (allFiles s))) →
     step s Timer = with_pc s PauseLoop) ∧
  (paused (uploadState s) = true → cancelled (uploadState s) = false →
     pc s = BetweenWindows →
     step s Timer = with_pc (advanced s) PauseLoop) ∧
  (paused (uploadState s) = true → ResumeRequest ∉ after →
     started (run s after) = started s) ∧
  (pc s = PauseLoop →
     let s' := run s [CancelRequest; Timer] in
     terminal (pc s') = true ∧
     started s' = started s ∧
     results s' = results s ∧
     SignalCancelled ∈ log s' ∧
     last (log s')
     = Some (Complete (count_successful (results s)) (count_failed (results s))
               (length (duplicates s)) (totalFiles s))) ∧
  (pc s = AwaitingWindow → cancelled (uploadState s) = true →
     (∀ k file o,
        window s !! k = Some (file, Processing) →
        let s' := step s (ItemSettles k o) in
        let entry := outcome_entry file o in
        window s' = <[k := (file, Settled entry)]> (window s) ∧
        count_successful [entry] + count_failed [entry]
          + count_duplicates [entry] = 1 ∧
        processedCount s' = S (processedCount s) ∧
        state_processedCount <$> uploadState s' = Some (S (processedCount s)) ∧
        log s' = log s ++ [Progress (originalname file) (outcome_status o)] ∧
        results s' = results s ∧
        duplicates s' = duplicates s ∧
        pc s' = AwaitingWindow ∧
        cancelled (uploadState s') = true) ∧
     (∀ rs,
        batchResults_of (window s) = Some rs →
        let s' := step s Timer in
        terminal (pc s') = true ∧
        started s' = started s ∧
        (Forall acceptable rs →
         ∃ rs' dups,
           process_results rs = Ok (rs', dups) ∧
           results s' = results s ++ rs' ∧
           duplicates s' = duplicates s ++ dups ∧
           length rs' = length (window s) ∧
           counted (results s') (duplicates s')
           = counted (results s) (duplicates s) + length (window s) ∧
           last (log s')
           = Some (Complete (count_successful (results s'))
                     (count_failed (results s')) (length (duplicates s'))
                     (totalFiles s))))) ∧
  (ArchiveExpander.results x = [] →
   ∀ successful failed dups duplicateFiles entries,
     pc (run s after)
     = Responded (Json successful failed dups duplicateFiles entries) →
     successful + failed + dups = length entries ∧
     length entries = started (run s after) ∧
     processedCount (run s after) = started (run s after)).
Proof.
  intros s.
  assert (Hawake : none_sleeping s).
  { apply run_keeps_awake, start_run_awake. }
  pose proof (sound_run x flags before) as Hsound. fold s in Hsound.
  pose proof (sound_pc _ _ _ Hsound) as Hat.
  pose proof (sound_files _ _ _ Hsound) as Hfiles.
  pose proof (window_ok_run x flags before) as Hwin. fold s in Hwin.
  split; [|split; [|split; [|split; [|split; [|split]]]]].
  - intros Hc. destruct (run_stopped after s Hawake (or_introl Hc)) as [? ?].
    by split.
  - intros Hp Hc [Hpc | [Hpc Hi]]; simpl; rewrite Hpc.
    + by apply pause_check_paused.
    + unfold enter_loop. rewrite Hc; simpl.
      rewrite (proj2 (Nat.ltb_lt _ _) Hi). simpl.
      by apply pause_check_paused.
  - intros Hp Hc Hpc. rewrite Hpc in Hat.
    destruct Hat as (_ & _ & Hi & _).
    simpl. rewrite Hpc. unfold next_window. fold (advanced s).
    unfold enter_loop.
    change (cancelled (uploadState (advanced s))) with (cancelled (uploadState s)).
    change (i (advanced s)) with (i s + batchSize).
    change (allFiles (advanced s)) with (allFiles s).
    rewrite Hc, Hfiles, (proj2 (Nat.ltb_lt _ _) Hi). simpl.
    by apply pause_check_paused.
  - intros Hp Hev. by destruct (halted_run after s Hawake (or_introl Hp) Hev).
  - intros Hpc. rewrite Hpc in Hat. destruct Hat as (_ & _ & _ & [u Hu]).
    simpl. unfold set_flags. rewrite Hu; simpl. rewrite Hpc.
    rewrite pause_check_cancelled by done.
    match goal with |- context [summary ?t] =>
      destruct (summary_facts t) as (Ht & Hst & Hr & _ & _ & Hlog) end.
    split; [done|]. split.
    { rewrite Hst. count_started. lia. }
    split; [done|]. rewrite Hlog; simpl. split.
    + apply elem_of_app. left. apply elem_of_app. right. by left.
    + by rewrite last_snoc.
  - intros Hpc Hc.
    assert (Hsome : is_Some (uploadState s)).
    { destruct (uploadState s); [by eexists|done]. }
    split.
    + intros k file o Hk. simpl. rewrite Hk.
      rewrite (item_settles_entry s file o Hsome).
      destruct Hsome as [u Hu].
      unfold set_item; simpl. rewrite Hu; simpl.
      repeat split; try done.
      * apply outcome_entry_counted.
      * unfold cancelled in Hc. by rewrite Hu in Hc.
    + intros rs Hrs. simpl. rewrite Hpc, Hrs.
      destruct (window_done_cancelled s rs Hc) as (Ht & Hst & _).
      split; [done|]. split; [done|]. intros Hacc.
      destruct (process_results_acceptable rs Hacc) as (rs' & dups & Hproc).
      exists rs', dups. split; [done|].
      destruct (window_counted (window s) rs rs' dups (results s) (duplicates s)
                  Hwin Hrs Hproc) as [Hlen Hcount].
      unfold window_done. rewrite Hproc. simpl. rewrite Hc, andb_false_r.
      unfold next_window. rewrite enter_loop_cancelled by done.
      unfold summary, outer_catch. simpl.
      destruct (response_entries (results s ++ rs')); simpl;
        repeat split; try done; by rewrite last_snoc.
  - intros Hx successful failed dups duplicateFiles entries Hpc.
    clear Hawake Hsound Hat Hfiles Hwin. subst s. rewrite run_app in *.
    pose proof (tallied_run x flags (before ++ after) Hx) as (_ & _ & Hend).
    pose proof (sound_run x flags (before ++ after)) as Hsound'.
    rewrite Hpc in Hend. destruct Hend as (Hsum & Hlen & Hnil & _).
    pose proof (sound_started _ _ _ Hsound') as Hstarted.
    pose proof (sound_processed _ _ _ Hsound') as Hprocessed.
    rewrite Hx, Hnil in *. unfold settled_items in Hprocessed.
    simpl in *. split; [done|]. split; lia.
Qed.

End Facts.

End CancellationFacts.

(** ** What a request leaves behind for the next *)

Module LibraryFacts.
Import JSString JSValue RegExp Store DuplicateDetector PlatformClassifier.
Import PdfProcessor Path FileSystem ArchiveExpander BatchCoordinator ItemPipeline.
Import PathJoin FileResolver Library.

(** Every call to the store is answered. *)
Definition reliable (fault : Call → option Error) : Prop := ∀ c, fault c = None.

(** Every [save] is answered, and every write. *)
Definition saves_answered (fault : Call → option Error) : Prop :=
  ∀ id d, fault (CallSave id d) = None.

Definition writes_answered (fault : Call → option Error) : Prop :=
  saves_answered fault ∧
  ∀ fileName filePath fileHash,
    fault (CallUpdateOne fileName filePath fileHash) = None.

(** The [_id] that the next document will take is not in use. *)
Definition fresh_ids (w : World) : Prop :=
  Forall (λ d, _id d < next_id w) (docs w).

(** The document that a completed [processPdf] leaves, before and after the
    [updateOne] of the controller. *)
Definition processed_document `{Builtins} (id : nat) (file : File) (text : string)
    (data : Value) : Document :=
  mkDocument id
    (mkInvoice (originalname file) (Some (path file)) None
       (detectPlatform text) "completed")
    (Some text) (Some data) None.

Definition ingested_document `{Builtins} (id : nat) (file : File) (text : string)
    (data : Value) (finalPath digest : string) : Document :=
  mkDocument id
    (mkInvoice (originalname file) (Some finalPath) (Some digest)
       (detectPlatform text) "completed")
    (Some text) (Some data) None.

(** The document that a failed [processPdf] leaves. *)
Definition failed_document (id : nat) (file : File) (platform : string)
    (text : option string) (e : Error) : Document :=
  mkDocument id
    (mkInvoice (originalname file) (Some (path file)) None platform "failed")
    text None (Some (message e)).

Lemma reliable_saves (fault : Call → option Error) :
  reliable fault → saves_answered fault.
Proof. intros Hrel id d. apply Hrel. Qed.

Lemma detectPlatform_tag `{Builtins} (text : string) :
  detectPlatform text ∈ platform_tags.
Proof.
  unfold detectPlatform, platform_tags.
  repeat match goal with |- context [if ?c then _ else _] => destruct c end;
    rewrite !elem_of_cons; auto 10.
Qed.

Lemma find_app_none {A} (f : A → bool) (l l' : list A) :
  find f l = None → find f (l ++ l') = find f l'.
Proof.
  induction l as [|x l IH]; simpl; [done|].
  destruct (f x); [done | exact IH].
Qed.

Lemma find_none_forall {A} (f : A → bool) (l : list A) :
  find f l = None ↔ Forall (λ x, f x = false) l.
Proof.
  induction l as [|x l IH]; simpl.
  - split; [constructor | done].
  - rewrite Forall_cons. destruct (f x); [|rewrite IH]; intuition congruence.
Qed.

Lemma change_first_app_none (test : Document → bool) (change : Document → Document)
    (ds : list Document) (d : Document) :
  Forall (λ x, test x = false) ds → test d = true →
  change_first test change (ds ++ [d]) = ds ++ [change d].
Proof.
  intros Hall Hd. induction Hall as [|x ds Hx _ IH]; simpl.
  - by rewrite Hd.
  - by rewrite Hx, IH.
Qed.

Lemma fresh_no_id (ds : list Document) (id : nat) :
  Forall (λ d, _id d < id) ds → existsb (has_id id) ds = false.
Proof.
  induction 1 as [|d ds Hd _ IH]; simpl; [done|].
  unfold has_id at 1. rewrite bool_decide_eq_false_2 by lia. exact IH.
Qed.

Lemma save_over_last (ds : list Document) (old : Document) (id : nat)
    (d : InvoiceDoc) :
  Forall (λ x, _id x < id) ds → _id old = id →
  existsb (has_id id) (ds ++ [old]) = true ∧
  map (λ x, if has_id id x then saved_over x d else x) (ds ++ [old])
  = ds ++ [saved_over old d].
Proof.
  intros Hall Hold. split.
  - rewrite existsb_app. simpl. unfold has_id at 2.
    by rewrite (bool_decide_eq_true_2 _ Hold), orb_true_r.
  - rewrite map_app. simpl. unfold has_id at 2.
    rewrite (bool_decide_eq_true_2 _ Hold). f_equal.
    induction Hall as [|x ds Hx _ IH]; simpl; [done|].
    unfold has_id at 1. rewrite bool_decide_eq_false_2 by lia. by rewrite IH.
Qed.

Lemma validate_named (d : InvoiceDoc) :
  doc_platform d ∈ platform_tags → doc_status d ∈ status_enum →
  validate d
  = if bool_decide (doc_fileName d = EmptyString)
    then Some (validation_error "fileName: Path `fileName` is required.")
    else None.
Proof.
  intros Hp Hs. unfold validate.
  by rewrite (bool_decide_eq_true_2 _ Hp), (bool_decide_eq_true_2 _ Hs).
Qed.

Lemma status_processing : "processing" ∈ status_enum.
Proof. by left. Qed.
Lemma status_completed : "completed" ∈ status_enum.
Proof. right. by left. Qed.
Lemma status_failed : "failed" ∈ status_enum.
Proof. right. right. by left. Qed.
Lemma platform_other : "other" ∈ platform_tags.
Proof. do 4 right. by left. Qed.

Section Facts.
Context `{RegExpEngine} `{Builtins}.
Variable fault : Call → option Error.
Variable calculateFileHash : string → Res string.
Variable readText : string → Res string.
Variable llm_invoke : string → string → Res Response.
Variable random : nat.
Variable origin : string.
Variable uploadsDir : string.

(** [save] with a store that answers, for a document whose platform and
    status are among those of the schema. *)
Lemma save_reliable (id : nat) (name p platform status : string)
    (raw : option string) (data : option Value) (err : option string) (w : World) :
  saves_answered fault →
  platform ∈ platform_tags → status ∈ status_enum → name ≠ EmptyString →
  save fault id (mkInvoiceDoc name p platform status raw data err) w
  = (Ok (),
     if existsb (has_id id) (docs w) then
       mkWorld (map (λ old, if has_id id old
                            then saved_over old
                                   (mkInvoiceDoc name p platform status raw data err)
                            else old)
                  (docs w)) (disk w) (next_id w)
     else mkWorld (docs w ++ [inserted id
                                (mkInvoiceDoc name p platform status raw data err)])
            (disk w) (next_id w)).
Proof.
  intros Hrel Hp Hs Hname. unfold save.
  rewrite (validate_named (mkInvoiceDoc name p platform status raw data err) Hp Hs).
  simpl. rewrite (bool_decide_eq_false_2 _ Hname), Hrel.
  by destruct (existsb _ _).
Qed.

Lemma save_unnamed (id : nat) (d : InvoiceDoc) (w : World) :
  doc_fileName d = EmptyString →
  ∃ e, save fault id d w = (Throw e, w).
Proof.
  intros Hname. unfold save, validate.
  rewrite (bool_decide_eq_true_2 _ Hname). by eexists.
Qed.

(** The [catch] of [processPdf] always throws. *)
Lemma processPdf_fails_throws {A} (id : nat) (d : InvoiceDoc) (e : Error) (w : World) :
  ∃ e' w', processPdf_fails (A := A) fault id d e w = (Throw e', w').
Proof.
  unfold processPdf_fails. destruct (save _ _ _ _) as [[[]|e'] w']; by eexists _, _.
Qed.

(** One more [save] of the document that was inserted last. *)
Lemma save_again (ds : list Document) (old : Document)
    (name p platform status : string)
    (raw : option string) (data : option Value) (err : option string)
    (fs : FS) (n : nat) :
  saves_answered fault →
  platform ∈ platform_tags → status ∈ status_enum → name ≠ EmptyString →
  Forall (λ x, _id x < _id old) ds →
  save fault (_id old) (mkInvoiceDoc name p platform status raw data err)
    (mkWorld (ds ++ [old]) fs n)
  = (Ok (),
     mkWorld (ds ++ [saved_over old
                       (mkInvoiceDoc name p platform status raw data err)]) fs n).
Proof.
  intros Hrel Hp Hs Hname Hall.
  rewrite (save_reliable _ _ _ _ _ _ _ _ _ Hrel Hp Hs Hname). simpl.
  destruct (save_over_last ds old (_id old)
              (mkInvoiceDoc name p platform status raw data err) Hall eq_refl)
    as [-> ->].
  done.
Qed.

(** [processPdf] with a store that answers: the document is inserted, and
    ends as [completed] or, when the text cannot be read or the extraction
    throws, as [failed]. *)
Lemma processPdf_reliable (file : File) (w : World) :
  saves_answered fault → fresh_ids w → originalname file ≠ EmptyString →
  processPdf fault readText llm_invoke file w
  = match readText (path file) with
    | Throw e =>
        (Throw e,
         mkWorld (docs w ++ [failed_document (next_id w) file "other" None e])
           (disk w) (S (next_id w)))
    | Ok text =>
        match extractInvoiceData llm_invoke text (detectPlatform text) with
        | Throw e =>
            (Throw e,
             mkWorld (docs w ++ [failed_document (next_id w) file
                                   (detectPlatform text) (Some text) e])
               (disk w) (S (next_id w)))
        | Ok data =>
            (Ok (detectPlatform text, data),
             mkWorld (docs w ++ [processed_document (next_id w) file text data])
               (disk w) (S (next_id w)))
        end
    end.
Proof.
  intros Hrel Hfresh Hname. unfold processPdf.
  rewrite (save_reliable _ _ _ _ _ _ _ _ _ Hrel platform_other status_processing Hname).
  simpl. rewrite (fresh_no_id _ _ Hfresh).
  set (first := inserted (next_id w)
                  (mkInvoiceDoc (originalname file) (path file) "other"
                     "processing" None None None)).
  assert (Hid : _id first = next_id w) by done.
  assert (Hall : Forall (λ x, _id x < _id first) (docs w)) by done.
  destruct (readText (path file)) as [text|e].
  - rewrite <- Hid at 1.
    rewrite (save_again _ _ _ _ _ _ _ _ _ _ _ Hrel platform_other status_processing Hname Hall).
    set (second := saved_over first _).
    assert (Hall2 : Forall (λ x, _id x < _id second) (docs w)) by done.
    destruct (extractInvoiceData llm_invoke text (detectPlatform text)) as [data|e].
    + change (next_id w) with (_id second) at 1.
      by rewrite (save_again _ _ _ _ _ _ _ _ _ _ _ Hrel (detectPlatform_tag text)
                    status_completed Hname Hall2).
    + unfold processPdf_fails. simpl.
      change (next_id w) with (_id second) at 1.
      by rewrite (save_again _ _ _ _ _ _ _ _ _ _ _ Hrel (detectPlatform_tag text)
                    status_failed Hname Hall2).
  - unfold processPdf_fails. simpl.
    rewrite <- Hid at 1.
    by rewrite (save_again _ _ _ _ _ _ _ _ _ _ _ Hrel platform_other status_failed Hname Hall).
Qed.

(** A file with an empty name is turned away by the schema: nothing is
    stored. *)
Lemma processPdf_unnamed (file : File) (w : World) :
  originalname file = EmptyString →
  ∃ e, processPdf fault readText llm_invoke file w
       = (Throw e, mkWorld (docs w) (disk w) (S (next_id w))).
Proof.
  intros Hname. unfold processPdf, processPdf_fails, save, validate. simpl.
  rewrite !(bool_decide_eq_true_2 _ Hname). by eexists.
Qed.

(** *** The duplicate check over the documents of the store *)

Definition has_hash (digest : string) (d : Document) : bool :=
  bool_decide (fileHash (stored d) = Some digest).

Lemma checkForDuplicates_content_hit (w : World) (p name digest : string)
    (doc : Document) :
  reliable fault →
  calculateFileHash p = Ok digest →
  find (has_hash digest) (docs w) = Some doc →
  checkForDuplicates calculateFileHash (findOne fault w) p name
  = Ok (duplicate ("File content already exists (" +:+ fileName (stored doc) +:+ ")")
          (stored doc) "content").
Proof.
  intros Hrel Hhash Hfind.
  unfold checkForDuplicates, checkForDuplicates_body, findOne, findDocument.
  rewrite Hhash. simpl. rewrite (Hrel (CallFindOne (ByFileHash digest))).
  unfold satisfies.
  change (find (λ d, bool_decide (fileHash (stored d) = Some digest)) (docs w))
    with (find (has_hash digest) (docs w)).
  by rewrite Hfind.
Qed.

Lemma checkForDuplicates_name_hit (w : World) (p name digest : string)
    (doc : Document) :
  reliable fault →
  calculateFileHash p = Ok digest →
  find (has_hash digest) (docs w) = None →
  find (named name) (docs w) = Some doc →
  checkForDuplicates calculateFileHash (findOne fault w) p name
  = Ok (duplicate "File with exact same name already exists" (stored doc) "filename").
Proof.
  intros Hrel Hhash Hnone Hfind.
  unfold checkForDuplicates, checkForDuplicates_body, findOne, findDocument.
  rewrite Hhash. simpl. rewrite (Hrel (CallFindOne (ByFileHash digest))).
  unfold satisfies.
  change (find (λ d, bool_decide (fileHash (stored d) = Some digest)) (docs w))
    with (find (has_hash digest) (docs w)).
  rewrite Hnone. simpl. rewrite (Hrel (CallFindOne (ByFileName name))).
  change (find (λ d, bool_decide (fileName (stored d) = name)) (docs w))
    with (find (named name) (docs w)).
  by rewrite Hfind.
Qed.

(** When the check lets a file through, the store holds no document with
    its digest and none with its name. *)
Lemma checkForDuplicates_pass (w : World) (p name digest : string) (v : Verdict) :
  reliable fault →
  calculateFileHash p = Ok digest →
  checkForDuplicates calculateFileHash (findOne fault w) p name = Ok v →
  isDuplicate v = false →
  find (has_hash digest) (docs w) = None ∧ find (named name) (docs w) = None.
Proof.
  intros Hrel Hhash Hcheck Hv.
  destruct (find (has_hash digest) (docs w)) as [doc|] eqn:F1.
  { rewrite (checkForDuplicates_content_hit w p name digest doc Hrel Hhash F1)
      in Hcheck. injection Hcheck as <-. done. }
  destruct (find (named name) (docs w)) as [doc|] eqn:F2; [|done].
  rewrite (checkForDuplicates_name_hit w p name digest doc Hrel Hhash F1 F2)
    in Hcheck. injection Hcheck as <-. done.
Qed.

(** What an item that completes has done, with a store that answers. *)
Lemma item_run_completed (file : File) (w w' : World)
    (platform : string) (data : Value) (url : string) :
  reliable fault → fresh_ids w →
  item_run fault calculateFileHash readText llm_invoke random origin uploadsDir
    file w = (Completed platform data url, w') →
  ∃ digest text,
    calculateFileHash (path file) = Ok digest ∧
    find (has_hash digest) (docs w) = None ∧
    find (named (originalname file)) (docs w) = None ∧
    path file ∈ disk w ∧
    platform = detectPlatform text ∧
    url = origin +:+ "/uploads/" +:+ finalFileName random file ∧
    w' = mkWorld
           (docs w ++ [ingested_document (next_id w) file text data
                         (finalPath random uploadsDir file) digest])
           ((disk w ∖ {[path file]}) ∪ {[finalPath random uploadsDir file]})
           (S (next_id w)).
Proof.
  intros Hrel Hfresh. unfold item_run.
  destruct (checkForDuplicates _ _ _ _) as [v|e] eqn:Hcheck; [|done].
  destruct (isDuplicate v) eqn:Hv; [done|].
  unfold ingest.
  destruct (calculateFileHash (path file)) as [digest|e] eqn:Hhash; [|done].
  destruct (checkForDuplicates_pass w _ _ _ v Hrel Hhash Hcheck Hv) as [F1 F2].
  destruct (decide (originalname file = EmptyString)) as [Hname|Hname].
  { destruct (processPdf_unnamed file w Hname) as [e ->]. done. }
  rewrite (processPdf_reliable file w (reliable_saves _ Hrel) Hfresh Hname).
  destruct (readText (path file)) as [text|e]; [|done].
  destruct (extractInvoiceData llm_invoke text (detectPlatform text)) as [d|e];
    [|done].
  unfold renameSync. simpl.
  destruct (bool_decide (path file ∈ disk w)) eqn:Hin; [|done].
  apply bool_decide_eq_true in Hin.
  unfold updateOne. rewrite Hrel. simpl.
  intros [= <- <- <- <-]. exists digest, text.
  repeat split; try done.
  f_equal. apply find_none_forall in F2.
  by rewrite (change_first_app_none _ _ _ _ F2)
    by (unfold named; simpl; by rewrite bool_decide_eq_true_2).
Qed.

(** A file that has been ingested is recognised by its content afterwards:
    once an item completes (with a store that answers), the store holds a
    document with the file's name, its digest and its final path, the file
    is on disk at that path, and any later upload with the same content,
    under whatever name, is discarded as a duplicate. *)
Theorem ingested_content_is_a_duplicate_afterwards
    (file : File) (w w' : World) (platform : string) (data : Value) (url : string) :
  reliable fault → fresh_ids w →
  item_run fault calculateFileHash readText llm_invoke random origin uploadsDir
    file w = (Completed platform data url, w') →
  ∃ digest doc,
    calculateFileHash (path file) = Ok digest ∧
    findDocument fault w' (ByFileHash digest) = Ok (Some doc) ∧
    fileName (stored doc) = originalname file ∧
    filePath (stored doc) = Some (finalPath random uploadsDir file) ∧
    status (stored doc) = "completed" ∧
    finalPath random uploadsDir file ∈ disk w' ∧
    ∀ again : File,
      calculateFileHash (path again) = Ok digest →
      (item_run fault calculateFileHash readText llm_invoke random origin
         uploadsDir again w').1
      = Duplicate
          ("File content already exists (" +:+ originalname file +:+ ")")
          (invoice_value (stored doc)).
Proof.
  intros Hrel Hfresh Hrun.
  destruct (item_run_completed _ _ _ _ _ _ Hrel Hfresh Hrun)
    as (digest & text & Hhash & F1 & F2 & Hin & -> & -> & ->).
  set (doc := ingested_document (next_id w) file text data
                (finalPath random uploadsDir file) digest).
  assert (Hfind : find (has_hash digest) (docs w ++ [doc]) = Some doc).
  { rewrite (find_app_none _ _ _ F1). simpl. unfold has_hash. simpl.
    by rewrite bool_decide_eq_true_2. }
  exists digest, doc. split; [done|]. split.
  { unfold findDocument. rewrite Hrel. simpl. unfold satisfies.
    change (find _ (docs w ++ [doc])) with (find (has_hash digest) (docs w ++ [doc])).
    by rewrite Hfind. }
  repeat split; try done.
  - simpl. apply elem_of_union_r. by apply elem_of_singleton.
  - intros again Hagain. unfold item_run.
    match goal with
    | |- context [findOne fault ?W] =>
        by rewrite (checkForDuplicates_content_hit W _ _ _ doc Hrel Hagain Hfind)
    end.
Qed.

(** A file whose processing fails (here: its text cannot be read) leaves a
    document marked [failed] under its name, with no digest, and is removed
    from the disk; from then on every upload under the same name is
    discarded as a duplicate, the same file included. *)
Theorem failed_processing_blocks_the_name
    (file : File) (w : World) (v : Verdict) (digest : string) (e : Error) :
  reliable fault → fresh_ids w →
  originalname file ≠ EmptyString →
  calculateFileHash (path file) = Ok digest →
  checkForDuplicates calculateFileHash (findOne fault w) (path file)
    (originalname file) = Ok v →
  isDuplicate v = false →
  readText (path file) = Throw e →
  let result :=
    item_run fault calculateFileHash readText llm_invoke random origin
      uploadsDir file w in
  result.1 = Failed e ∧
  (path file ∉ disk result.2) ∧
  (∃ doc,
     findDocument fault result.2 (ByFileName (originalname file)) = Ok (Some doc) ∧
     status (stored doc) = "failed" ∧
     errorMessage doc = Some (message e) ∧
     fileHash (stored doc) = None) ∧
  ∀ (again : File) (digest' : string),
    originalname again = originalname file →
    calculateFileHash (path again) = Ok digest' →
    ∃ why existing,
      (item_run fault calculateFileHash readText llm_invoke random origin
         uploadsDir again result.2).1 = Duplicate why existing.
Proof.
  intros Hrel Hfresh Hname Hhash Hcheck Hv Hread result.
  destruct (checkForDuplicates_pass w _ _ _ v Hrel Hhash Hcheck Hv) as [F1 F2].
  set (doc := failed_document (next_id w) file "other" None e).
  assert (Hresult : result
            = (Failed e,
               mkWorld (docs w ++ [doc]) (cleanup (disk w) file) (S (next_id w)))).
  { unfold result, item_run. rewrite Hcheck, Hv. unfold ingest.
    rewrite Hhash, (processPdf_reliable file w (reliable_saves _ Hrel) Hfresh Hname), Hread. done. }
  rewrite Hresult. simpl.
  assert (Hfind : find (named (originalname file)) (docs w ++ [doc]) = Some doc).
  { rewrite (find_app_none _ _ _ F2). simpl. unfold named. simpl.
    by rewrite bool_decide_eq_true_2. }
  split; [done|]. split.
  { unfold cleanup, existsSync, unlinkSync.
    destruct (bool_decide (path file ∈ disk w)) eqn:E; simpl.
    - apply not_elem_of_difference. right. by apply elem_of_singleton.
    - by apply bool_decide_eq_false in E. }
  split.
  { exists doc. split; [|done].
    unfold findDocument. rewrite Hrel. simpl. unfold satisfies.
    change (find (λ d, bool_decide (fileName (stored d) = originalname file))
              (docs w ++ [doc]))
      with (find (named (originalname file)) (docs w ++ [doc])).
    by rewrite Hfind. }
  intros again digest' Hsame Hagain. unfold item_run. rewrite Hsame.
  match goal with |- context [findOne fault ?W] => set (w2 := W) end.
  destruct (find (has_hash digest') (docs w2)) as [hit|] eqn:Fh.
  - rewrite (checkForDuplicates_content_hit w2 _ _ _ hit Hrel Hagain Fh).
    simpl. by eexists _, _.
  - rewrite (checkForDuplicates_name_hit w2 _ _ _ doc Hrel Hagain Fh Hfind).
    simpl. by eexists _, _.
Qed.

(** A file that has been ingested can be downloaded: the request for its
    name is answered with the file at its final path, under its original
    name. *)
Theorem ingested_file_can_be_downloaded
    (readdirSync : string → Res (list string))
    (file : File) (w w' : World) (platform : string) (data : Value) (url : string) :
  reliable fault → fresh_ids w →
  isAbsolute uploadsDir = true →
  item_run fault calculateFileHash readText llm_invoke random origin uploadsDir
    file w = (Completed platform data url, w') →
  downloadPdf fault readdirSync uploadsDir (originalname file) w'
  = Download (finalPath random uploadsDir file) (originalname file).
Proof.
  intros Hrel Hfresh Habs Hrun.
  destruct (item_run_completed _ _ _ _ _ _ Hrel Hfresh Hrun)
    as (digest & text & Hhash & F1 & F2 & Hin & -> & -> & ->).
  set (doc := ingested_document (next_id w) file text data
                (finalPath random uploadsDir file) digest).
  assert (Hfind : find (named (originalname file)) (docs w ++ [doc]) = Some doc).
  { rewrite (find_app_none _ _ _ F2). simpl. unfold named. simpl.
    by rewrite bool_decide_eq_true_2. }
  assert (Hfinal : isAbsolute (finalPath random uploadsDir file) = true)
    by by apply ResolverFacts.join_absolute.
  pose proof (ResolverFacts.isAbsolute_not_empty _ Hfinal) as Hne.
  unfold downloadPdf, findOne, findDocument. rewrite Hrel. simpl.
  unfold satisfies.
  change (find (λ d, bool_decide (fileName (stored d) = originalname file))
            (docs w ++ [doc]))
    with (find (named (originalname file)) (docs w ++ [doc])).
  rewrite Hfind. simpl.
  rewrite (bool_decide_eq_false_2 _ Hne).
  unfold resolveFilePath, existsSync.
  rewrite ?(bool_decide_eq_false_2 _ Hne), Hfinal. simpl.
  rewrite bool_decide_eq_true_2; [done|].
  apply elem_of_union_r. by apply elem_of_singleton.
Qed.

(** The address of a file does not change between the upload and the
    requests about it: when the uploads directory is given by a normalised
    absolute path and the file's name holds no slash, the document of an
    ingested file stores the path made of the directory, a slash, the random
    prefix, a hyphen and the original name, and the [pdfUrl] that the status
    requests compute from it is the one the upload returned. *)
Theorem upload_url_is_the_stored_url
    (file : File) (w w' : World) (platform : string) (data : Value) (url : string) :
  reliable fault → fresh_ids w →
  normalize uploadsDir = uploadsDir → isAbsolute uploadsDir = true →
  endsWith_slash uploadsDir = false →
  PathFacts.no_slash (originalname file) →
  item_run fault calculateFileHash readText llm_invoke random origin uploadsDir
    file w = (Completed platform data url, w') →
  ∃ doc,
    findDocument fault w' (ByFileName (originalname file)) = Ok (Some doc) ∧
    filePath (stored doc)
    = Some (uploadsDir +:+ "/" +:+ digits random +:+ "-" +:+ originalname file) ∧
    pdfUrl origin (filePath (stored doc)) = VStr url.
Proof.
  intros Hrel Hfresh Hnorm Habs Htrail Hname Hrun.
  destruct (item_run_completed _ _ _ _ _ _ Hrel Hfresh Hrun)
    as (digest & text & Hhash & F1 & F2 & Hin & -> & -> & ->).
  set (doc := ingested_document (next_id w) file text data
                (finalPath random uploadsDir file) digest).
  assert (Hfind : find (named (originalname file)) (docs w ++ [doc]) = Some doc).
  { rewrite (find_app_none _ _ _ F2). simpl. unfold named. simpl.
    by rewrite bool_decide_eq_true_2. }
  destruct (PathFacts.hyphenated_name (digits random) (originalname file))
    as (Hne & Hdot & Hdots).
  assert (Hplain : PathFacts.no_slash (finalFileName random file)).
  { apply PathFacts.no_slash_app; [apply PathFacts.digits_no_slash|].
    by apply (PathFacts.no_slash_app "-"). }
  assert (Hfinal : finalPath random uploadsDir file
                   = uploadsDir +:+ "/" +:+ finalFileName random file).
  { by apply PathFacts.join_plain_name. }
  exists doc. split.
  { unfold findDocument. rewrite Hrel. simpl. unfold satisfies.
    change (find (λ d, bool_decide (fileName (stored d) = originalname file))
              (docs w ++ [doc]))
      with (find (named (originalname file)) (docs w ++ [doc])).
    by rewrite Hfind. }
  split; [simpl; by rewrite Hfinal|].
  simpl. rewrite Hfinal.
  rewrite bool_decide_eq_false_2 by (by destruct uploadsDir).
  by rewrite (PathFacts.basename_appended _ _ Hplain Hne).
Qed.

(** *** The identifiers of the documents

    Whatever the store does, an item hands on a world in which the next
    [_id] is not in use. *)

Lemma save_fresh (id : nat) (d : InvoiceDoc) (w : World) (n : nat) :
  Forall (λ x, _id x < n) (docs w) → id < n →
  Forall (λ x, _id x < n) (docs (save fault id d w).2) ∧
  next_id (save fault id d w).2 = next_id w ∧
  disk (save fault id d w).2 = disk w.
Proof.
  intros Hall Hid. unfold save.
  destruct (validate d); [done|]. destruct (fault _); [done|].
  destruct (existsb _ _); simpl; (split; [|done]).
  - apply Forall_map. eapply Forall_impl; [exact Hall|].
    intros x Hx. simpl. by destruct (has_id id x).
  - apply Forall_app. split; [done|]. by apply Forall_singleton.
Qed.

Lemma processPdf_fails_fresh {A} (id : nat) (d : InvoiceDoc) (e : Error)
    (w : World) (n : nat) :
  Forall (λ x, _id x < n) (docs w) → id < n →
  Forall (λ x, _id x < n) (docs (processPdf_fails (A := A) fault id d e w).2) ∧
  next_id (processPdf_fails (A := A) fault id d e w).2 = next_id w ∧
  disk (processPdf_fails (A := A) fault id d e w).2 = disk w.
Proof.
  intros Hall Hid. unfold processPdf_fails.
  match goal with |- context [save fault id ?d' w] =>
    pose proof (save_fresh id d' w n Hall Hid) as Hs;
    destruct (save fault id d' w) as [[[]|e'] w1] end; exact Hs.
Qed.

Lemma processPdf_fresh (file : File) (w : World) :
  fresh_ids w →
  fresh_ids (processPdf fault readText llm_invoke file w).2 ∧
  disk (processPdf fault readText llm_invoke file w).2 = disk w.
Proof.
  intros Hfresh. unfold fresh_ids in *.
  assert (Hall : Forall (λ x, _id x < S (next_id w)) (docs w)).
  { eapply Forall_impl; [exact Hfresh|]. intros x Hx. simpl in Hx. lia. }
  assert (Hid : next_id w < S (next_id w)) by lia.
  assert (Hstage : ∀ (r : Res (string * Value) * World),
            Forall (λ x, _id x < S (next_id w)) (docs r.2) ∧
            next_id r.2 = S (next_id w) ∧ disk r.2 = disk w →
            Forall (λ d, _id d < next_id r.2) (docs r.2) ∧ disk r.2 = disk w).
  { intros r (Hd & -> & Hk). by split. }
  apply Hstage. unfold processPdf.
  set (w0 := mkWorld (docs w) (disk w) (S (next_id w))).
  assert (Hw0 : Forall (λ x, _id x < S (next_id w)) (docs w0) ∧
               next_id w0 = S (next_id w) ∧ disk w0 = disk w) by done.
  assert (Hsave : ∀ d w1,
            Forall (λ x, _id x < S (next_id w)) (docs w1) ∧
            next_id w1 = S (next_id w) ∧ disk w1 = disk w →
            Forall (λ x, _id x < S (next_id w)) (docs (save fault (next_id w) d w1).2) ∧
            next_id (save fault (next_id w) d w1).2 = S (next_id w) ∧
            disk (save fault (next_id w) d w1).2 = disk w).
  { intros d w1 (Hd & Hn & Hk).
    destruct (save_fresh (next_id w) d w1 _ Hd Hid) as (? & -> & ->). done. }
  assert (Hfail : ∀ d e w1,
            Forall (λ x, _id x < S (next_id w)) (docs w1) ∧
            next_id w1 = S (next_id w) ∧ disk w1 = disk w →
            let r := processPdf_fails (A := string * Value) fault (next_id w) d e w1 in
            Forall (λ x, _id x < S (next_id w)) (docs r.2) ∧
            next_id r.2 = S (next_id w) ∧ disk r.2 = disk w).
  { intros d e w1 (Hd & Hn & Hk) r.
    destruct (processPdf_fails_fresh (A := string * Value) (next_id w) d e w1 _ Hd Hid)
      as (? & Hn' & Hk'). unfold r. rewrite Hn', Hk'. done. }
  match goal with |- context [save fault (next_id w) ?d w0] =>
    pose proof (Hsave d w0 Hw0) as Hw1;
    destruct (save fault (next_id w) d w0) as [[[]|e1] w1] end;
    simpl in Hw1; [|by apply Hfail].
  destruct (readText (path file)) as [text|e]; [|by apply Hfail].
  match goal with |- context [save fault (next_id w) ?d w1] =>
    pose proof (Hsave d w1 Hw1) as Hw2;
    destruct (save fault (next_id w) d w1) as [[[]|e2] w2] end;
    simpl in Hw2; [|by apply Hfail].
  destruct (extractInvoiceData _ _ _) as [data|e]; [|by apply Hfail].
  match goal with |- context [save fault (next_id w) ?d w2] =>
    pose proof (Hsave d w2 Hw2) as Hw3;
    destruct (save fault (next_id w) d w2) as [[[]|e3] w3] end;
    simpl in Hw3; [done | by apply Hfail].
Qed.

Lemma item_run_fresh (file : File) (w : World) :
  fresh_ids w →
  fresh_ids (item_run fault calculateFileHash readText llm_invoke random origin
               uploadsDir file w).2.
Proof.
  intros Hfresh. unfold item_run.
  destruct (checkForDuplicates _ _ _ _) as [v|e]; [|done].
  destruct (isDuplicate v); [done|]. unfold ingest.
  destruct (calculateFileHash (path file)); [|done].
  destruct (processPdf_fresh file w Hfresh) as [Hp _].
  destruct (processPdf _ _ _ _ _) as [[[platform data]|e] w1]; [|done].
  simpl in Hp.
  destruct (renameSync _ _ _) as [[[]|e] fs]; [|done].
  unfold updateOne. destruct (fault _); [done|]. simpl.
  unfold fresh_ids in *. simpl.
  clear -Hp. induction Hp as [|x ds Hx Hds IH]; simpl; [constructor|].
  destruct (named _ x); constructor; done.
Qed.

End Facts.

(** *** Deleting stored files *)

Lemma remove_first_others (test : Document → bool) (ds : list Document) :
  List.filter (λ d, negb (test d)) (remove_first test ds)
  = List.filter (λ d, negb (test d)) ds.
Proof.
  induction ds as [|d ds IH]; simpl; [done|].
  destruct (test d) eqn:E; simpl; [done|]. by rewrite E, IH.
Qed.

Lemma remove_first_count (test : Document → bool) (ds : list Document) (d : Document) :
  find test ds = Some d →
  length (List.filter test (remove_first test ds)) + 1
  = length (List.filter test ds) ∧
  length (remove_first test ds) + 1 = length ds.
Proof.
  induction ds as [|x ds IH]; simpl; [done|].
  destruct (test x) eqn:E; simpl.
  - intros _. split; lia.
  - intros Hfind. rewrite E. destruct (IH Hfind). split; [done|]. simpl. lia.
Qed.

Lemma filter_none_find (test : Document → bool) (ds : list Document) :
  length (List.filter test ds) = 0 → find test ds = None.
Proof.
  induction ds as [|x ds IH]; simpl; [done|].
  destruct (test x); simpl; [done | exact IH].
Qed.

Section Requests.
Context `{RegExpEngine}.
Variable fault : Call → option Error.

Lemma findOne_found (w : World) (name : string) (invoice : Invoice) :
  findOne fault w (ByFileName name) = Ok (Some invoice) →
  ∃ doc, find (named name) (docs w) = Some doc ∧ invoice = stored doc.
Proof.
  unfold findOne, findDocument. destruct (fault _); [done|]. simpl.
  change (find (λ d, bool_decide (fileName (stored d) = name)) (docs w))
    with (find (named name) (docs w)).
  destruct (find (named name) (docs w)) as [doc|]; [|done].
  intros [= <-]. by exists doc.
Qed.

Lemma remove_file_docs (p : option string) (w : World) :
  docs (remove_file p w) = docs w.
Proof. unfold remove_file. destruct p as [p|]; [|done]. by destruct (_ && _). Qed.

(** With a store that answers, [deletePdf] answers 404 and changes nothing
    when no document has the name; otherwise it removes one document of that
    name (the first), leaves the documents of every other name as they are,
    and removes that document's file from the disk and no other file.  When
    the name was that of one document only, no document has it
    afterwards. *)
Theorem deletePdf_removes_one_document_and_its_file (name : string) (w : World) :
  LibraryFacts.reliable fault →
  match find (named name) (docs w) with
  | None => deletePdf fault name w = (error_reply 404 "PDF file not found", w)
  | Some doc =>
      ∃ w',
        deletePdf fault name w
        = (Answer 200
             (VObj [("message", VStr ("Successfully deleted " +:+ name));
                    ("deletedFile", VStr name)]), w') ∧
        length (List.filter (named name) (docs w')) + 1
        = length (List.filter (named name) (docs w)) ∧
        List.filter (λ d, negb (named name d)) (docs w')
        = List.filter (λ d, negb (named name d)) (docs w) ∧
        (length (List.filter (named name) (docs w)) = 1 →
         find (named name) (docs w') = None) ∧
        (∀ p, filePath (stored doc) = Some p → p ≠ EmptyString → p ∉ disk w') ∧
        (∀ q, filePath (stored doc) ≠ Some q → (q ∈ disk w' ↔ q ∈ disk w))
  end.
Proof.
  intros Hrel. unfold deletePdf, findOne, findDocument, deleteOne.
  rewrite !Hrel. simpl.
  change (find (λ d, bool_decide (fileName (stored d) = name)) (docs w))
    with (find (named name) (docs w)).
  destruct (find (named name) (docs w)) as [doc|] eqn:Hfind; simpl; [|done].
  eexists. split; [reflexivity|]. simpl. rewrite remove_file_docs.
  destruct (remove_first_count _ _ _ Hfind) as [Hcount _].
  split; [exact Hcount|]. split; [apply remove_first_others|]. split.
  { intros Hone. apply filter_none_find. lia. }
  unfold remove_file, existsSync, unlinkSync.
  destruct (filePath (stored doc)) as [p|]; [|by split].
  destruct (bool_decide (p = EmptyString)) eqn:Ee; simpl.
  { apply bool_decide_eq_true in Ee. split; [by intros ? [= <-]|done]. }
  destruct (bool_decide (p ∈ disk w)) eqn:Ed; simpl.
  - split.
    + intros ? [= <-] _. apply not_elem_of_difference. right.
      by apply elem_of_singleton.
    + intros q Hq. rewrite elem_of_difference, elem_of_singleton.
      split; [by intros [? _]|]. intros Hin. split; [done|]. by intros ->.
  - apply bool_decide_eq_false in Ed. split; [by intros ? [= <-]|done].
Qed.

(** The counts of a bulk deletion.  Without names the request is refused
    and nothing changes.  Otherwise, whether the store fails or not, every
    name is counted once, as deleted or as failed; the entries of [results]
    are those of the deleted names and of the names on which a call threw
    (a name that is not in the store is counted as failed and has no
    entry); and the store has lost one document for each name counted as
    deleted. *)
Theorem bulkDeletePdfs_counts_every_name (fileNames : option (list string)) (w : World) :
  match fileNames with
  | None | Some [] =>
      bulkDeletePdfs fault fileNames w = (error_reply 400 "No file names provided", w)
  | Some names =>
      ∃ deleted failed entries w',
        bulkDeletePdfs fault fileNames w
        = (BulkDeleted (length names) deleted failed entries, w') ∧
        deleted + failed = length names ∧
        deleted ≤ length entries ≤ length names ∧
        length (docs w') + deleted = length (docs w)
  end.
Proof.
  destruct fileNames as [[|name names]|]; [done| |done].
  assert (Hstep : ∀ b w0 n,
    ∃ b' w1, bulkDelete_one fault (b, w0) n = (b', w1) ∧
      ((length (deletedFiles b') = S (length (deletedFiles b)) ∧
        length (failedFiles b') = length (failedFiles b) ∧
        length (results b') = S (length (results b)) ∧
        length (docs w1) + 1 = length (docs w0)) ∨
       (length (deletedFiles b') = length (deletedFiles b) ∧
        length (failedFiles b') = S (length (failedFiles b)) ∧
        length (results b') ≤ S (length (results b)) ∧
        length (results b) ≤ length (results b') ∧
        length (docs w1) = length (docs w0)))).
  { intros b w0 n. unfold bulkDelete_one.
    destruct (findOne fault w0 (ByFileName n)) as [[invoice|]|e] eqn:Hfind.
    - apply findOne_found in Hfind as (doc & Hdoc & ->).
      unfold deleteOne.
      destruct (fault (CallDeleteOne n)) as [e|].
      + eexists _, _. split; [reflexivity|]. right. simpl.
        rewrite !length_app, remove_file_docs. simpl. lia.
      + eexists _, _. split; [reflexivity|]. left. simpl.
        rewrite !length_app, remove_file_docs. simpl.
        destruct (remove_first_count _ _ _ Hdoc) as [_ Hlen]. lia.
    - eexists _, _. split; [reflexivity|]. right. simpl.
      rewrite !length_app. simpl. lia.
    - eexists _, _. split; [reflexivity|]. right. simpl.
      rewrite !length_app. simpl. lia. }
  assert (Hfold : ∀ ns b w0,
    ∃ b' w1, fold_left (bulkDelete_one fault) ns (b, w0) = (b', w1) ∧
      length (deletedFiles b') + length (failedFiles b')
      = length (deletedFiles b) + length (failedFiles b) + length ns ∧
      length (results b') ≤ length (results b) + length ns ∧
      length (deletedFiles b') + length (results b)
      ≤ length (results b') + length (deletedFiles b) ∧
      length (docs w1) + length (deletedFiles b')
      = length (docs w0) + length (deletedFiles b)).
  { induction ns as [|n ns IH]; intros b w0; cbn [fold_left length].
    - eexists _, _. split; [reflexivity|]. lia.
    - destruct (Hstep b w0 n) as (b1 & w1 & -> & Hcase).
      destruct (IH b1 w1) as (b2 & w2 & -> & Hsum & Hres & Hdel & Hdocs).
      eexists _, _. split; [reflexivity|]. lia. }
  destruct (Hfold (name :: names) (mkBulkDelete [] [] []) w)
    as (b' & w' & Hrun & Hsum & Hres & Hdel & Hdocs).
  unfold bulkDeletePdfs. rewrite Hrun. simpl in *.
  eexists _, _, _, _. split; [reflexivity|]. lia.
Qed.

End Requests.

End LibraryFacts.
(** ** An upload followed by other requests *)

Module LibraryRequestFacts.
Import JSString JSValue RegExp Store DuplicateDetector PlatformClassifier.
Import PdfProcessor Path FileSystem ArchiveExpander BatchCoordinator ItemPipeline.
Import PathJoin FileResolver Library JSStringFacts LibraryFacts.

#[local] Arguments resolveFilePath : simpl never.

Lemma includes_app_l (a b needle : string) :
  includes a needle = true → includes (a +:+ b) needle = true.
Proof.
  rewrite !includes_spec. intros (pre & post & ->).
  exists pre, (post +:+ b). by rewrite !append_assoc.
Qed.

Lemma change_first_app_some (test : Document → bool) (change : Document → Document)
    (ds ds' : list Document) (d : Document) :
  find test ds = Some d →
  change_first test change (ds ++ ds') = change_first test change ds ++ ds'.
Proof.
  induction ds as [|x ds IH]; simpl; [done|].
  destruct (test x); [done|]. intros Hfind. by rewrite (IH Hfind).
Qed.

Lemma find_change_first (test : Document → bool) (change : Document → Document)
    (ds : list Document) (d : Document) :
  find test ds = Some d → test (change d) = true →
  find test (change_first test change ds) = Some (change d).
Proof.
  intros Hfind Hkeeps. induction ds as [|x ds IH]; simpl in *; [done|].
  destruct (test x) eqn:E.
  - injection Hfind as ->. simpl. by rewrite Hkeeps.
  - simpl. rewrite E. by apply IH.
Qed.

Lemma find_app_some {A} (f : A → bool) (l l' : list A) (x : A) :
  find f l = Some x → find f (l ++ l') = Some x.
Proof.
  induction l as [|y l IH]; simpl; [done|]. by destruct (f y).
Qed.

Lemma change_first_length (test : Document → bool) (change : Document → Document)
    (ds : list Document) :
  length (change_first test change ds) = length ds.
Proof.
  induction ds as [|x ds IH]; simpl; [done|].
  destruct (test x); simpl; by rewrite ?IH.
Qed.

Section Facts.
Context `{RegExpEngine} `{Builtins}.
Variable fault : Call → option Error.
Variable calculateFileHash : string → Res string.
Variable readText : string → Res string.
Variable llm_invoke : string → string → Res Response.
Variable random : nat.
Variable origin : string.
Variable uploadsDir : string.

(** When a file is ingested although a document of its name is stored (its
    duplicate check failed open on a lookup that threw, or was made before
    that document was written), and the writes to the store are answered,
    the [updateOne] by name reaches the older document: it is the older
    document that receives the path and the digest of the new file, while
    the document of the new file, the last of the collection, keeps the
    temporary path and no digest. *)
Theorem ingest_under_a_stored_name_updates_the_older_document
    (file : File) (w w' : World) (old : Document)
    (platform : string) (data : Value) (url : string) :
  writes_answered fault → fresh_ids w →
  find (named (originalname file)) (docs w) = Some old →
  ingest fault calculateFileHash readText llm_invoke random origin uploadsDir
    file w = (Completed platform data url, w') →
  ∃ digest text,
    calculateFileHash (path file) = Ok digest ∧
    last (docs w') = Some (processed_document (next_id w) file text data) ∧
    find (named (originalname file)) (docs w')
    = Some (mkDocument (_id old)
              (mkInvoice (fileName (stored old))
                 (Some (finalPath random uploadsDir file)) (Some digest)
                 (Store.platform (stored old)) (status (stored old)))
              (rawText old) (extractedData old) (errorMessage old)) ∧
    length (docs w') = S (length (docs w)).
Proof.
  intros [Hsaves Hupdates] Hfresh Hold. unfold ingest.
  destruct (calculateFileHash (path file)) as [digest|e] eqn:Hhash; [|done].
  destruct (decide (originalname file = EmptyString)) as [Hname|Hname].
  { destruct (processPdf_unnamed fault readText llm_invoke file w Hname) as [e ->].
    done. }
  rewrite (processPdf_reliable fault readText llm_invoke file w Hsaves Hfresh Hname).
  destruct (readText (path file)) as [text|e]; [|done].
  destruct (extractInvoiceData llm_invoke text (detectPlatform text)) as [d|e];
    [|done].
  unfold renameSync. simpl.
  destruct (bool_decide (path file ∈ disk w)); [|done].
  unfold updateOne. rewrite Hupdates. simpl.
  intros [= <- <- <- <-]. exists digest, text. simpl.
  rewrite (change_first_app_some _ _ _ _ old Hold).
  split; [done|]. split; [by rewrite last_snoc|]. split.
  - apply find_app_some.
    match goal with
    | |- context [change_first _ ?change (docs w)] =>
        apply (find_change_first _ change _ old Hold)
    end.
    unfold named in *. simpl. apply find_some in Hold as [_ Hold]. exact Hold.
  - rewrite !length_app, change_first_length. simpl. lia.
Qed.

(** A Meta Ads invoice ingested by a deployment whose uploads directory
    lies under [/var/www/], or under a directory named
    [MULTI-PDF-READER-BACKEND], cannot be viewed: its file is on disk at the
    stored path, and [viewPdf] answers 404, with or without a [Range]
    header, the file being taken for one of another server. *)
Theorem ingested_meta_invoice_is_not_viewable
    (readdirSync : string → Res (list string))
    (statSize : string → float)
    (createReadStream_throws : float → float → option Error)
    (range : option string)
    (file : File) (w w' : World) (data : Value) (url : string) :
  reliable fault → fresh_ids w →
  normalize uploadsDir = uploadsDir → isAbsolute uploadsDir = true →
  endsWith_slash uploadsDir = false →
  PathFacts.no_slash (originalname file) →
  includes uploadsDir "/var/www/"
    || includes uploadsDir "MULTI-PDF-READER-BACKEND" = true →
  item_run fault calculateFileHash readText llm_invoke random origin uploadsDir
    file w = (Completed "meta_ads" data url, w') →
  finalPath random uploadsDir file ∈ disk w' ∧
  viewPdf fault readdirSync uploadsDir statSize createReadStream_throws
    (originalname file) range w'
  = Answer 404
      (VObj [("error", VStr "PDF file not available locally");
             ("message",
              VStr "This Meta Ads invoice was processed on a different server and the PDF file is not available in the local environment. Please contact the administrator to sync the files.");
             ("platform", VStr "meta_ads");
             ("fileName", VStr (originalname file))]).
Proof.
  intros Hrel Hfresh Hnorm Habs Htrail Hname Hdir Hrun.
  destruct (item_run_completed _ _ _ _ _ _ _ _ _ _ _ _ _ Hrel Hfresh Hrun)
    as (digest & text & Hhash & F1 & F2 & Hin & Hplat & -> & ->).
  set (doc := ingested_document (next_id w) file text data
                (finalPath random uploadsDir file) digest).
  assert (Hfind : find (named (originalname file)) (docs w ++ [doc]) = Some doc).
  { rewrite (find_app_none _ _ _ F2). simpl. unfold named. simpl.
    by rewrite bool_decide_eq_true_2. }
  destruct (PathFacts.hyphenated_name (digits random) (originalname file))
    as (Hne & Hdot & Hdots).
  assert (Hplain : PathFacts.no_slash (finalFileName random file)).
  { apply PathFacts.no_slash_app; [apply PathFacts.digits_no_slash|].
    by apply (PathFacts.no_slash_app "-"). }
  assert (Hfinal : finalPath random uploadsDir file
                   = uploadsDir +:+ "/" +:+ finalFileName random file).
  { by apply PathFacts.join_plain_name. }
  split; [simpl; apply elem_of_union_r; by apply elem_of_singleton|].
  unfold viewPdf, findOne, findDocument. rewrite Hrel. simpl. unfold satisfies.
  change (find (λ d, bool_decide (fileName (stored d) = originalname file))
            (docs w ++ [doc]))
    with (find (named (originalname file)) (docs w ++ [doc])).
  rewrite Hfind. simpl. rewrite <- Hplat, Hfinal.
  rewrite bool_decide_eq_false_2 by (by destruct uploadsDir).
  rewrite (bool_decide_eq_true_2 ("meta_ads" = "meta_ads")) by done.
  apply orb_true_iff in Hdir as [Hdir|Hdir].
  - by rewrite (includes_app_l _ _ _ Hdir).
  - rewrite (includes_app_l _ _ _ Hdir). by rewrite orb_true_r.
Qed.

Lemma remove_first_app_last (test : Document → bool) (ds : list Document)
    (d : Document) :
  find test ds = None → test d = true →
  remove_first test (ds ++ [d]) = ds.
Proof.
  intros Hnone Hd. induction ds as [|x ds IH]; simpl in *.
  - by rewrite Hd.
  - destruct (test x); [done|]. by rewrite IH.
Qed.

(** Deleting undoes an upload: when a file has been ingested and is then
    deleted by its name, the request succeeds, the store holds the documents
    it held before the upload, and neither the final file nor (unless it is
    the same path) the temporary one is on disk; every other file is as it
    was.  The [_id] of the document is not given again. *)
Theorem deletePdf_undoes_the_upload
    (file : File) (w w' : World) (platform : string) (data : Value) (url : string) :
  reliable fault → fresh_ids w →
  isAbsolute uploadsDir = true →
  item_run fault calculateFileHash readText llm_invoke random origin uploadsDir
    file w = (Completed platform data url, w') →
  ∃ w'',
    deletePdf fault (originalname file) w'
    = (Answer 200
         (VObj [("message", VStr ("Successfully deleted " +:+ originalname file));
                ("deletedFile", VStr (originalname file))]), w'') ∧
    docs w'' = docs w ∧
    next_id w'' = S (next_id w) ∧
    (finalPath random uploadsDir file ∉ disk w'') ∧
    (path file ≠ finalPath random uploadsDir file → path file ∉ disk w'') ∧
    ∀ p, p ≠ path file → p ≠ finalPath random uploadsDir file →
         (p ∈ disk w'' ↔ p ∈ disk w).
Proof.
  intros Hrel Hfresh Habs Hrun.
  destruct (item_run_completed _ _ _ _ _ _ _ _ _ _ _ _ _ Hrel Hfresh Hrun)
    as (digest & text & Hhash & F1 & F2 & Hin & -> & -> & ->).
  set (doc := ingested_document (next_id w) file text data
                (finalPath random uploadsDir file) digest).
  assert (Hfind : find (named (originalname file)) (docs w ++ [doc]) = Some doc).
  { rewrite (find_app_none _ _ _ F2). simpl. unfold named. simpl.
    by rewrite bool_decide_eq_true_2. }
  assert (Hne : finalPath random uploadsDir file ≠ EmptyString).
  { apply ResolverFacts.isAbsolute_not_empty.
    by apply ResolverFacts.join_absolute. }
  unfold deletePdf, findOne, findDocument. rewrite Hrel. simpl. unfold satisfies.
  change (find (λ d, bool_decide (fileName (stored d) = originalname file))
            (docs w ++ [doc]))
    with (find (named (originalname file)) (docs w ++ [doc])).
  rewrite Hfind. simpl.
  unfold remove_file, existsSync, unlinkSync. simpl.
  rewrite (bool_decide_eq_false_2 _ Hne). simpl.
  rewrite !bool_decide_eq_true_2
    by (apply elem_of_union_r; by apply elem_of_singleton).
  simpl. unfold deleteOne. rewrite Hrel. simpl.
  eexists. split; [done|]. simpl.
  split.
  { apply remove_first_app_last; [done|].
    unfold named. simpl. by rewrite bool_decide_eq_true_2. }
  split; [done|].
  repeat split.
  - rewrite elem_of_difference, elem_of_singleton. tauto.
  - intros Hdiff.
    rewrite elem_of_difference, elem_of_union, elem_of_difference,
      !elem_of_singleton.
    tauto.
  - rewrite elem_of_difference, elem_of_union, elem_of_difference,
      !elem_of_singleton.
    tauto.
  - intros Hp.
    rewrite elem_of_difference, elem_of_union, elem_of_difference,
      !elem_of_singleton.
    tauto.
Qed.

End Facts.

Section Requests.
Context `{RegExpEngine} `{Builtins}.
Variable fault : Call → option Error.
Variable readdirSync : string → Res (list string).
Variable uploadsDir : string.
Variable statSize : string → float.
Variable createReadStream_throws : float → float → option Error.



End Requests.

End LibraryRequestFacts.
(** ** The properties above on sample data *)

Module FurtherExamples.
Import JSString JSValue RegExp MiniRegExp Store DuplicateDetector DuplicateSamples.
Import PdfProcessor PostProcess Path FileSystem ArchiveExpander BatchCoordinator.
Import ItemPipeline PathJoin FileResolver Library.
Import ProcessorSamples BatchSamples LibrarySamples.

(** One PDF, processed: the summary lists one entry and counts it. *)
Lemma uncancelled_summary_accounted_witness :
  let x := expandArchives sample_zip_open sample_random [single_pdf] sample_disk in
  ∃ entries,
    pc (run (start_run x no_flags) [Timer; ItemSettles 0 processed_fine; Timer])
    = Responded (Json 1 0 0 [] entries) ∧
    1 + 0 + 0 = length entries ∧
    length entries = length (ArchiveExpander.allFiles x).
Proof.
  intros x. eexists. split; [vm_compute; reflexivity|].
  apply (CoordinatorFacts.uncancelled_summary_accounted x no_flags
           [Timer; ItemSettles 0 processed_fine; Timer] 1 0 0 []).
  - reflexivity.
  - reflexivity.
  - rewrite !not_elem_of_cons. repeat split; try discriminate. apply not_elem_of_nil.
  - vm_compute. reflexivity.
Defined.

(** Sixteen files, paused during the first window: once resumed, the
    coordinator dispatches the sixteenth file. *)
Lemma resume_dispatches_next_window_witness :
  let s := run (start_run sixteen no_flags)
             ([Timer; PauseRequest] ++ settle_window 15 ++ [Timer; Timer; Timer]) in
  let s' := run s [ResumeRequest; Timer] in
  pc s' = AwaitingWindow ∧
  window s'
  = map (λ f, (f, Processing)) (take batchSize (drop (i s) (allFiles s))) ∧
  window s' ≠ [] ∧
  started s' = started s + length (window s').
Proof.
  apply (CoordinatorInvariants.resume_dispatches_next_window sixteen no_flags
           ([Timer; PauseRequest] ++ settle_window 15 ++ [Timer; Timer; Timer]));
    vm_compute; reflexivity.
Defined.

(** The batch of a broken archive and one PDF never gets its summary. *)
Lemma failed_archive_blocks_summary_witness :
  FailedArchiveFacts.no_summary
    (run (start_run broken_batch no_flags)
       [Timer; ItemSettles 0 processed_fine; Timer]).
Proof.
  apply (FailedArchiveFacts.failed_archive_blocks_summary sample_zip_open
           sample_random [broken_zip; single_pdf] sample_disk no_flags
           [Timer; ItemSettles 0 processed_fine; Timer]).
  vm_compute. discriminate.
Defined.

(** The answer of the service for the sample invoice, formatted. *)
Lemma validateAndFormatData_fixed_fields_witness :
  ∃ out,
    validateAndFormatData taxed_data "google_ads" undated_invoice_text = Ok out ∧
    TierFacts.keys out
    = ["invoiceNumber"; "invoiceDate"; "accountId"; "accountName"; "location"]
      ++ (if truthy (prop taxed_data "billingPeriod") then ["billingPeriod"] else [])
      ++ ["subtotal"; "taxAmount"; "totalAmount"; "currency"; "campaigns"] ∧
    truthy (prop out "currency") = true ∧
    (truthy (prop taxed_data "currency") = false → prop out "currency" = VStr "INR") ∧
    isArray (prop out "campaigns") = true.
Proof.
  eexists. split; [vm_compute; reflexivity|].
  apply (TierFacts.validateAndFormatData_fixed_fields taxed_data _ "google_ads"
           undated_invoice_text).
  vm_compute. reflexivity.
Defined.

(** The sample invoice when the service fails: the fallback's amounts. *)
Lemma extractInvoiceData_amounts_typed_witness :
  ∃ data,
    extractInvoiceData failing_llm undated_invoice_text "google_ads" = Ok data ∧
    TierFacts.amount_typed (prop data "subtotal") ∧
    TierFacts.amount_typed (prop data "taxAmount") ∧
    TierFacts.amount_typed (prop data "totalAmount") ∧
    TierFacts.campaigns_are_objects data.
Proof.
  eexists. split; [vm_compute; reflexivity|].
  apply (TierFacts.extractInvoiceData_amounts_typed failing_llm
           undated_invoice_text "google_ads").
  vm_compute. reflexivity.
Defined.

Lemma postProcess_accepts_extracted_data_witness :
  ∃ data,
    extractInvoiceData chatty_llm undated_invoice_text "google_ads" = Ok data ∧
    ∃ out, postProcess data = Ok out.
Proof.
  eexists. split; [vm_compute; reflexivity|].
  apply (TierFacts.postProcess_accepts_extracted_data chatty_llm
           undated_invoice_text "google_ads").
  vm_compute. reflexivity.
Defined.

(** A path stored by another deployment: the file is found under its base
    name in the uploads directory. *)
Lemma resolveFilePath_provenance_witness :
  let stored := "/var/www/invoices/uploads/55-invoice.pdf" in
  let p := "/srv/uploads/55-invoice.pdf" in
  (Some stored = Some p ∧ isAbsolute p = true ∧ p ∈ uploads_disk) ∨
  (∃ stored', Some stored = Some stored' ∧
     p = join "/srv/uploads" (basename stored') ∧ p ∈ uploads_disk) ∨
  (∃ stored' files name,
     Some stored = Some stored' ∧
     sample_listing "/srv/uploads" = Ok files ∧ name ∈ files ∧
     p = join "/srv/uploads" name ∧
     (includes name (removeExtension (basename stored')) = true ∨
      includes (removeExtension name) (removeExtension (basename stored')) = true ∨
      includes (removeExtension (basename stored')) (removeExtension name) = true)).
Proof.
  apply (ResolverFacts.resolveFilePath_provenance uploads_disk sample_listing
           "/srv/uploads" (Some "/var/www/invoices/uploads/55-invoice.pdf")).
  vm_compute. reflexivity.
Defined.

Lemma resolveFilePath_idempotent_witness :
  resolveFilePath uploads_disk sample_listing "/srv/uploads"
    (Some "/srv/uploads/55-invoice.pdf")
  = Some "/srv/uploads/55-invoice.pdf".
Proof.
  apply (ResolverFacts.resolveFilePath_idempotent uploads_disk sample_listing
           "/srv/uploads" (Some "/var/www/invoices/uploads/55-invoice.pdf")).
  - reflexivity.
  - intros files name Hfiles Hname. vm_compute in Hfiles.
    injection Hfiles as <-.
    apply elem_of_cons in Hname as [->|Hname]; [by vm_compute|].
    apply elem_of_cons in Hname as [->|Hname]; [by vm_compute|].
    by apply elem_of_nil in Hname.
  - vm_compute. reflexivity.
Defined.

(** A document whose stored path is [/data/.pdf]: the request is answered
    with the first file of the uploads directory. *)
Lemma resolveFilePath_empty_stem_witness :
  resolveFilePath uploads_disk sample_listing "/srv/uploads" (Some "/data/.pdf")
  = Some "/srv/uploads/55-invoice.pdf".
Proof.
  apply (ResolverFacts.resolveFilePath_empty_stem uploads_disk sample_listing
           "/srv/uploads" "/data/.pdf" "55-invoice.pdf" ["101-B.PDF"]).
  - discriminate.
  - vm_compute. reflexivity.
  - by vm_compute.
  - by vm_compute.
  - vm_compute. reflexivity.
Defined.

(** The sample invoice, uploaded to an empty library. *)
Lemma ingested_content_is_a_duplicate_afterwards_witness :
  ∃ platform data url w',
    item_run no_fault sample_hash sample_readText chatty_llm 55
      "http://localhost:3000" "/srv/uploads" single_pdf empty_library
    = (Completed platform data url, w') ∧
    ∃ digest doc,
      sample_hash (path single_pdf) = Ok digest ∧
      findDocument no_fault w' (ByFileHash digest) = Ok (Some doc) ∧
      fileName (stored doc) = "invoice.pdf" ∧
      filePath (stored doc) = Some "/srv/uploads/55-invoice.pdf" ∧
      status (stored doc) = "completed" ∧
      "/srv/uploads/55-invoice.pdf" ∈ disk w' ∧
      ∀ again : File,
        sample_hash (path again) = Ok digest →
        (item_run no_fault sample_hash sample_readText chatty_llm 55
           "http://localhost:3000" "/srv/uploads" again w').1
        = Duplicate "File content already exists (invoice.pdf)"
            (invoice_value (stored doc)).
Proof.
  eexists _, _, _, _. split; [vm_compute; reflexivity|].
  eapply (LibraryFacts.ingested_content_is_a_duplicate_afterwards no_fault
            sample_hash sample_readText chatty_llm 55 "http://localhost:3000"
            "/srv/uploads" single_pdf empty_library).
  - intros c. reflexivity.
  - constructor.
  - vm_compute. reflexivity.
Defined.

(** An upload whose text cannot be read, and what follows for its name. *)
Lemma failed_processing_blocks_the_name_witness :
  ∃ e,
    unreadable (path single_pdf) = Throw e ∧
    let result :=
      item_run no_fault sample_hash unreadable chatty_llm 55
        "http://localhost:3000" "/srv/uploads" single_pdf empty_library in
    result.1 = Failed e ∧
    (path single_pdf ∉ disk result.2) ∧
    (∃ doc,
       findDocument no_fault result.2 (ByFileName "invoice.pdf") = Ok (Some doc) ∧
       status (stored doc) = "failed" ∧
       errorMessage doc = Some (message e) ∧
       fileHash (stored doc) = None) ∧
    ∀ (again : File) (digest' : string),
      originalname again = "invoice.pdf" →
      sample_hash (path again) = Ok digest' →
      ∃ why existing,
        (item_run no_fault sample_hash unreadable chatty_llm 55
           "http://localhost:3000" "/srv/uploads" again result.2).1
        = Duplicate why existing.
Proof.
  eexists. split; [reflexivity|].
  eapply (LibraryFacts.failed_processing_blocks_the_name no_fault sample_hash
            unreadable chatty_llm 55 "http://localhost:3000" "/srv/uploads"
            single_pdf empty_library).
  - intros c. reflexivity.
  - constructor.
  - discriminate.
  - reflexivity.
  - vm_compute. reflexivity.
  - reflexivity.
  - reflexivity.
Defined.

(** The uploaded invoice is served under its name. *)
Lemma ingested_file_can_be_downloaded_witness :
  ∃ platform data url w',
    item_run no_fault sample_hash sample_readText chatty_llm 55
      "http://localhost:3000" "/srv/uploads" single_pdf empty_library
    = (Completed platform data url, w') ∧
    downloadPdf no_fault sample_listing "/srv/uploads" "invoice.pdf" w'
    = Download "/srv/uploads/55-invoice.pdf" "invoice.pdf".
Proof.
  eexists _, _, _, _. split; [vm_compute; reflexivity|].
  eapply (LibraryFacts.ingested_file_can_be_downloaded no_fault sample_hash
            sample_readText chatty_llm 55 "http://localhost:3000" "/srv/uploads"
            sample_listing single_pdf empty_library).
  - intros c. reflexivity.
  - constructor.
  - reflexivity.
  - vm_compute. reflexivity.
Defined.

(** The address returned by the upload is the one the status requests give. *)
Lemma upload_url_is_the_stored_url_witness :
  ∃ platform data w',
    item_run no_fault sample_hash sample_readText chatty_llm 55
      "http://localhost:3000" "/srv/uploads" single_pdf empty_library
    = (Completed platform data "http://localhost:3000/uploads/55-invoice.pdf", w') ∧
    ∃ doc,
      findDocument no_fault w' (ByFileName "invoice.pdf") = Ok (Some doc) ∧
      filePath (stored doc) = Some "/srv/uploads/55-invoice.pdf" ∧
      pdfUrl "http://localhost:3000" (filePath (stored doc))
      = VStr "http://localhost:3000/uploads/55-invoice.pdf".
Proof.
  eexists _, _, _. split; [vm_compute; reflexivity|].
  eapply (LibraryFacts.upload_url_is_the_stored_url no_fault sample_hash
            sample_readText chatty_llm 55 "http://localhost:3000" "/srv/uploads"
            single_pdf empty_library).
  - intros c. reflexivity.
  - constructor.
  - vm_compute. reflexivity.
  - reflexivity.
  - vm_compute. reflexivity.
  - vm_compute. reflexivity.
  - vm_compute. reflexivity.
Defined.

(** Deleting [B.PDF] from a library of two documents. *)
Lemma deletePdf_removes_one_document_and_its_file_witness :
  ∃ w',
    deletePdf no_fault "B.PDF" library_of_two
    = (Answer 200
         (VObj [("message", VStr "Successfully deleted B.PDF");
                ("deletedFile", VStr "B.PDF")]), w') ∧
    length (List.filter (named "B.PDF") (docs w')) + 1
    = length (List.filter (named "B.PDF") (docs library_of_two)) ∧
    List.filter (λ d, negb (named "B.PDF" d)) (docs w')
    = List.filter (λ d, negb (named "B.PDF" d)) (docs library_of_two) ∧
    (length (List.filter (named "B.PDF") (docs library_of_two)) = 1 →
     find (named "B.PDF") (docs w') = None) ∧
    (∀ p, filePath (stored scan_document) = Some p → p ≠ EmptyString →
          p ∉ disk w') ∧
    (∀ q, filePath (stored scan_document) ≠ Some q →
          (q ∈ disk w' ↔ q ∈ disk library_of_two)).
Proof.
  apply (LibraryFacts.deletePdf_removes_one_document_and_its_file no_fault
           "B.PDF" library_of_two).
  intros c. reflexivity.
Defined.

(** A second [invoice.pdf], ingested beside the stored one. *)
Lemma ingest_under_a_stored_name_updates_the_older_document_witness :
  ∃ platform data url w',
    ingest no_fault sample_hash sample_readText chatty_llm 55
      "http://localhost:3000" "/srv/uploads" single_pdf library_with_invoice
    = (Completed platform data url, w') ∧
    ∃ digest text,
      sample_hash (path single_pdf) = Ok digest ∧
      last (docs w')
      = Some (LibraryFacts.processed_document 1 single_pdf text data) ∧
      find (named "invoice.pdf") (docs w')
      = Some (mkDocument 0
                (mkInvoice "invoice.pdf" (Some "/srv/uploads/55-invoice.pdf")
                   (Some digest) "google_ads" "completed")
                None None None) ∧
      length (docs w') = 2.
Proof.
  eexists _, _, _, _. split; [vm_compute; reflexivity|].
  eapply (LibraryRequestFacts.ingest_under_a_stored_name_updates_the_older_document
            no_fault sample_hash sample_readText chatty_llm 55
            "http://localhost:3000" "/srv/uploads" single_pdf
            library_with_invoice _ invoice_document).
  - split; [intros id d | intros a b c]; reflexivity.
  - repeat constructor.
  - reflexivity.
  - vm_compute. reflexivity.
Defined.

(** A receipt of Meta, uploaded to a deployment under [/var/www/]. *)
Lemma ingested_meta_invoice_is_not_viewable_witness :
  ∃ data url w',
    item_run no_fault sample_hash meta_readText failing_llm 55
      "http://localhost:3000" "/var/www/invoices/uploads" single_pdf empty_library
    = (Completed "meta_ads" data url, w') ∧
    "/var/www/invoices/uploads/55-invoice.pdf" ∈ disk w' ∧
    viewPdf no_fault sample_listing "/var/www/invoices/uploads" sample_statSize
      sample_createReadStream_throws "invoice.pdf" (Some "bytes=0-1023") w'
    = Answer 404
        (VObj [("error", VStr "PDF file not available locally");
               ("message",
                VStr "This Meta Ads invoice was processed on a different server and the PDF file is not available in the local environment. Please contact the administrator to sync the files.");
               ("platform", VStr "meta_ads");
               ("fileName", VStr "invoice.pdf")]).
Proof.
  eexists _, _, _. split; [vm_compute; reflexivity|].
  eapply (LibraryRequestFacts.ingested_meta_invoice_is_not_viewable no_fault sample_hash
            meta_readText failing_llm 55 "http://localhost:3000"
            "/var/www/invoices/uploads" sample_listing sample_statSize
            sample_createReadStream_throws (Some "bytes=0-1023")
            single_pdf empty_library).
  - intros c. reflexivity.
  - constructor.
  - vm_compute. reflexivity.
  - reflexivity.
  - vm_compute. reflexivity.
  - vm_compute. reflexivity.
  - vm_compute. reflexivity.
  - vm_compute. reflexivity.
Defined.

(** The sample invoice, uploaded to an empty library and deleted again. *)
Lemma deletePdf_undoes_the_upload_witness :
  ∃ platform data url w',
    item_run no_fault sample_hash sample_readText chatty_llm 55
      "http://localhost:3000" "/srv/uploads" single_pdf empty_library
    = (Completed platform data url, w') ∧
    ∃ w'',
      deletePdf no_fault "invoice.pdf" w'
      = (Answer 200
           (VObj [("message", VStr "Successfully deleted invoice.pdf");
                  ("deletedFile", VStr "invoice.pdf")]), w'') ∧
      docs w'' = [] ∧
      next_id w'' = 1 ∧
      ("/srv/uploads/55-invoice.pdf" ∉ disk w'') ∧
      ("/srv/uploads/812-invoice.pdf" ≠ "/srv/uploads/55-invoice.pdf" →
       "/srv/uploads/812-invoice.pdf" ∉ disk w'') ∧
      ∀ p, p ≠ "/srv/uploads/812-invoice.pdf" → p ≠ "/srv/uploads/55-invoice.pdf" →
           (p ∈ disk w'' ↔ p ∈ sample_disk).
Proof.
  eexists _, _, _, _. split; [vm_compute; reflexivity|].
  eapply (LibraryRequestFacts.deletePdf_undoes_the_upload no_fault sample_hash
            sample_readText chatty_llm 55 "http://localhost:3000" "/srv/uploads"
            single_pdf empty_library).
  - intros c. reflexivity.
  - constructor.
  - reflexivity.
  - vm_compute. reflexivity.
Defined.

(** Requests to view the stored invoice, with and without a [Range]
    header: a range, a range without end, an end before the start, a
    suffix range (whose start is not a number), and the whole file. *)
Example viewPdf_range_requests :
  let view range :=
    viewPdf no_fault sample_listing "/srv/uploads" sample_statSize
      sample_createReadStream_throws "invoice.pdf" range library_of_two in
  view (Some "bytes=0-1023")
  = StreamRange "/srv/uploads/55-invoice.pdf" "invoice.pdf" 0 1023 1024 2048 ∧
  view (Some "bytes=100-")
  = StreamRange "/srv/uploads/55-invoice.pdf" "invoice.pdf" 100 2047 1948 2048 ∧
  view (Some "bytes=10-5")
  = error_reply 500 "The value of start is out of range." ∧
  view (Some "bytes=-500")
  = error_reply 500 "The value of start or end is out of range." ∧
  view None = Stream "/srv/uploads/55-invoice.pdf" "invoice.pdf" ∧
  downloadPdf no_fault sample_listing "/srv/uploads" "invoice.pdf" library_of_two
  = Download "/srv/uploads/55-invoice.pdf" "invoice.pdf".
Proof. vm_compute. repeat split; reflexivity. Qed.

End FurtherExamples.
